(** * Normalization layers of [mlx.nn] (python/mlx/nn/layers/normalization.py)

    A shallow embedding of [LayerNorm], [RMSNorm], [GroupNorm] and
    [BatchNorm1d].  Arrays are a shape together with their row-major
    elements; the element type and its arithmetic are an interface
    ([Scalar]) with two instances: the real numbers, on which the algebraic
    statements are proved, and binary64 floating point numbers, on which
    the layers can be run.  Python exceptions are values of [result]. *)

From Stdlib Require Import ZArith Reals Lra Lia.
From Stdlib Require PrimFloat.
From stdpp Require Import base tactics option list.

Set Default Proof Using "Type".

(** ** Scalars *)

(** The arithmetic the layers use on array elements and on Python floats
    ([eps], [momentum], [1 / n ** 0.5]). *)
Class Scalar (A : Type) := {
  s0 : A;
  s1 : A;
  sadd : A → A → A;
  ssub : A → A → A;
  smul : A → A → A;
  sdiv : A → A → A;
  ssqrt : A → A;
  srsqrt : A → A;
  sof_Z : Z → A
}.

Definition sof_nat {A} `{Scalar A} (n : nat) : A := sof_Z (Z.of_nat n).

#[export] Instance R_Scalar : Scalar R := {|
  s0 := 0%R;
  s1 := 1%R;
  sadd := Rplus;
  ssub := Rminus;
  smul := Rmult;
  sdiv := Rdiv;
  ssqrt := sqrt;
  srsqrt := fun x => (/ sqrt x)%R;
  sof_Z := IZR
|}.

#[export] Instance float_Scalar : Scalar PrimFloat.float := {|
  s0 := PrimFloat.zero;
  s1 := PrimFloat.one;
  sadd := PrimFloat.add;
  ssub := PrimFloat.sub;
  smul := PrimFloat.mul;
  sdiv := PrimFloat.div;
  ssqrt := PrimFloat.sqrt;
  srsqrt := fun x => PrimFloat.div PrimFloat.one (PrimFloat.sqrt x);
  sof_Z := fun z =>
    match z with
    | Z0 => PrimFloat.zero
    | Zpos p => Pos.iter_op PrimFloat.add p PrimFloat.one
    | Zneg p => PrimFloat.opp (Pos.iter_op PrimFloat.add p PrimFloat.one)
    end
|}.

(** ** Exceptions *)

Inductive exn : Set :=
  | ValueError
  | IndexError
  | ZeroDivisionError
  | AttributeError.

Inductive result (T : Type) : Type :=
  | Ok (v : T)
  | Raise (e : exn).
Arguments Ok {T} v.
Arguments Raise {T} e.

#[export] Instance result_ret : MRet result := fun _ v => Ok v.
#[export] Instance result_bind : MBind result := fun _ _ f m =>
  match m with
  | Ok v => f v
  | Raise e => Raise e
  end.

(** The value a computation returned, forgetting which exception it raised
    otherwise. *)
Definition returned {T} (r : result T) : option T :=
  match r with
  | Ok v => Some v
  | Raise _ => None
  end.

(** ** Arrays *)

Record array (A : Type) : Type := Array {
  shape : list nat;
  data : list A
}.
Arguments Array {A} shape data.
Arguments shape {A} a.
Arguments data {A} a.

Definition size_of (s : list nat) : nat := foldr Nat.mul 1 s.

Definition ndim {A} (a : array A) : nat := length (shape a).

(** An array holds as many elements as its shape says. *)
Definition wf {A} (a : array A) : Prop := length (data a) = size_of (shape a).

(** [m] consecutive blocks of [k] elements. *)
Definition chunks {A} (k m : nat) (d : list A) : list (list A) :=
  (fun i => take k (drop (i * k) d)) <$> seq 0 m.

Section Primitives.
Context {A : Type} `{Scalar A}.

(** Modelled from the spec: [mx.zeros] and [mx.ones] of [mlx.core], which
    is not under src/; an array of the given shape filled with one
    value. *)
Definition full (s : list nat) (v : A) : array A :=
  Array s (replicate (size_of s) v).
Definition zeros (s : list nat) : array A := full s s0.
Definition ones (s : list nat) : array A := full s s1.

(** Modelled from the spec: the broadcasting rule of [mlx.core]
    ([broadcast_shapes]), not under src/.  Shapes are aligned at their
    last axis; two extents agree when they are equal or one of them is
    1.  The argument lists are reversed shapes. *)
Fixpoint broadcast_rev (a b : list nat) : option (list nat) :=
  match a, b with
  | [], _ => Some b
  | _, [] => Some a
  | x :: a', y :: b' =>
      if x =? y then cons x <$> broadcast_rev a' b'
      else if (x =? 1) || (y =? 1) then cons (x * y) <$> broadcast_rev a' b'
      else None
  end.

Definition broadcast_shapes (a b : list nat) : option (list nat) :=
  reverse <$> broadcast_rev (reverse a) (reverse b).

(** The elements of an array of shape [src] read at shape [tgt], both of
    one rank: an axis of extent 1 is repeated. *)
Fixpoint bcast_data (src tgt : list nat) (d : list A) : list A :=
  match src, tgt with
  | m :: src', n :: tgt' =>
      if m =? n
      then concat (bcast_data src' tgt' <$> chunks (size_of src') m d)
      else concat (replicate n (bcast_data src' tgt' d))
  | _, _ => d
  end.

Definition broadcast_to (tgt : list nat) (a : array A) : list A :=
  bcast_data (replicate (length tgt - ndim a) 1 ++ shape a) tgt (data a).

(** Modelled from the spec: the element-wise binary operations of
    [mlx.core] ([+], [-], [*] between arrays), not under src/: operands
    are broadcast to a common shape, shapes that cannot be raise. *)
Definition binop (f : A → A → A) (a b : array A) : result (array A) :=
  match broadcast_shapes (shape a) (shape b) with
  | Some s => Ok (Array s (zip_with f (broadcast_to s a) (broadcast_to s b)))
  | None => Raise ValueError
  end.

Definition add := binop sadd.
Definition sub := binop ssub.
Definition mul := binop smul.
Definition div := binop sdiv.

(** Modelled from the spec: the element-wise unary operations of
    [mlx.core] ([mx.rsqrt], [square], [sqrt]) and the operations between an
    array and a Python float, not under src/: the shape is kept. *)
Definition map_array (f : A → A) (a : array A) : array A :=
  Array (shape a) (f <$> data a).

Definition add_scalar (a : array A) (c : A) : array A :=
  map_array (fun v => sadd v c) a.
Definition scalar_mul (c : A) (a : array A) : array A :=
  map_array (fun v => smul c v) a.
Definition mul_scalar (a : array A) (c : A) : array A :=
  map_array (fun v => smul v c) a.
Definition rsqrt : array A → array A := map_array srsqrt.
Definition sqrt_array : array A → array A := map_array ssqrt.
Definition square : array A → array A := map_array (fun v => smul v v).

(** Modelled from the spec: the reductions of [mlx.core] along one axis,
    not under src/.  Axis [k] of an array of shape [s] is reduced: [f]
    receives the elements along the axis, for each position of the other
    axes. *)
Fixpoint reduce_data (f : list A → A) (k : nat) (s : list nat)
    (d : list A) : list A :=
  match s with
  | [] => d
  | n :: s' =>
      match k with
      | 0 =>
          (fun i => f ((fun j => nth (j * size_of s' + i) d s0) <$> seq 0 n))
            <$> seq 0 (size_of s')
      | S k' => concat (reduce_data f k' s' <$> chunks (size_of s') n d)
      end
  end.

(** A Python axis number, negative ones counting from the last axis. *)
Definition normalize_axis (axis : Z) (n : nat) : result nat :=
  let ax := if (axis <? 0)%Z then (axis + Z.of_nat n)%Z else axis in
  if (0 <=? ax)%Z && (ax <? Z.of_nat n)%Z then Ok (Z.to_nat ax)
  else Raise IndexError.

(** Reduction along one axis with [keepdims=True]. *)
Definition reduce (f : list A → A) (a : array A) (axis : Z)
    : result (array A) :=
  k ← normalize_axis axis (ndim a);
  Ok (Array (<[k := 1]> (shape a)) (reduce_data f k (shape a) (data a))).

Definition sum_list (l : list A) : A := foldr sadd s0 l.

(** Modelled from the spec: [mx.mean] of [mlx.core], not under src/: the
    sum along the axis times the reciprocal of the number of elements. *)
Definition mean_list (l : list A) : A :=
  smul (sum_list l) (sdiv s1 (sof_nat (length l))).

(** Modelled from the spec: [mx.var] of [mlx.core], not under src/: the
    mean of the squared deviations from the mean (no degrees-of-freedom
    correction). *)
Definition var_list (l : list A) : A :=
  let mu := mean_list l in
  mean_list ((fun v => smul (ssub v mu) (ssub v mu)) <$> l).

Definition sum (a : array A) (axis : Z) := reduce sum_list a axis.
Definition mean (a : array A) (axis : Z) := reduce mean_list a axis.
Definition var (a : array A) (axis : Z) := reduce var_list a axis.

(** The product of the extents given to [reshape], and how many are left
    to infer. *)
Definition known_size (spec : list Z) : Z :=
  foldr (fun d acc => if (d =? -1)%Z then acc else (d * acc)%Z) 1%Z spec.

Definition inferred (spec : list Z) : nat :=
  length (filter (fun d => d = (-1)%Z) spec).

(** Modelled from the spec: [reshape] of [mlx.core], not under src/.  One
    extent may be given as -1 and is inferred from the number of
    elements; it cannot be inferred when the other extents multiply to
    zero.  The elements keep their row-major order. *)
Definition reshape (a : array A) (spec : list Z) : result (array A) :=
  let sz := Z.of_nat (size_of (shape a)) in
  let k := known_size spec in
  let q := if (0 <? k)%Z then (sz / k)%Z else 0%Z in
  let s := (fun d => if (d =? -1)%Z then q else d) <$> spec in
  if existsb (fun d => (d <? -1)%Z) spec then Raise ValueError
  else if 1 <? inferred spec then Raise ValueError
  else if (k =? 0)%Z && (inferred spec =? 1) then Raise ValueError
  else if negb (foldr Z.mul 1%Z s =? sz)%Z then Raise ValueError
  else Ok (Array (Z.to_nat <$> s) (data a)).

(** Row-major positions: the multi-index of a flat position and back. *)
Fixpoint unravel (s : list nat) (i : nat) : list nat :=
  match s with
  | [] => []
  | _ :: s' => i / size_of s' :: unravel s' (i mod size_of s')
  end.

Fixpoint ravel (s idx : list nat) : nat :=
  match s, idx with
  | _ :: s', j :: idx' => j * size_of s' + ravel s' idx'
  | _, _ => 0
  end.

Fixpoint index_of (j : nat) (axes : list nat) : nat :=
  match axes with
  | [] => 0
  | a :: axes' => if a =? j then 0 else S (index_of j axes')
  end.

Definition is_permutation (axes : list nat) (n : nat) : bool :=
  (length axes =? n) && forallb (fun j => existsb (Nat.eqb j) axes) (seq 0 n).

(** Modelled from the spec: [transpose] of [mlx.core], not under src/:
    axis [k] of the result is axis [axes[k]] of the argument. *)
Definition transpose (a : array A) (axes : list nat) : result (array A) :=
  if is_permutation axes (ndim a) then
    let s := shape a in
    let s' := (fun ax => nth ax s 0) <$> axes in
    Ok (Array s'
          ((fun i =>
              let idx' := unravel s' i in
              let idx := (fun j => nth (index_of j axes) idx' 0)
                           <$> seq 0 (ndim a) in
              nth (ravel s idx) (data a) s0) <$> seq 0 (size_of s')))
  else Raise ValueError.

(** [(self.weight * x + self.bias) if "weight" in self else x], the last
    line of every layer but [RMSNorm].  The attributes of a module are
    the keys of a dictionary: one that was not set is [None] here and
    reading it raises. *)
Definition affine (weight bias : option (array A)) (x : array A)
    : result (array A) :=
  match weight with
  | Some w =>
      wx ← mul w x;
      match bias with
      | Some b => add wx b
      | None => Raise AttributeError
      end
  | None => Ok x
  end.

(** The defaults [eps=1e-5] and [momentum=0.1] of the constructors. *)
Definition default_eps : A := sdiv s1 (sof_Z 100000).
Definition default_momentum : A := sdiv s1 (sof_Z 10).

End Primitives.

(** ** LayerNorm *)

Module LayerNorm.
Record t (A : Type) : Type := Build {
  weight : option (array A);
  bias : option (array A);
  eps : A;
  dims : nat
}.
Arguments Build {A}.
Arguments weight {A}.
Arguments bias {A}.
Arguments eps {A}.
Arguments dims {A}.

Section Methods.
Context {A : Type} `{Scalar A}.

Definition __init__ (dims : nat) (eps : A) (affine : bool) : t A :=
  {| weight := if affine then Some (ones [dims]) else None;
     bias := if affine then Some (zeros [dims]) else None;
     eps := eps;
     dims := dims |}.

(** [(x - means) * mx.rsqrt(var + self.eps)], the output before the
    affine transform. *)
Definition normalize (self : t A) (x : array A) : result (array A) :=
  means ← mean x (-1);
  var ← var x (-1);
  xm ← sub x means;
  mul xm (rsqrt (add_scalar var (eps self))).

Definition __call__ (self : t A) (x : array A) : result (array A) :=
  x ← normalize self x;
  affine (weight self) (bias self) x.
End Methods.
End LayerNorm.

(** ** RMSNorm *)

Module RMSNorm.
Record t (A : Type) : Type := Build {
  weight : array A;
  eps : A
}.
Arguments Build {A}.
Arguments weight {A}.
Arguments eps {A}.

Section Methods.
Context {A : Type} `{Scalar A}.

Definition __init__ (dims : nat) (eps : A) : t A :=
  {| weight := ones [dims]; eps := eps |}.

(** [S = 1 / x.shape[-1] ** 0.5]: indexing the shape of a rank 0 array
    raises, and so does the division when the last axis is empty. *)
Definition scale (x : array A) : result A :=
  match last (shape x) with
  | None => Raise IndexError
  | Some 0 => Raise ZeroDivisionError
  | Some n => Ok (sdiv s1 (ssqrt (sof_nat n)))
  end.

Definition __call__ (self : t A) (x : array A) : result (array A) :=
  S ← scale x;
  n ← sum (square (mul_scalar x S)) (-1);
  let n := rsqrt (add_scalar n (eps self)) in
  wx ← mul (weight self) x;
  mul wx n.
End Methods.
End RMSNorm.

(** ** GroupNorm *)

Module GroupNorm.
Record t (A : Type) : Type := Build {
  weight : option (array A);
  bias : option (array A);
  num_groups : Z;
  dims : nat;
  eps : A;
  pytorch_compatible : bool
}.
Arguments Build {A}.
Arguments weight {A}.
Arguments bias {A}.
Arguments num_groups {A}.
Arguments dims {A}.
Arguments eps {A}.
Arguments pytorch_compatible {A}.

Section Methods.
Context {A : Type} `{Scalar A}.

Definition __init__ (num_groups : Z) (dims : nat) (eps : A)
    (affine pytorch_compatible : bool) : t A :=
  {| weight := if affine then Some (ones [dims]) else None;
     bias := if affine then Some (zeros [dims]) else None;
     num_groups := num_groups;
     dims := dims;
     eps := eps;
     pytorch_compatible := pytorch_compatible |}.

(** [batch, *rest, dims = x.shape]: fewer than two axes raise. *)
Definition unpack (s : list nat) : result (nat * list nat * nat) :=
  match s with
  | batch :: r =>
      match last r with
      | Some dims => Ok (batch, removelast r, dims)
      | None => Raise ValueError
      end
  | [] => Raise ValueError
  end.

(** [dims // num_groups] on Python integers. *)
Definition floordiv (a b : Z) : result Z :=
  if (b =? 0)%Z then Raise ZeroDivisionError else Ok (a / b)%Z.

(** The lines under [# Normalize], common to both groupings. *)
Definition normalize (self : t A) (x : array A) : result (array A) :=
  means ← mean x 1;
  var ← var x 1;
  xm ← sub x means;
  mul xm (rsqrt (add_scalar var (eps self))).

Definition _pytorch_compatible_group_norm (self : t A) (x : array A)
    : result (array A) :=
  let num_groups := num_groups self in
  '(batch, rest, dims) ← unpack (shape x);
  let batch := Z.of_nat batch in
  let dims := Z.of_nat dims in
  q ← floordiv dims num_groups;
  x ← reshape x [batch; (-1)%Z; num_groups; q];
  x ← transpose x [0; 1; 3; 2];
  x ← reshape x [batch; (-1)%Z; num_groups];
  x ← normalize self x;
  q ← floordiv dims num_groups;
  x ← reshape x [batch; (-1)%Z; q; num_groups];
  x ← transpose x [0; 1; 3; 2];
  reshape x (batch :: (Z.of_nat <$> rest) ++ [dims]).

Definition _group_norm (self : t A) (x : array A) : result (array A) :=
  let num_groups := num_groups self in
  '(batch, rest, dims) ← unpack (shape x);
  let batch := Z.of_nat batch in
  let dims := Z.of_nat dims in
  x ← reshape x [batch; (-1)%Z; num_groups];
  x ← normalize self x;
  reshape x (batch :: (Z.of_nat <$> rest) ++ [dims]).

Definition __call__ (self : t A) (x : array A) : result (array A) :=
  let group_norm :=
    if pytorch_compatible self then _pytorch_compatible_group_norm
    else _group_norm in
  x ← group_norm self x;
  affine (weight self) (bias self) x.
End Methods.
End GroupNorm.

(** ** BatchNorm1d *)

Module BatchNorm1d.
Record t (A : Type) : Type := Build {
  weight : option (array A);
  bias : option (array A);
  num_features : nat;
  eps : A;
  momentum : A;
  running_mean : array A;
  running_var : array A;
  training : bool
}.
Arguments Build {A}.
Arguments weight {A}.
Arguments bias {A}.
Arguments num_features {A}.
Arguments eps {A}.
Arguments momentum {A}.
Arguments running_mean {A}.
Arguments running_var {A}.
Arguments training {A}.

Section Methods.
Context {A : Type} `{Scalar A}.

(** A method takes the module and gives the module as it leaves it,
    together with what it returned or raised: what was assigned before an
    exception stays assigned. *)
Definition method (T : Type) : Type := t A → t A * result T.

Definition pure {T} (v : T) : method T := fun self => (self, Ok v).
Definition raise {T} (e : exn) : method T := fun self => (self, Raise e).
Definition lift {T} (r : result T) : method T := fun self => (self, r).
Definition get {T} (f : t A → T) : method T :=
  fun self => (self, Ok (f self)).

#[export] Instance method_bind : MBind method := fun _ _ k m self =>
  match m self with
  | (self', Ok v) => k v self'
  | (self', Raise e) => (self', Raise e)
  end.

(** The module after [self.running_mean = v] and [self.running_var = v]. *)
Definition with_running_mean (v : array A) (self : t A) : t A :=
  {| weight := weight self; bias := bias self;
     num_features := num_features self; eps := eps self;
     momentum := momentum self; running_mean := v;
     running_var := running_var self; training := training self |}.

Definition with_running_var (v : array A) (self : t A) : t A :=
  {| weight := weight self; bias := bias self;
     num_features := num_features self; eps := eps self;
     momentum := momentum self; running_mean := running_mean self;
     running_var := v; training := training self |}.

Definition set_running_mean (v : array A) : method unit := fun self =>
  (with_running_mean v self, Ok tt).

Definition set_running_var (v : array A) : method unit := fun self =>
  (with_running_var v self, Ok tt).

(** Modelled from the spec: the base class [Module] of
    [mlx.nn.layers.base], not under src/: a parameter container with a
    training/evaluation mode flag, which [Module.__init__] sets to
    training. *)
Definition __init__ (num_features : nat) (eps momentum : A)
    (affine : bool) : t A :=
  {| weight := if affine then Some (ones [num_features]) else None;
     bias := if affine then Some (zeros [num_features]) else None;
     num_features := num_features;
     eps := eps;
     momentum := momentum;
     running_mean := zeros [num_features];
     running_var := ones [num_features];
     training := true |}.

(** Modelled from the spec: [Module.eval] and [Module.train] of the base
    class, not under src/, which set the mode flag. *)
Definition set_training (b : bool) (self : t A) : t A :=
  {| weight := weight self; bias := bias self;
     num_features := num_features self; eps := eps self;
     momentum := momentum self; running_mean := running_mean self;
     running_var := running_var self; training := b |}.

Definition _calc_stats (x : array A) : method (array A * array A) :=
  means ← lift (mean x 0);
  var ← lift (var x 0);
  momentum ← get momentum;
  rm ← get running_mean;
  new_mean ← lift (add (scalar_mul momentum rm)
                       (scalar_mul (ssub s1 momentum) means));
  set_running_mean new_mean;;
  rv ← get running_var;
  new_var ← lift (add (scalar_mul momentum rv)
                      (scalar_mul (ssub s1 momentum) var));
  set_running_var new_var;;
  pure (means, var).

Definition __call__ (x : array A) : method (array A) :=
  if negb (ndim x =? 2) then raise ValueError
  else
    means ← get running_mean;
    var ← get running_var;
    training ← get training;
    '(means, var) ← (if training : bool then _calc_stats x
                     else pure (means, var));
    eps ← get eps;
    xm ← lift (sub x means);
    x ← lift (mul xm (rsqrt (add_scalar var eps)));
    w ← get weight;
    b ← get bias;
    lift (affine w b x).
End Methods.
End BatchNorm1d.

(** ** Notions of the statements *)

Section Notions.
Context {A : Type} `{Scalar A}.

(** Element [i] of an array, in row-major order. *)
Definition item (a : array A) (i : nat) : A := nth i (data a) s0.

(** Column [f] of [B] rows of [F] elements: [x[:, f]] of a 2-D array. *)
Definition column (F B : nat) (d : list A) (f : nat) : list A :=
  (fun j => nth (j * F + f) d s0) <$> seq 0 B.

(** A statistic [f] of each feature over a batch of [B] rows of [F]
    features, as [mx.mean(x, axis=0, keepdims=True)] returns it. *)
Definition batch_stat (f : list A → A) (x : array A) (B F : nat) : array A :=
  Array [1; F] ((fun i => f (column F B (data x) i)) <$> seq 0 F).

(** One row normalized by its own mean and variance. *)
Definition normalize_row (eps : A) (row : list A) : list A :=
  (fun v => smul (ssub v (mean_list row))
                 (srsqrt (sadd (var_list row) eps))) <$> row.

(** The extents of [src] can be read at the extents of [tgt]: each is the
    same or 1. *)
Definition compat (src tgt : list nat) : Prop :=
  Forall2 (fun m n => m = n ∨ m = 1) src tgt.

(** A vector of one value per feature, held with shape [(F,)] or, after
    a reduction that keeps the axis, [(1, F)]. *)
Definition vector_like (F : nat) (a : array A) : Prop :=
  wf a ∧ (shape a = [F] ∨ shape a = [1; F]).

(** [(x - means) * mx.rsqrt(var + eps)] on arrays. *)
Definition normalized (x means var : array A) (eps : A) : result (array A) :=
  xm ← sub x means;
  mul xm (rsqrt (add_scalar var eps)).

(** The exponential moving average
    [momentum * old + (1 - momentum) * fresh] on arrays. *)
Definition ema (momentum : A) (old fresh : array A) : result (array A) :=
  add (scalar_mul momentum old) (scalar_mul (ssub s1 momentum) fresh).

(** The affine transform on the value [v] of feature [f]. *)
Definition affine_item (weight bias : option (array A)) (f : nat) (v : A)
    : A :=
  match weight, bias with
  | Some w, Some b => sadd (smul (item w f) v) (item b f)
  | _, _ => v
  end.

(** The learned vectors fit [F] features: both are there and hold one
    value per feature, or there is no weight (and the bias is not read). *)
Definition affine_ok (F : nat) (weight bias : option (array A)) : Prop :=
  match weight, bias with
  | Some w, Some b => vector_like F w ∧ vector_like F b
  | Some _, None => False
  | None, _ => True
  end.

(** The vectors of a [BatchNorm1d] module hold one value for each of [F]
    features. *)
Definition bn_fits (F : nat) (self : BatchNorm1d.t A) : Prop :=
  vector_like F (BatchNorm1d.running_mean self) ∧
  vector_like F (BatchNorm1d.running_var self) ∧
  affine_ok F (BatchNorm1d.weight self) (BatchNorm1d.bias self).

(** A vector as the constructors make it: shape [(F,)], with [F]
    elements. *)
Definition is_vector (F : nat) (a : array A) : Prop :=
  shape a = [F] ∧ length (data a) = F.

(** Every vector of a [BatchNorm1d] module holds one value for each of
    its [num_features] features. *)
Definition bn_lengths (self : BatchNorm1d.t A) : Prop :=
  let F := BatchNorm1d.num_features self in
  vector_like F (BatchNorm1d.running_mean self) ∧
  vector_like F (BatchNorm1d.running_var self) ∧
  (∀ w, BatchNorm1d.weight self = Some w → vector_like F w) ∧
  (∀ b, BatchNorm1d.bias self = Some b → vector_like F b).

(** The formula in the docstring of [RMSNorm],
    [y = x / sqrt(E[x^2] + eps) * gamma], on arrays. *)
Definition rms_norm_documented (self : RMSNorm.t A) (x : array A)
    : result (array A) :=
  m ← mean (square x) (-1);
  wx ← mul (RMSNorm.weight self) x;
  div wx (sqrt_array (add_scalar m (RMSNorm.eps self))).

(** The formula of the specification,
    [weight * x / (sqrt(mean(x^2, last axis)) + eps)]: [eps] is added to
    the root mean square. *)
Definition rms_norm_eps_outside_root (self : RMSNorm.t A) (x : array A)
    : result (array A) :=
  m ← mean (square x) (-1);
  wx ← mul (RMSNorm.weight self) x;
  div wx (add_scalar (sqrt_array m) (RMSNorm.eps self)).

(** One row as RMSNorm returns it: each element times its weight, times
    the reciprocal square root of [eps] plus the sum of the squares of the
    row scaled by [S = 1 / sqrt(length)]. *)
Definition rms_norm_row (eps : A) (w row : list A) : list A :=
  let S := sdiv s1 (ssqrt (sof_nat (length row))) in
  let r := srsqrt (sadd (sum_list ((fun v => smul (smul v S) (smul v S))
                                     <$> row)) eps) in
  (fun u => smul u r) <$> zip_with smul w row.

(** The affine transform on one row along the last axis, feature by
    feature. *)
Definition affine_row (weight bias : option (array A)) (row : list A)
    : list A :=
  match weight, bias with
  | Some w, Some b => zip_with sadd (zip_with smul (data w) row) (data b)
  | _, _ => row
  end.

(** The learned vectors are as a constructor with [dims = n] makes them,
    or there is no weight (and the bias is not read). *)
Definition params_fit (n : nat) (weight bias : option (array A)) : Prop :=
  match weight, bias with
  | Some w, Some b => is_vector n w ∧ is_vector n b
  | Some _, None => False
  | None, _ => True
  end.

End Notions.

(** A module of three features as its constructor leaves it, and a batch
    of two rows, on which the statements are tried. *)
Definition example_module : BatchNorm1d.t R :=
  BatchNorm1d.__init__ 3 default_eps default_momentum true.

Definition example_batch : array R :=
  Array [2; 3] [1; 2; 3; 4; 5; 9]%R.

(** The same batch in binary64 numbers, on which the layers run. *)
Definition float_batch : array PrimFloat.float :=
  Array [2; 3] (sof_Z <$> [1; 2; 3; 4; 5; 9]%Z).

Definition float_module (num_features : nat) (affine : bool)
    : BatchNorm1d.t PrimFloat.float :=
  BatchNorm1d.__init__ num_features default_eps default_momentum affine.

(** * Properties *)

(** ** Blocks of a list *)

Section Chunks.
Context {A : Type}.
Implicit Types (d : list A) (k m : nat).

Lemma chunks_0 k d : chunks k 0 d = [].
Proof. reflexivity. Qed.

Lemma chunks_S k m d : chunks k (S m) d = take k d :: chunks k m (drop k d).
Proof.
  unfold chunks. cbn [seq fmap list_fmap]. f_equal.
  rewrite <- fmap_S_seq, <- list_fmap_compose.
  apply list_fmap_ext. intros _ i _. cbn.
  rewrite drop_drop. reflexivity.
Qed.

Lemma length_chunks k m d : length (chunks k m d) = m.
Proof. unfold chunks. rewrite length_fmap, length_seq. reflexivity. Qed.

Lemma Forall_chunks_length k m d :
  length d = m * k → Forall (fun c => length c = k) (chunks k m d).
Proof.
  revert d. induction m as [|m IH]; intros d Hd.
  - constructor.
  - rewrite chunks_S. constructor.
    + rewrite length_take. lia.
    + apply IH. rewrite length_drop. lia.
Qed.

Lemma concat_chunks k m d : length d = m * k → concat (chunks k m d) = d.
Proof.
  revert d. induction m as [|m IH]; intros d Hd.
  - destruct d; [reflexivity | discriminate].
  - rewrite chunks_S. cbn. rewrite IH.
    + apply take_drop.
    + rewrite length_drop. lia.
Qed.

Lemma chunks_concat k (rows : list (list A)) :
  Forall (fun c => length c = k) rows →
  chunks k (length rows) (concat rows) = rows.
Proof.
  induction 1 as [|c rows Hc _ IH]; [reflexivity|].
  cbn [length concat]. rewrite chunks_S. subst k.
  rewrite take_app_length, drop_app_length, IH. reflexivity.
Qed.

Lemma length_concat_uniform k (rows : list (list A)) :
  Forall (fun c => length c = k) rows →
  length (concat rows) = length rows * k.
Proof.
  induction 1 as [|c rows Hc _ IH]; [reflexivity|].
  cbn. rewrite length_app, IH, Hc. reflexivity.
Qed.

End Chunks.

(** Blocks of blocks: [p] blocks of [q * k] elements hold [q] blocks of
    [k] elements each. *)
Section ChunksMul.
Context {A : Type}.

Lemma concat_concat_fmap (X : list (list (list A))) :
  concat (concat X) = concat (@concat A <$> X).
Proof.
  induction X as [|x X IH]; [reflexivity|].
  cbn. rewrite concat_app, IH. reflexivity.
Qed.

Lemma chunks_mul k p q (d : list A) :
  length d = p * (q * k) →
  chunks k (p * q) d = concat (chunks k q <$> chunks (q * k) p d).
Proof.
  intros Hd.
  assert (Hin : Forall (fun c => length c = k)
                  (concat (chunks k q <$> chunks (q * k) p d))).
  { apply Forall_concat, Forall_fmap.
    eapply Forall_impl; [apply Forall_chunks_length, Hd|].
    intros c Hc. apply Forall_chunks_length, Hc. }
  rewrite <- (chunks_concat k _ Hin).
  f_equal.
  - rewrite (length_concat_uniform q).
    + rewrite length_fmap, length_chunks. reflexivity.
    + apply Forall_fmap, Forall_true. intros c. apply length_chunks.
  - rewrite concat_concat_fmap, <- list_fmap_compose.
    rewrite <- (concat_chunks (q * k) p d Hd) at 1.
    f_equal. rewrite <- list_fmap_id at 1.
    apply Forall_fmap_ext.
    eapply Forall_impl; [apply Forall_chunks_length, Hd|].
    intros c Hc. cbn. symmetry. apply concat_chunks, Hc.
Qed.
End ChunksMul.

(** ** Shapes and broadcasting *)

Lemma size_of_cons (n : nat) (s : list nat) : size_of (n :: s) = n * size_of s.
Proof. reflexivity. Qed.

Lemma size_of_app (a b : list nat) : size_of (a ++ b) = size_of a * size_of b.
Proof.
  induction a as [|x a IH]; cbn [app].
  - change (size_of []) with 1. lia.
  - rewrite !size_of_cons, IH. lia.
Qed.

Lemma size_of_singleton (n : nat) : size_of [n] = n.
Proof. cbn. lia. Qed.

Lemma fmap_concat {A B} (f : A → B) (X : list (list A)) :
  f <$> concat X = concat (fmap (M:=list) f <$> X).
Proof.
  induction X as [|x X IH]; [reflexivity|].
  cbn. rewrite fmap_app, IH. reflexivity.
Qed.

Lemma concat_replicate_singleton {A} (n : nat) (v : A) :
  concat (replicate n [v]) = replicate n v.
Proof. induction n as [|n IH]; [reflexivity|]. cbn. rewrite IH. reflexivity. Qed.

Lemma chunks_1 {A} (k : nat) (d : list A) : length d = k → chunks k 1 d = [d].
Proof.
  intros Hd. rewrite chunks_S, chunks_0, take_ge by lia. reflexivity.
Qed.

Section Broadcasting.
Context {A : Type} `{Scalar A}.
Implicit Types (d m : list A) (s pre : list nat).

Lemma bcast_data_id s d : length d = size_of s → bcast_data s s d = d.
Proof.
  revert d. induction s as [|n s IH]; intros d Hd; [reflexivity|].
  cbn [bcast_data]. rewrite Nat.eqb_refl.
  rewrite size_of_cons in Hd.
  rewrite <- (concat_chunks (size_of s) n d Hd) at 2.
  f_equal. rewrite <- list_fmap_id. apply Forall_fmap_ext.
  eapply Forall_impl; [apply Forall_chunks_length, Hd|].
  intros c Hc. apply IH, Hc.
Qed.

(** A leading axis of extent 1 is repeated. *)
Lemma bcast_data_leading s n d :
  length d = size_of s →
  bcast_data (1 :: s) (n :: s) d = concat (replicate n d).
Proof.
  intros Hd. cbn [bcast_data].
  destruct (Nat.eqb_spec 1 n) as [<-|_].
  - rewrite chunks_1 by exact Hd. cbn. rewrite bcast_data_id by exact Hd.
    reflexivity.
  - rewrite bcast_data_id by exact Hd. reflexivity.
Qed.

(** A last axis of extent 1 is repeated. *)
Lemma bcast_data_last pre n m :
  length m = size_of pre →
  bcast_data (pre ++ [1]) (pre ++ [n]) m = concat (replicate n <$> m).
Proof.
  revert m. induction pre as [|p pre IH]; intros m Hm.
  - destruct m as [|v [|? ?]]; try discriminate. cbn [app bcast_data].
    destruct (Nat.eqb_spec 1 n) as [<-|_]; cbn.
    + reflexivity.
    + rewrite concat_replicate_singleton, app_nil_r. reflexivity.
  - cbn [app bcast_data]. rewrite Nat.eqb_refl.
    rewrite size_of_app, size_of_singleton, Nat.mul_1_r.
    rewrite size_of_cons in Hm.
    rewrite <- (concat_chunks (size_of pre) p m Hm) at 2.
    rewrite fmap_concat, concat_concat_fmap, <- list_fmap_compose.
    f_equal. apply Forall_fmap_ext.
    eapply Forall_impl; [apply Forall_chunks_length, Hm|].
    intros c Hc. cbn. apply IH, Hc.
Qed.

Lemma broadcast_rev_refl s : broadcast_rev s s = Some s.
Proof.
  induction s as [|n s IH]; [reflexivity|].
  cbn. rewrite Nat.eqb_refl, IH. reflexivity.
Qed.

Lemma broadcast_rev_cons x y (a b : list nat) :
  broadcast_rev (x :: a) (y :: b) =
  if x =? y then cons x <$> broadcast_rev a b
  else if (x =? 1) || (y =? 1) then cons (x * y) <$> broadcast_rev a b
  else None.
Proof. reflexivity. Qed.

(** An axis of extent 1 against any extent gives that extent. *)
Lemma broadcast_rev_one_r n s :
  broadcast_rev (n :: s) (1 :: s) = Some (n :: s).
Proof.
  rewrite broadcast_rev_cons, broadcast_rev_refl, orb_true_r, Nat.mul_1_r.
  destruct (n =? 1); reflexivity.
Qed.

Lemma broadcast_rev_one_l n s :
  broadcast_rev (1 :: s) (n :: s) = Some (n :: s).
Proof.
  rewrite broadcast_rev_cons, broadcast_rev_refl, Nat.mul_1_l.
  destruct (Nat.eqb_spec 1 n) as [<-|_]; reflexivity.
Qed.

Lemma broadcast_shapes_last_one_r pre n :
  broadcast_shapes (pre ++ [n]) (pre ++ [1]) = Some (pre ++ [n]).
Proof.
  unfold broadcast_shapes. rewrite !reverse_snoc, broadcast_rev_one_r.
  cbn [fmap option_fmap option_map].
  rewrite reverse_cons, reverse_involutive. reflexivity.
Qed.

Lemma broadcast_to_same s (a : array A) :
  shape a = s → wf a → broadcast_to s a = data a.
Proof.
  intros <- Hwf. unfold broadcast_to, ndim.
  rewrite Nat.sub_diag. cbn. apply bcast_data_id, Hwf.
Qed.
End Broadcasting.

(** ** Reductions *)

Lemma fmap_nth_seq {A} (d : list A) (x : A) :
  (fun j => nth j d x) <$> seq 0 (length d) = d.
Proof.
  induction d as [|v d IH]; [reflexivity|].
  cbn [length seq fmap list_fmap nth]. f_equal.
  rewrite <- fmap_S_seq, <- list_fmap_compose. exact IH.
Qed.

Section Reductions.
Context {A : Type} `{Scalar A}.
Implicit Types (d : list A) (f : list A → A) (pre : list nat).

Lemma normalize_axis_last n : normalize_axis (-1) (S n) = Ok n.
Proof.
  unfold normalize_axis. cbn [Z.ltb Z.compare].
  replace (-1 + Z.of_nat (S n))%Z with (Z.of_nat n) by lia.
  destruct (Z.leb_spec 0 (Z.of_nat n)); [|lia].
  destruct (Z.ltb_spec (Z.of_nat n) (Z.of_nat (S n))); [|lia].
  cbn. rewrite Nat2Z.id. reflexivity.
Qed.

(** Reducing the last axis reduces each row. *)
Lemma reduce_data_last f pre n d :
  length d = size_of pre * n →
  reduce_data f (length pre) (pre ++ [n]) d = f <$> chunks n (size_of pre) d.
Proof.
  revert d. induction pre as [|p pre IH]; intros d Hd.
  - change (size_of []) with 1 in *. rewrite chunks_1 by lia.
    cbn [app length reduce_data]. change (size_of []) with 1.
    cbn [seq fmap list_fmap]. do 2 f_equal.
    etransitivity; [|apply (fmap_nth_seq d s0)].
    replace (length d) with n by lia.
    apply list_fmap_ext. intros _ j _. f_equal. lia.
  - cbn [app length reduce_data].
    rewrite size_of_app, size_of_singleton.
    rewrite size_of_cons in *.
    assert (Hd' : length d = p * (size_of pre * n)) by lia.
    rewrite (chunks_mul n p (size_of pre) d Hd'), fmap_concat.
    rewrite <- list_fmap_compose. f_equal. apply Forall_fmap_ext.
    eapply Forall_impl; [apply Forall_chunks_length, Hd'|].
    intros c Hc. cbn. apply IH, Hc.
Qed.

(** Reducing the first axis of a 2-D array reduces each column. *)
Lemma reduce_data_columns f B F d :
  reduce_data f 0 [B; F] d = (fun i => f (column F B d i)) <$> seq 0 F.
Proof. cbn [reduce_data]. rewrite size_of_singleton. reflexivity. Qed.

Lemma insert_last_one pre n : <[length pre := 1]> (pre ++ [n]) = pre ++ [1].
Proof.
  rewrite insert_app_r_alt by lia. rewrite Nat.sub_diag. reflexivity.
Qed.

Lemma reduce_last f (x : array A) pre n :
  shape x = pre ++ [n] → wf x →
  reduce f x (-1) =
  Ok (Array (pre ++ [1]) (f <$> chunks n (size_of pre) (data x))).
Proof.
  intros Hs Hwf. unfold reduce, ndim, wf in *. rewrite Hs in *.
  rewrite length_app, Nat.add_1_r, normalize_axis_last.
  cbn [mbind result_bind]. rewrite insert_last_one, reduce_data_last.
  - reflexivity.
  - rewrite Hwf, size_of_app, size_of_singleton. reflexivity.
Qed.

Lemma reduce_columns f (x : array A) B F :
  shape x = [B; F] →
  reduce f x 0 =
  Ok (Array [1; F] ((fun i => f (column F B (data x) i)) <$> seq 0 F)).
Proof.
  intros Hs. unfold reduce, ndim. rewrite Hs.
  change (normalize_axis 0 (length [B; F])) with (Ok (T:=nat) 0).
  cbn [mbind result_bind]. rewrite reduce_data_columns. reflexivity.
Qed.

End Reductions.

(** ** Element-wise operations against a reduced last axis *)

Lemma zip_with_replicate_row {A B C} (f : A → B → C) (c : list A) (v : B) :
  zip_with f c (replicate (length c) v) = (fun u => f u v) <$> c.
Proof. induction c as [|u c IH]; [reflexivity|]. cbn. rewrite IH. reflexivity. Qed.

Lemma zip_with_concat_rows {A B C} (f : A → B → C) (n : nat)
    (R : list (list A)) (m : list B) :
  Forall (fun c => length c = n) R →
  zip_with f (concat R) (concat (replicate n <$> m)) =
  concat (zip_with (fun row v => (fun u => f u v) <$> row) R m).
Proof.
  intros HR. revert m. induction HR as [|c R Hc _ IH]; intros m.
  - reflexivity.
  - destruct m as [|v m]; cbn.
    + apply zip_with_nil_r.
    + rewrite zip_with_app by (rewrite length_replicate; exact Hc).
      rewrite IH. subst n. rewrite zip_with_replicate_row. reflexivity.
Qed.

Section LastAxis.
Context {A : Type} `{Scalar A}.
Implicit Types (a b x : array A) (pre : list nat).

Lemma broadcast_to_last_one pre n b :
  shape b = pre ++ [1] → wf b →
  broadcast_to (pre ++ [n]) b = concat (replicate n <$> data b).
Proof.
  intros Hs Hwf. unfold broadcast_to, ndim, wf in *. rewrite Hs in *.
  rewrite !length_app, Nat.sub_diag. cbn [replicate app].
  apply bcast_data_last.
  rewrite Hwf, size_of_app, size_of_singleton. lia.
Qed.

Lemma binop_last_axis (f : A → A → A) a b pre n :
  shape a = pre ++ [n] → wf a → shape b = pre ++ [1] → wf b →
  binop f a b =
  Ok (Array (pre ++ [n])
        (concat (zip_with (fun row v => (fun u => f u v) <$> row)
                   (chunks n (size_of pre) (data a)) (data b)))).
Proof.
  intros Ha Hwa Hb Hwb. unfold binop.
  rewrite Ha, Hb, broadcast_shapes_last_one_r.
  rewrite (broadcast_to_same _ a Ha Hwa), (broadcast_to_last_one _ _ b Hb Hwb).
  assert (Hd : length (data a) = size_of pre * n).
  { unfold wf in Hwa. rewrite Hwa, Ha, size_of_app, size_of_singleton.
    reflexivity. }
  rewrite <- (concat_chunks n (size_of pre) (data a) Hd) at 1.
  rewrite (zip_with_concat_rows f n) by apply Forall_chunks_length, Hd.
  reflexivity.
Qed.

End LastAxis.

(** ** Row-wise functions *)

Section RowWise.
Context {A B : Type}.
Implicit Types (g : list A → list B) (d : list A).

Lemma Forall_rowwise_length g n P d :
  length d = P * n → (∀ row, length (g row) = length row) →
  Forall (fun c => length c = n) (g <$> chunks n P d).
Proof.
  intros Hd Hg. apply Forall_fmap.
  eapply Forall_impl; [apply Forall_chunks_length, Hd|].
  intros c Hc. cbn. rewrite Hg. exact Hc.
Qed.

Lemma chunks_rowwise g n P d :
  length d = P * n → (∀ row, length (g row) = length row) →
  chunks n P (concat (g <$> chunks n P d)) = g <$> chunks n P d.
Proof.
  intros Hd Hg.
  rewrite <- (chunks_concat n (g <$> chunks n P d)) at 2
    by (apply Forall_rowwise_length; assumption).
  rewrite length_fmap, length_chunks. reflexivity.
Qed.

Lemma length_rowwise g n P d :
  length d = P * n → (∀ row, length (g row) = length row) →
  length (concat (g <$> chunks n P d)) = P * n.
Proof.
  intros Hd Hg. rewrite (length_concat_uniform n).
  - rewrite length_fmap, length_chunks. reflexivity.
  - apply Forall_rowwise_length; assumption.
Qed.

Lemma chunks_fmap (h : A → B) k m d :
  chunks k m (h <$> d) = fmap (M:=list) h <$> chunks k m d.
Proof.
  unfold chunks. rewrite <- list_fmap_compose.
  apply list_fmap_ext. intros _ i _. cbn.
  rewrite fmap_take, fmap_drop. reflexivity.
Qed.

End RowWise.

(** ** LayerNorm, row by row *)

Section LayerNormRows.
Context {A : Type} `{Scalar A}.

Lemma wf_last_axis (x : array A) pre n :
  shape x = pre ++ [n] → wf x → length (data x) = size_of pre * n.
Proof.
  unfold wf. intros -> ->. rewrite size_of_app, size_of_singleton.
  reflexivity.
Qed.

Lemma wf_reduced (f : list A → A) pre n (d : list A) :
  wf (Array (pre ++ [1]) (f <$> chunks n (size_of pre) d)).
Proof.
  unfold wf. cbn [data shape].
  rewrite length_fmap, length_chunks, size_of_app, size_of_singleton. lia.
Qed.

Lemma length_normalize_row (eps : A) row :
  length (normalize_row eps row) = length row.
Proof. unfold normalize_row. apply length_fmap. Qed.

(** The output of [LayerNorm] before the affine transform is each row of
    the input normalized by its own mean and variance. *)
Lemma layer_norm_normalize_rows (self : LayerNorm.t A) (x : array A) pre n :
  shape x = pre ++ [n] → wf x →
  LayerNorm.normalize self x =
  Ok (Array (pre ++ [n])
        (concat (normalize_row (LayerNorm.eps self)
                   <$> chunks n (size_of pre) (data x)))).
Proof.
  intros Hs Hwf. pose proof (wf_last_axis x pre n Hs Hwf) as Hd.
  unfold LayerNorm.normalize, mean, var.
  rewrite !(reduce_last _ x pre n Hs Hwf). cbn [mbind result_bind].
  unfold sub.
  erewrite (binop_last_axis ssub x _ pre n);
    [|exact Hs|exact Hwf|reflexivity|apply wf_reduced].
  cbn [mbind result_bind data].
  rewrite zip_with_fmap_r, zip_with_diag.
  set (centre := fun row : list A => (fun u => ssub u (mean_list row)) <$> row).
  assert (Hc : ∀ row, length (centre row) = length row)
    by (intros row; apply length_fmap).
  unfold mul, rsqrt, add_scalar, map_array. cbn [shape data].
  match goal with
  | |- binop smul ?xm ?r = _ =>
      assert (Hxm : wf xm);
      [|assert (Hr : wf r);
        [|rewrite (binop_last_axis smul xm r pre n eq_refl Hxm eq_refl Hr)]]
  end.
  - unfold wf. cbn [shape data].
    rewrite (length_rowwise centre n _ _ Hd Hc), size_of_app, size_of_singleton.
    reflexivity.
  - unfold wf. cbn [shape data].
    rewrite !length_fmap, length_chunks, size_of_app, size_of_singleton. lia.
  - cbn [shape data]. rewrite (chunks_rowwise centre n _ _ Hd Hc).
    rewrite <- !list_fmap_compose, zip_with_fmap_l, zip_with_fmap_r.
    rewrite zip_with_diag. do 3 f_equal.
    apply list_fmap_ext. intros _ row _. unfold centre, normalize_row. cbn.
    rewrite <- list_fmap_compose. reflexivity.
Qed.

End LayerNormRows.

(** ** Sums, means and variances of real numbers *)

Section RealRows.
Open Scope R_scope.
Implicit Types (l row : list R) (c m eps : R).

Lemma sum_list_cons v l : sum_list (v :: l) = v + sum_list l.
Proof. reflexivity. Qed.

Lemma sum_list_scale c l : sum_list ((fun v => v * c) <$> l) = sum_list l * c.
Proof.
  induction l as [|v l IH]; cbn [fmap list_fmap].
  - cbn. ring.
  - rewrite !sum_list_cons, IH. ring.
Qed.

Lemma sum_list_shift m l :
  sum_list ((fun v => v - m) <$> l) = sum_list l - INR (length l) * m.
Proof.
  induction l as [|v l IH]; cbn [fmap list_fmap length].
  - cbn. ring.
  - rewrite !sum_list_cons, IH, S_INR. ring.
Qed.

Lemma sum_list_nonneg l : Forall (fun v => 0 <= v) l → 0 <= sum_list l.
Proof.
  induction 1 as [|v l Hv _ IH]; [cbn; lra|].
  rewrite sum_list_cons. lra.
Qed.

Lemma mean_list_unfold l : mean_list l = sum_list l * (1 / INR (length l)).
Proof. unfold mean_list, sof_nat. cbn. rewrite <- INR_IZR_INZ. reflexivity. Qed.

Lemma mean_list_scale c l :
  mean_list ((fun v => v * c) <$> l) = mean_list l * c.
Proof. rewrite !mean_list_unfold, sum_list_scale, length_fmap. ring. Qed.

(** Deviations from the mean have mean zero. *)
Lemma mean_list_centred l :
  l ≠ [] → mean_list ((fun v => v - mean_list l) <$> l) = 0.
Proof.
  intros Hl. rewrite mean_list_unfold, sum_list_shift, length_fmap.
  rewrite mean_list_unfold.
  assert (0 < INR (length l)).
  { apply lt_0_INR. destruct l; [congruence | cbn; lia]. }
  field. lra.
Qed.

Lemma var_list_unfold l :
  var_list l =
  mean_list ((fun v => (v - mean_list l) * (v - mean_list l)) <$> l).
Proof. reflexivity. Qed.

Lemma var_list_nonneg l : 0 <= var_list l.
Proof.
  rewrite var_list_unfold, mean_list_unfold.
  apply Rmult_le_pos.
  - apply sum_list_nonneg, Forall_fmap, Forall_true. intros v.
    unfold compose. generalize (v - mean_list l). intros t. nra.
  - rewrite length_fmap. destruct l as [|v l].
    + cbn. rewrite Rdiv_0_r. lra.
    + apply Rlt_le, Rdiv_lt_0_compat; [lra|]. apply lt_0_INR. cbn. lia.
Qed.

Lemma normalize_row_unfold eps row :
  normalize_row eps row =
  (fun v => v * / sqrt (var_list row + eps))
    <$> ((fun v => v - mean_list row) <$> row).
Proof. unfold normalize_row. rewrite <- list_fmap_compose. reflexivity. Qed.

(** A normalized row has mean zero. *)
Lemma mean_list_normalize_row eps row :
  row ≠ [] → mean_list (normalize_row eps row) = 0.
Proof.
  intros Hrow.
  rewrite normalize_row_unfold, mean_list_scale, mean_list_centred by exact Hrow.
  ring.
Qed.

(** The variance of a normalized row is [var / (var + eps)]: below one
    whenever [eps] is positive. *)
Lemma var_list_normalize_row eps row :
  row ≠ [] → 0 < eps →
  var_list (normalize_row eps row) = var_list row / (var_list row + eps).
Proof.
  intros Hrow Heps. pose proof (var_list_nonneg row) as Hv.
  rewrite var_list_unfold, mean_list_normalize_row by exact Hrow.
  rewrite normalize_row_unfold, <- !list_fmap_compose.
  set (c := / sqrt (var_list row + eps)).
  transitivity
    (mean_list ((fun v => v * (c * c))
       <$> ((fun v => (v - mean_list row) * (v - mean_list row)) <$> row))).
  - rewrite <- list_fmap_compose. f_equal.
    apply list_fmap_ext. intros _ v _. cbn. ring.
  - rewrite mean_list_scale, <- var_list_unfold. unfold c.
    rewrite <- Rinv_mult, sqrt_sqrt by lra. reflexivity.
Qed.

Lemma variance_ratio_below_one eps t :
  0 <= t → 0 < eps → 0 <= t / (t + eps) < 1.
Proof.
  intros Ht Heps. split.
  - apply Rmult_le_pos; [exact Ht|]. apply Rlt_le, Rinv_0_lt_compat. lra.
  - apply Rmult_lt_reg_r with (t + eps); [lra|].
    unfold Rdiv. rewrite Rmult_assoc, Rinv_l by lra. lra.
Qed.

End RealRows.

(** ** LayerNorm: mean and variance of the output *)

Lemma fmap_const_replicate {A B} (c : B) (l : list A) :
  (fun _ => c) <$> l = replicate (length l) c.
Proof. induction l as [|v l IH]; [reflexivity|]. cbn. rewrite IH. reflexivity. Qed.

Lemma chunks_nonempty {A} (n P : nat) (d : list A) :
  length d = P * S n → Forall (fun c => c ≠ []) (chunks (S n) P d).
Proof.
  intros Hd. eapply Forall_impl; [apply Forall_chunks_length, Hd|].
  intros [|? ?] Hc; [discriminate | congruence].
Qed.

(** C1 (amended): in exact arithmetic, for every input whose last axis is
    not empty and for a positive [eps], the output of LayerNorm before the
    affine transform has mean zero along the last axis, and its variance
    along that axis is [var / (var + eps)] where [var] is the variance of
    the input, which is below one. *)
Theorem layer_norm_zero_mean_scaled_variance
    (self : LayerNorm.t R) (x : array R) (pre : list nat) (n : nat) :
  shape x = pre ++ [S n] → wf x → (0 < LayerNorm.eps self)%R →
  ∃ y v,
    LayerNorm.normalize self x = Ok y ∧
    shape y = shape x ∧
    var x (-1) = Ok v ∧
    mean y (-1) = Ok (zeros (pre ++ [1])) ∧
    var y (-1) =
      Ok (map_array (fun t => (t / (t + LayerNorm.eps self))%R) v) ∧
    Forall (fun t => (0 <= t / (t + LayerNorm.eps self) < 1)%R) (data v).
Proof.
  intros Hs Hwf Heps. pose proof (wf_last_axis x pre (S n) Hs Hwf) as Hd.
  set (eps := LayerNorm.eps self) in *.
  set (R := chunks (S n) (size_of pre) (data x)).
  set (y := Array (pre ++ [S n]) (concat (normalize_row eps <$> R))).
  assert (Hy : wf y).
  { unfold wf, y. cbn [shape data].
    rewrite (length_rowwise _ (S n) _ _ Hd (length_normalize_row eps)).
    rewrite size_of_app, size_of_singleton. reflexivity. }
  exists y, (Array (pre ++ [1]) (var_list <$> R)).
  split; [apply layer_norm_normalize_rows; assumption|].
  split; [symmetry; exact Hs|].
  split; [apply reduce_last; assumption|].
  unfold mean, var. rewrite !(reduce_last _ y pre (S n) eq_refl Hy).
  unfold y. cbn [data]. fold R.
  rewrite (chunks_rowwise _ (S n) _ _ Hd (length_normalize_row eps)). fold R.
  rewrite <- !list_fmap_compose.
  split; [|split];
    [f_equal; unfold zeros, full, map_array; cbn [shape data]; f_equal ..|].
  3:{ cbn [data]. apply Forall_fmap, Forall_true. intros row. cbn.
      apply variance_ratio_below_one; [apply var_list_nonneg | exact Heps]. }
  - rewrite size_of_app, size_of_singleton, Nat.mul_1_r.
    rewrite <- (length_chunks (S n) (size_of pre) (data x)). fold R.
    rewrite <- fmap_const_replicate. apply Forall_fmap_ext.
    eapply Forall_impl; [apply (chunks_nonempty n), Hd|].
    intros row Hrow. cbn. apply mean_list_normalize_row, Hrow.
  - rewrite <- list_fmap_compose. apply Forall_fmap_ext.
    eapply Forall_impl; [apply (chunks_nonempty n), Hd|].
    intros row Hrow. cbn. apply var_list_normalize_row; assumption.
Qed.

(** C1, witness: a row [1, 3] with the default [eps]. *)
Lemma layer_norm_zero_mean_scaled_variance_witness :
  let self := LayerNorm.__init__ 2 default_eps true in
  let x := Array [2] [1%R; 3%R] in
  shape x = [] ++ [2] ∧ wf x ∧ (0 < LayerNorm.eps self)%R ∧
  ∃ y v,
    LayerNorm.normalize self x = Ok y ∧
    shape y = shape x ∧
    var x (-1) = Ok v ∧
    mean y (-1) = Ok (zeros ([] ++ [1])) ∧
    var y (-1) =
      Ok (map_array (fun t => (t / (t + LayerNorm.eps self))%R) v) ∧
    Forall (fun t => (0 <= t / (t + LayerNorm.eps self) < 1)%R) (data v).
Proof.
  intros self x.
  assert (Heps : (0 < LayerNorm.eps self)%R).
  { unfold self, default_eps. cbn. lra. }
  split; [reflexivity|]. split; [reflexivity|]. split; [exact Heps|].
  apply (layer_norm_zero_mean_scaled_variance self x [] 1);
    [reflexivity | reflexivity | exact Heps].
Defined.

(** C1, counterexample: on the constant row [0, 0] the output is [0, 0];
    its variance is zero, not one. *)
Lemma layer_norm_constant_row_not_unit_variance :
  let self := LayerNorm.__init__ 2 default_eps true in
  let x := Array [2] [0%R; 0%R] in
  ∃ y, LayerNorm.normalize self x = Ok y ∧
       var y (-1) = Ok (zeros [1]) ∧
       var y (-1) ≠ Ok (ones [1]).
Proof.
  intros self x.
  assert (Heps : (0 < LayerNorm.eps self)%R).
  { unfold self, default_eps. cbn. lra. }
  set (y := Array [2] (normalize_row (LayerNorm.eps self) [0%R; 0%R])).
  assert (Hvar : var y (-1) = Ok (zeros [1])).
  { unfold var. rewrite (reduce_last _ y [] 2 eq_refl eq_refl).
    unfold zeros, full. f_equal. f_equal.
    change ([var_list (normalize_row (LayerNorm.eps self) [0%R; 0%R])]
            = [0%R]).
    f_equal. rewrite var_list_normalize_row by (discriminate || exact Heps).
    replace (var_list [0%R; 0%R]) with 0%R.
    - unfold Rdiv. apply Rmult_0_l.
    - unfold var_list, mean_list, sum_list, sof_nat. cbn. field. }
  exists y. split; [|split].
  - rewrite (layer_norm_normalize_rows self x [] 2 eq_refl eq_refl).
    reflexivity.
  - exact Hvar.
  - rewrite Hvar. unfold zeros, ones, full. cbn. intros Heq.
    injection Heq as Heq. lra.
Qed.

(** ** RMSNorm *)

Section BroadcastMap.
Context {A : Type} `{Scalar A}.

Lemma bcast_data_fmap (h : A → A) (s t : list nat) (d : list A) :
  bcast_data s t (h <$> d) = h <$> bcast_data s t d.
Proof.
  revert t d. induction s as [|m s IH]; intros t d; [reflexivity|].
  destruct t as [|n t]; [reflexivity|]. cbn [bcast_data].
  destruct (m =? n).
  - rewrite chunks_fmap, <- list_fmap_compose, fmap_concat.
    rewrite <- list_fmap_compose. f_equal.
    apply list_fmap_ext. intros _ c _. cbn. apply IH.
  - rewrite IH, fmap_concat, fmap_replicate. reflexivity.
Qed.

Lemma broadcast_to_map_array (h : A → A) (s : list nat) (a : array A) :
  broadcast_to s (map_array h a) = h <$> broadcast_to s a.
Proof. unfold broadcast_to, map_array, ndim. cbn. apply bcast_data_fmap. Qed.

Lemma wf_map_array (h : A → A) (a : array A) : wf a → wf (map_array h a).
Proof. unfold wf, map_array. cbn. rewrite length_fmap. trivial. Qed.

End BroadcastMap.

Section RealRMS.
Open Scope R_scope.

(** Multiplying by the reciprocal square root is dividing by the square
    root, element by element. *)
Lemma mul_rsqrt_div_sqrt (a b : array R) :
  mul a (rsqrt b) = div a (sqrt_array b).
Proof.
  unfold mul, div, binop, rsqrt, sqrt_array. cbn [shape map_array].
  destruct (broadcast_shapes (shape a) (shape b)) as [s|]; [|reflexivity].
  rewrite !broadcast_to_map_array, !zip_with_fmap_r. reflexivity.
Qed.

(** The sum of the squares of [x * S] with [S = 1 / sqrt n] is the mean
    of the squares of [x]. *)
Lemma sum_scaled_squares (row : list R) :
  row ≠ [] →
  sum_list ((fun v => v * v)
              <$> ((fun v => v * (1 / sqrt (sof_nat (length row)))) <$> row)) =
  mean_list ((fun v => v * v) <$> row).
Proof.
  intros Hrow. rewrite mean_list_unfold, length_fmap.
  unfold sof_nat. cbn [sof_Z R_Scalar]. rewrite <- INR_IZR_INZ.
  assert (Hn : 0 < INR (length row)).
  { apply lt_0_INR. destruct row; [congruence | cbn; lia]. }
  set (N := INR (length row)) in *.
  rewrite <- list_fmap_compose.
  transitivity (sum_list ((fun v => v * (1 / N)) <$> ((fun v => v * v) <$> row))).
  - rewrite <- list_fmap_compose. f_equal.
    apply list_fmap_ext. intros _ v _. cbn.
    assert (Hs : 0 < sqrt N) by (apply sqrt_lt_R0, Hn).
    rewrite <- (sqrt_sqrt N) at 3 by lra. field. lra.
  - apply sum_list_scale.
Qed.

End RealRMS.

(** C5 (amended): in exact arithmetic, for every input whose last axis is
    not empty, the output of RMSNorm is [weight * x / sqrt(mean(x^2) + eps)],
    the mean taken along the last axis: [eps] is added to the mean of the
    squares, under the square root, as the docstring of the class has it. *)
Theorem rms_norm_matches_docstring
    (self : RMSNorm.t R) (x : array R) (pre : list nat) (n : nat) :
  shape x = pre ++ [S n] → wf x →
  RMSNorm.__call__ self x = rms_norm_documented self x.
Proof.
  intros Hs Hwf. pose proof (wf_last_axis x pre (S n) Hs Hwf) as Hd.
  unfold RMSNorm.__call__, rms_norm_documented, RMSNorm.scale.
  rewrite Hs, last_snoc. cbn [mbind result_bind].
  set (S' := sdiv s1 (ssqrt (sof_nat (S n)))).
  unfold sum, mean.
  rewrite (reduce_last _ (square (mul_scalar x S')) pre (S n) Hs)
    by (unfold square, mul_scalar; do 2 apply wf_map_array; exact Hwf).
  rewrite (reduce_last _ (square x) pre (S n) Hs)
    by (apply wf_map_array; exact Hwf).
  cbn [mbind result_bind square mul_scalar map_array data].
  replace (sum_list <$> chunks (S n) (size_of pre)
             ((fun v => smul v v) <$> ((fun v => smul v S') <$> data x)))
    with (mean_list <$> chunks (S n) (size_of pre)
             ((fun v => smul v v) <$> data x)).
  - destruct (mul (RMSNorm.weight self) x) as [wx|e]; [|reflexivity].
    cbn [mbind result_bind]. apply mul_rsqrt_div_sqrt.
  - rewrite !chunks_fmap, <- !list_fmap_compose. apply Forall_fmap_ext.
    eapply Forall_impl; [apply Forall_chunks_length, Hd|].
    intros row Hrow. cbn. symmetry. unfold S'. rewrite <- Hrow.
    apply sum_scaled_squares. destruct row; [discriminate | congruence].
Qed.

(** C5, witness: two rows of three elements. *)
Lemma rms_norm_matches_docstring_witness :
  let self := RMSNorm.__init__ 3 default_eps in
  let x := Array [2; 3] [1; 2; 3; 4; 5; 9]%R in
  shape x = [2] ++ [3] ∧ wf x ∧
  RMSNorm.__call__ self x = rms_norm_documented self x.
Proof.
  intros self x. split; [reflexivity|]. split; [reflexivity|].
  apply (rms_norm_matches_docstring self x [2] 2); reflexivity.
Defined.

(** C5, counterexample: on the one-element input [1] with weight 1 and the
    default [eps], the layer returns [1 / sqrt(1 + eps)], and the formula
    with [eps] added to the root mean square gives [1 / (1 + eps)]. *)
Lemma rms_norm_eps_not_added_to_root :
  let self := RMSNorm.__init__ 1 default_eps in
  let x := Array [1] [1%R] in
  RMSNorm.__call__ self x ≠ rms_norm_eps_outside_root self x.
Proof.
  intros self x Heq.
  cbv -[Rplus Rmult Rminus Rdiv Rinv sqrt IZR] in Heq.
  injection Heq as Heq. rewrite sqrt_1 in Heq.
  replace (1 * (1 / 1) * (1 * (1 / 1)) + 0 + 1 / 100000)%R
    with (100001 / 100000)%R in Heq by lra.
  replace ((1 * 1 + 0) * (1 / 1))%R with 1%R in Heq by lra.
  rewrite sqrt_1 in Heq.
  assert (Ha : (0 <= 100001 / 100000)%R) by lra.
  pose proof (sqrt_sqrt _ Ha) as Hsq.
  assert (Hpos : (0 < sqrt (100001 / 100000))%R) by (apply sqrt_lt_R0; lra).
  set (r := sqrt (100001 / 100000)) in *.
  assert (Hr : r = (1 + 1 / 100000)%R).
  { apply Rinv_eq_reg. lra. }
  rewrite Hr in Hsq. lra.
Qed.

(** ** Arrays stay well formed *)

Lemma size_of_replicate_1 (k : nat) : size_of (replicate k 1) = 1.
Proof.
  induction k as [|k IH]; [reflexivity|].
  cbn [replicate]. rewrite size_of_cons, IH. reflexivity.
Qed.

Lemma length_concat_replicate {A} (n : nat) (l : list A) :
  length (concat (replicate n l)) = n * length l.
Proof.
  rewrite (length_concat_uniform (length l)).
  - rewrite length_replicate. reflexivity.
  - apply Forall_replicate. reflexivity.
Qed.

Lemma compat_refl (s : list nat) : compat s s.
Proof. apply Forall2_same_length_lookup_2; [reflexivity|]. intros; left; congruence. Qed.

Lemma compat_ones (s : list nat) : compat (replicate (length s) 1) s.
Proof.
  induction s as [|n s IH]; [constructor|]. cbn. constructor; [right; reflexivity|].
  exact IH.
Qed.

Lemma broadcast_rev_compat (a b r : list nat) :
  broadcast_rev a b = Some r →
  compat (a ++ replicate (length r - length a) 1) r ∧
  compat (b ++ replicate (length r - length b) 1) r.
Proof.
  revert b r. induction a as [|x a IH]; intros b r Hr.
  - cbn in Hr. injection Hr as <-. cbn [length app]. rewrite Nat.sub_0_r, Nat.sub_diag.
    cbn [replicate]. rewrite app_nil_r. split; [apply compat_ones | apply compat_refl].
  - destruct b as [|y b].
    + cbn in Hr. injection Hr as <-. cbn [length app]. rewrite Nat.sub_0_r, Nat.sub_diag.
      cbn [replicate]. rewrite app_nil_r.
      split; [apply compat_refl | apply (compat_ones (x :: a))].
    + rewrite broadcast_rev_cons in Hr.
      destruct (broadcast_rev a b) as [r'|] eqn:Hab.
      2:{ destruct (x =? y); [discriminate|].
          destruct ((x =? 1) || (y =? 1)); discriminate. }
      destruct (IH b r' Hab) as [Ha Hb].
      destruct (Nat.eqb_spec x y) as [->|Hxy].
      * injection Hr as <-. cbn [length app]. split; constructor; auto.
      * destruct (Nat.eqb_spec x 1) as [->|Hx1]; cbn [orb] in Hr.
        { rewrite Nat.mul_1_l in Hr. injection Hr as <-. cbn [length app].
          split; constructor; auto. }
        destruct (Nat.eqb_spec y 1) as [->|Hy1]; [|discriminate].
        rewrite Nat.mul_1_r in Hr. injection Hr as <-. cbn [length app].
        split; constructor; auto.
Qed.

Lemma compat_reverse (a b : list nat) :
  compat a b → compat (reverse a) (reverse b).
Proof.
  induction 1 as [|x y a b Hxy _ IH]; [constructor|].
  rewrite !reverse_cons. apply Forall2_app; [exact IH|].
  constructor; [exact Hxy | constructor].
Qed.

Lemma broadcast_shapes_compat (a b s : list nat) :
  broadcast_shapes a b = Some s →
  compat (replicate (length s - length a) 1 ++ a) s ∧
  compat (replicate (length s - length b) 1 ++ b) s.
Proof.
  unfold broadcast_shapes. intros Hs.
  destruct (broadcast_rev (reverse a) (reverse b)) as [r|] eqn:Hr;
    [|discriminate].
  injection Hs as <-.
  destruct (broadcast_rev_compat _ _ _ Hr) as [Ha Hb].
  apply compat_reverse in Ha, Hb.
  rewrite reverse_app, reverse_replicate, reverse_involutive in Ha, Hb.
  rewrite length_reverse in *. split; assumption.
Qed.

Section WellFormed.
Context {A : Type} `{Scalar A}.
Implicit Types (a b c : array A) (d : list A).

Lemma length_bcast_data src tgt d :
  compat src tgt → length d = size_of src →
  length (bcast_data src tgt d) = size_of tgt.
Proof.
  intros Hc. revert d. induction Hc as [|m n src tgt Hmn _ IH]; intros d Hd.
  - exact Hd.
  - cbn [bcast_data]. rewrite size_of_cons in *.
    destruct (Nat.eqb_spec m n) as [->|Hne].
    + rewrite (length_concat_uniform (size_of tgt)).
      * rewrite length_fmap, length_chunks. reflexivity.
      * apply Forall_fmap.
        eapply Forall_impl; [apply Forall_chunks_length, Hd|].
        intros c Hc'. cbn. apply IH, Hc'.
    + destruct Hmn as [->| ->]; [congruence|].
      rewrite length_concat_replicate, IH by lia. reflexivity.
Qed.

Lemma length_broadcast_to s a :
  compat (replicate (length s - ndim a) 1 ++ shape a) s → wf a →
  length (broadcast_to s a) = size_of s.
Proof.
  intros Hc Hwf. unfold broadcast_to. apply length_bcast_data; [exact Hc|].
  rewrite size_of_app, size_of_replicate_1, Nat.mul_1_l. exact Hwf.
Qed.

(** The result of an element-wise operation has the broadcast shape and
    holds as many elements. *)
Lemma binop_wf (f : A → A → A) a b c :
  wf a → wf b → binop f a b = Ok c →
  wf c ∧ broadcast_shapes (shape a) (shape b) = Some (shape c).
Proof.
  intros Ha Hb. unfold binop.
  destruct (broadcast_shapes (shape a) (shape b)) as [s|] eqn:Hs;
    [|discriminate].
  intros [= <-]. split; [|reflexivity].
  destruct (broadcast_shapes_compat _ _ _ Hs) as [Hca Hcb].
  unfold wf. cbn [shape data].
  rewrite length_zip_with, !length_broadcast_to by assumption. lia.
Qed.

Lemma length_reduce_data (f : list A → A) k s d :
  k < length s → length d = size_of s →
  length (reduce_data f k s d) = size_of (<[k := 1]> s).
Proof.
  revert k d. induction s as [|n s IH]; intros k d Hk Hd; [cbn in Hk; lia|].
  rewrite size_of_cons in Hd.
  destruct k as [|k]; cbn [reduce_data].
  - rewrite length_fmap, length_seq.
    change (<[0 := 1]> (n :: s)) with (1 :: s). rewrite size_of_cons. lia.
  - cbn in Hk.
    change (<[S k := 1]> (n :: s)) with (n :: <[k := 1]> s).
    rewrite size_of_cons.
    rewrite (length_concat_uniform (size_of (<[k := 1]> s))).
    + rewrite length_fmap, length_chunks. reflexivity.
    + apply Forall_fmap.
      eapply Forall_impl; [apply Forall_chunks_length, Hd|].
      intros c Hc. cbn. apply IH; [lia | exact Hc].
Qed.

End WellFormed.

(** ** BatchNorm1d, step by step *)

Section BatchNormSteps.
Context {A : Type} `{Scalar A}.
Implicit Types (self : BatchNorm1d.t A) (x : array A).

Lemma batchnorm1d_call_wrong_rank self x :
  ndim x ≠ 2 → BatchNorm1d.__call__ x self = (self, Raise ValueError).
Proof.
  intros Hr. unfold BatchNorm1d.__call__.
  destruct (Nat.eqb_spec (ndim x) 2) as [Heq|_]; [contradiction|].
  reflexivity.
Qed.

Lemma batchnorm1d_call_eval self x :
  ndim x = 2 → BatchNorm1d.training self = false →
  BatchNorm1d.__call__ x self =
  (self,
   xn ← normalized x (BatchNorm1d.running_mean self)
          (BatchNorm1d.running_var self) (BatchNorm1d.eps self);
   affine (BatchNorm1d.weight self) (BatchNorm1d.bias self) xn).
Proof.
  intros Hr Ht. unfold BatchNorm1d.__call__. rewrite Hr. cbn [Nat.eqb negb].
  unfold normalized, BatchNorm1d.get, BatchNorm1d.lift, BatchNorm1d.pure.
  unfold mbind, BatchNorm1d.method_bind, result_bind.
  rewrite Ht.
  destruct (sub x (BatchNorm1d.running_mean self)) as [xm|e]; [|reflexivity].
  destruct (mul xm _) as [xn|e]; reflexivity.
Qed.

Lemma batchnorm1d_call_training self x means v :
  ndim x = 2 → BatchNorm1d.training self = true →
  mean x 0 = Ok means → var x 0 = Ok v →
  BatchNorm1d.__call__ x self =
  match ema (BatchNorm1d.momentum self) (BatchNorm1d.running_mean self) means
  with
  | Raise e => (self, Raise e)
  | Ok new_mean =>
      match ema (BatchNorm1d.momentum self) (BatchNorm1d.running_var self) v
      with
      | Raise e => (BatchNorm1d.with_running_mean new_mean self, Raise e)
      | Ok new_var =>
          (BatchNorm1d.with_running_var new_var
             (BatchNorm1d.with_running_mean new_mean self),
           xn ← normalized x means v (BatchNorm1d.eps self);
           affine (BatchNorm1d.weight self) (BatchNorm1d.bias self) xn)
      end
  end.
Proof.
  intros Hr Ht Hm Hv. unfold BatchNorm1d.__call__. rewrite Hr.
  cbn [Nat.eqb negb].
  unfold BatchNorm1d._calc_stats, ema, normalized,
    BatchNorm1d.get, BatchNorm1d.lift, BatchNorm1d.pure,
    BatchNorm1d.set_running_mean, BatchNorm1d.set_running_var.
  unfold mbind, BatchNorm1d.method_bind, result_bind.
  rewrite Ht, Hm, Hv.
  destruct (add _ _) as [nm|e]; [|reflexivity].
  cbn [BatchNorm1d.running_var BatchNorm1d.with_running_mean
       BatchNorm1d.momentum].
  destruct (add _ _) as [nv|e]; [|reflexivity].
  cbn [BatchNorm1d.eps BatchNorm1d.weight BatchNorm1d.bias
       BatchNorm1d.with_running_mean BatchNorm1d.with_running_var].
  destruct (sub x means) as [xm|e]; [|reflexivity].
  destruct (mul xm _) as [xn|e]; reflexivity.
Qed.

End BatchNormSteps.

(** ** A batch of rows against per-feature vectors *)

Lemma nth_zip_with {A B C} (f : A → B → C) (l : list A) (k : list B)
    (i : nat) (d1 : A) (d2 : B) (d3 : C) :
  i < length l → i < length k →
  nth i (zip_with f l k) d3 = f (nth i l d1) (nth i k d2).
Proof.
  revert k i. induction l as [|u l IH]; intros [|v k] [|i] Hl Hk;
    cbn in *; try lia; [reflexivity|].
  apply IH; lia.
Qed.

Lemma nth_fmap {A B} (g : A → B) (l : list A) (i : nat) (d1 : A) (d2 : B) :
  i < length l → nth i (g <$> l) d2 = g (nth i l d1).
Proof.
  revert i. induction l as [|u l IH]; intros [|i] Hl; cbn in *; try lia;
    [reflexivity|].
  apply IH. lia.
Qed.

Lemma nth_concat_replicate {A} (v : list A) (B b j : nat) (d0 : A) :
  b < B → j < length v →
  nth (b * length v + j) (concat (replicate B v)) d0 = nth j v d0.
Proof.
  revert b. induction B as [|B IH]; intros b Hb Hj; [lia|].
  cbn [replicate concat]. destruct b as [|b].
  - cbn [Nat.mul Nat.add]. apply app_nth1. exact Hj.
  - rewrite app_nth2 by (cbn; lia).
    replace (S b * length v + j - length v) with (b * length v + j) by (cbn; lia).
    apply IH; [lia | exact Hj].
Qed.

Section BatchRows.
Context {A : Type} `{Scalar A}.
Implicit Types (x v u : array A) (B F : nat).

Lemma length_vector_like F v : vector_like F v → length (data v) = F.
Proof.
  unfold vector_like, wf. intros [Hwf [Hs|Hs]]; rewrite Hwf, Hs; cbn; lia.
Qed.

Lemma broadcast_shapes_rows_vector B F s :
  s = [F] ∨ s = [1; F] → broadcast_shapes [B; F] s = Some [B; F].
Proof.
  unfold broadcast_shapes.
  intros [-> | ->]; cbn [reverse rev_append];
    rewrite broadcast_rev_cons, Nat.eqb_refl.
  - reflexivity.
  - rewrite (broadcast_rev_one_r B []). reflexivity.
Qed.

Lemma broadcast_shapes_vector_rows B F s :
  s = [F] ∨ s = [1; F] → broadcast_shapes s [B; F] = Some [B; F].
Proof.
  unfold broadcast_shapes.
  intros [-> | ->]; cbn [reverse rev_append];
    rewrite broadcast_rev_cons, Nat.eqb_refl.
  - reflexivity.
  - rewrite (broadcast_rev_one_l B []). reflexivity.
Qed.

Lemma broadcast_shapes_vectors F s :
  s = [F] ∨ s = [1; F] → broadcast_shapes s [1; F] = Some [1; F].
Proof.
  unfold broadcast_shapes.
  intros [-> | ->]; cbn [reverse rev_append];
    rewrite broadcast_rev_cons, Nat.eqb_refl; reflexivity.
Qed.

Lemma broadcast_to_vector B F v :
  vector_like F v → broadcast_to [B; F] v = concat (replicate B (data v)).
Proof.
  intros Hv. pose proof (length_vector_like F v Hv) as Hl.
  destruct Hv as [_ [Hs|Hs]]; unfold broadcast_to, ndim; rewrite Hs;
    cbn [length Nat.sub replicate app];
    apply bcast_data_leading; rewrite size_of_singleton; exact Hl.
Qed.

Lemma broadcast_to_vector_flat F v :
  vector_like F v → broadcast_to [1; F] v = data v.
Proof.
  intros Hv. pose proof (length_vector_like F v Hv) as Hl.
  destruct Hv as [_ [Hs|Hs]]; unfold broadcast_to, ndim; rewrite Hs;
    cbn [length Nat.sub replicate app];
    apply bcast_data_id; cbn; lia.
Qed.

Lemma binop_rows_vector (f : A → A → A) x v B F :
  shape x = [B; F] → wf x → vector_like F v →
  binop f x v =
  Ok (Array [B; F] (zip_with f (data x) (concat (replicate B (data v))))).
Proof.
  intros Hs Hwf Hv. unfold binop. rewrite Hs.
  rewrite (broadcast_shapes_rows_vector B F (shape v)) by apply Hv.
  rewrite (broadcast_to_same _ x Hs Hwf), (broadcast_to_vector B F v Hv).
  reflexivity.
Qed.

Lemma binop_vector_rows (f : A → A → A) x v B F :
  shape x = [B; F] → wf x → vector_like F v →
  binop f v x =
  Ok (Array [B; F] (zip_with f (concat (replicate B (data v))) (data x))).
Proof.
  intros Hs Hwf Hv. unfold binop. rewrite Hs.
  rewrite (broadcast_shapes_vector_rows B F (shape v)) by apply Hv.
  rewrite (broadcast_to_same _ x Hs Hwf), (broadcast_to_vector B F v Hv).
  reflexivity.
Qed.

Lemma binop_vectors (f : A → A → A) u v F :
  vector_like F u → shape v = [1; F] → wf v →
  binop f u v = Ok (Array [1; F] (zip_with f (data u) (data v))).
Proof.
  intros Hu Hs Hwf. unfold binop. rewrite Hs.
  rewrite (broadcast_shapes_vectors F (shape u)) by apply Hu.
  rewrite (broadcast_to_same _ v Hs Hwf), (broadcast_to_vector_flat F u Hu).
  reflexivity.
Qed.

Lemma length_rows x B F : shape x = [B; F] → wf x → length (data x) = B * F.
Proof. unfold wf. intros -> ->. cbn. lia. Qed.

Lemma item_rows_vector (f : A → A → A) (dx dv : list A) B F b j :
  length dx = B * F → length dv = F → b < B → j < F →
  nth (b * F + j) (zip_with f dx (concat (replicate B dv))) s0 =
  f (nth (b * F + j) dx s0) (nth j dv s0).
Proof.
  intros Hx Hv Hb Hj.
  rewrite (nth_zip_with f _ _ _ s0 s0).
  - subst F. rewrite nth_concat_replicate by assumption. reflexivity.
  - nia.
  - rewrite length_concat_replicate. nia.
Qed.

Lemma item_vector_rows (f : A → A → A) (dx dv : list A) B F b j :
  length dx = B * F → length dv = F → b < B → j < F →
  nth (b * F + j) (zip_with f (concat (replicate B dv)) dx) s0 =
  f (nth j dv s0) (nth (b * F + j) dx s0).
Proof.
  intros Hx Hv Hb Hj.
  rewrite (nth_zip_with f _ _ _ s0 s0).
  - subst F. rewrite nth_concat_replicate by assumption. reflexivity.
  - rewrite length_concat_replicate. nia.
  - nia.
Qed.

End BatchRows.

Section BatchNormRows.
Context {A : Type} `{Scalar A}.
Implicit Types (x mu va : array A) (B F : nat).

Lemma vector_like_map_array (h : A → A) F v :
  vector_like F v → vector_like F (map_array h v).
Proof.
  intros [Hwf Hs]. split; [apply wf_map_array, Hwf | exact Hs].
Qed.

Lemma wf_zip_rows (f : A → A → A) (dx dv : list A) B F :
  length dx = B * F → length dv = F →
  wf (Array [B; F] (zip_with f dx (concat (replicate B dv)))).
Proof.
  intros Hx Hv. unfold wf. cbn [shape data].
  rewrite length_zip_with, length_concat_replicate, Hx, Hv. cbn. lia.
Qed.

(** Each element of a batch is normalized with the mean and variance of
    its feature. *)
Lemma normalized_rows x mu va (eps : A) B F :
  shape x = [B; F] → wf x → vector_like F mu → vector_like F va →
  ∃ out,
    normalized x mu va eps = Ok out ∧ shape out = [B; F] ∧ wf out ∧
    ∀ b j, b < B → j < F →
      item out (b * F + j) =
      smul (ssub (item x (b * F + j)) (item mu j))
           (srsqrt (sadd (item va j) eps)).
Proof.
  intros Hs Hwf Hmu Hva.
  pose proof (length_rows x B F Hs Hwf) as Hx.
  pose proof (length_vector_like F mu Hmu) as Hlm.
  pose proof (length_vector_like F va Hva) as Hlv.
  unfold normalized, sub, mul.
  rewrite (binop_rows_vector ssub x mu B F Hs Hwf Hmu).
  cbn [mbind result_bind].
  set (xm := Array [B; F] _).
  assert (Hxm : wf xm) by (apply wf_zip_rows; assumption).
  assert (Hr : vector_like F (rsqrt (add_scalar va eps)))
    by (do 2 apply vector_like_map_array; exact Hva).
  rewrite (binop_rows_vector smul xm _ B F eq_refl Hxm Hr).
  eexists. split; [reflexivity|]. split; [reflexivity|]. split.
  - apply wf_zip_rows.
    + unfold xm. cbn [data].
      rewrite length_zip_with, length_concat_replicate. nia.
    + apply (length_vector_like F _ Hr).
  - intros b j Hb Hj. unfold item. cbn [data].
    rewrite (item_rows_vector smul _ _ B F b j); try assumption.
    + unfold xm. cbn [data].
      rewrite (item_rows_vector ssub _ _ B F b j) by assumption.
      f_equal. unfold rsqrt, add_scalar, map_array. cbn [data].
      rewrite <- list_fmap_compose.
      rewrite (nth_fmap _ _ _ s0) by lia. reflexivity.
    + unfold xm. cbn [data].
      rewrite length_zip_with, length_concat_replicate. nia.
    + apply (length_vector_like F _ Hr).
Qed.

Lemma affine_rows (w bi : option (array A)) xn B F :
  shape xn = [B; F] → wf xn → affine_ok F w bi →
  ∃ out,
    affine w bi xn = Ok out ∧ shape out = [B; F] ∧
    ∀ b j, b < B → j < F →
      item out (b * F + j) = affine_item w bi j (item xn (b * F + j)).
Proof.
  intros Hs Hwf Hok.
  pose proof (length_rows xn B F Hs Hwf) as Hx.
  unfold affine, affine_ok, affine_item in *.
  destruct w as [w|]; [|exists xn; auto].
  destruct bi as [bi|]; [|contradiction]. destruct Hok as [Hw Hb].
  pose proof (length_vector_like F w Hw) as Hlw.
  pose proof (length_vector_like F bi Hb) as Hlb.
  unfold mul, add. rewrite (binop_vector_rows smul xn w B F Hs Hwf Hw).
  cbn [mbind result_bind].
  set (wx := Array [B; F] _).
  assert (Hlwx : length (data wx) = B * F).
  { unfold wx. cbn [data].
    rewrite length_zip_with, length_concat_replicate. nia. }
  assert (Hwx : wf wx) by (unfold wf; rewrite Hlwx; cbn; lia).
  rewrite (binop_rows_vector sadd wx bi B F eq_refl Hwx Hb).
  eexists. split; [reflexivity|]. split; [reflexivity|].
  intros b j Hbb Hj. unfold item. cbn [data].
  rewrite (item_rows_vector sadd _ _ B F b j) by assumption.
  unfold wx. cbn [data].
  rewrite (item_vector_rows smul _ _ B F b j) by assumption.
  reflexivity.
Qed.

End BatchNormRows.

Section BatchNormForward.
Context {A : Type} `{Scalar A}.
Implicit Types (self : BatchNorm1d.t A) (x mu va : array A) (B F : nat).

Lemma vector_like_batch_stat (f : list A → A) x B F :
  vector_like F (batch_stat f x B F).
Proof.
  split; [|right; reflexivity]. unfold wf, batch_stat. cbn [shape data].
  rewrite length_fmap, length_seq. cbn. lia.
Qed.

Lemma item_batch_stat (f : list A → A) x B F j :
  j < F → item (batch_stat f x B F) j = f (column F B (data x) j).
Proof.
  intros Hj. unfold item, batch_stat. cbn [data].
  rewrite (nth_fmap _ _ _ 0) by (rewrite length_seq; exact Hj).
  rewrite seq_nth by exact Hj. reflexivity.
Qed.

Lemma vector_like_flat F (v : array A) :
  shape v = [1; F] → wf v → vector_like F v.
Proof. intros Hs Hwf. split; [exact Hwf | right; exact Hs]. Qed.

(** The moving average of two per-feature vectors, feature by feature. *)
Lemma ema_vectors (m : A) old fresh F :
  vector_like F old → shape fresh = [1; F] → wf fresh →
  ∃ new,
    ema m old fresh = Ok new ∧ shape new = [1; F] ∧ wf new ∧
    ∀ j, j < F →
      item new j =
      sadd (smul m (item old j)) (smul (ssub s1 m) (item fresh j)).
Proof.
  intros Hold Hs Hwf. unfold ema, add, scalar_mul.
  pose proof (length_vector_like F old Hold) as Hlo.
  pose proof (length_vector_like F fresh (vector_like_flat F fresh Hs Hwf))
    as Hlf.
  rewrite (binop_vectors sadd _ _ F);
    [|apply vector_like_map_array, Hold | exact Hs
     |apply wf_map_array, Hwf].
  eexists. split; [reflexivity|]. split; [reflexivity|]. split.
  - unfold wf, map_array. cbn [shape data].
    rewrite length_zip_with, !length_fmap, Hlo, Hlf. cbn. lia.
  - intros j Hj. unfold item, map_array. cbn [data].
    rewrite (nth_zip_with sadd _ _ _ s0 s0) by (rewrite length_fmap; lia).
    rewrite !(nth_fmap _ _ _ s0) by lia. reflexivity.
Qed.

(** Normalization followed by the affine transform, element by element. *)
Lemma forward_rows x mu va (eps : A) (w bi : option (array A)) B F :
  shape x = [B; F] → wf x → vector_like F mu → vector_like F va →
  affine_ok F w bi →
  ∃ out,
    (xn ← normalized x mu va eps; affine w bi xn) = Ok out ∧
    shape out = [B; F] ∧
    ∀ b j, b < B → j < F →
      item out (b * F + j) =
      affine_item w bi j
        (smul (ssub (item x (b * F + j)) (item mu j))
              (srsqrt (sadd (item va j) eps))).
Proof.
  intros Hs Hwf Hmu Hva Hok.
  destruct (normalized_rows x mu va eps B F Hs Hwf Hmu Hva)
    as (xn & -> & Hxs & Hxwf & Hxi).
  cbn [mbind result_bind].
  destruct (affine_rows w bi xn B F Hxs Hxwf Hok) as (out & -> & Hos & Hoi).
  exists out. split; [reflexivity|]. split; [exact Hos|].
  intros b j Hb Hj. rewrite Hoi, Hxi by assumption. reflexivity.
Qed.

Lemma ndim_2_shape x : ndim x = 2 → ∃ B F, shape x = [B; F].
Proof.
  unfold ndim. destruct (shape x) as [|B [|F [|? ?]]]; try discriminate.
  intros _. exists B, F. reflexivity.
Qed.

Lemma batch_mean x B F : shape x = [B; F] → mean x 0 = Ok (batch_stat mean_list x B F).
Proof. apply reduce_columns. Qed.

Lemma batch_var x B F : shape x = [B; F] → var x 0 = Ok (batch_stat var_list x B F).
Proof. apply reduce_columns. Qed.

(** A call in training mode on a batch of rows of [F] features: the
    module afterwards. *)
Lemma batchnorm1d_training_state self x B F :
  BatchNorm1d.training self = true → shape x = [B; F] →
  vector_like F (BatchNorm1d.running_mean self) →
  vector_like F (BatchNorm1d.running_var self) →
  ∃ new_mean new_var,
    ema (BatchNorm1d.momentum self) (BatchNorm1d.running_mean self)
        (batch_stat mean_list x B F) = Ok new_mean ∧
    ema (BatchNorm1d.momentum self) (BatchNorm1d.running_var self)
        (batch_stat var_list x B F) = Ok new_var ∧
    fst (BatchNorm1d.__call__ x self) =
      BatchNorm1d.with_running_var new_var
        (BatchNorm1d.with_running_mean new_mean self) ∧
    snd (BatchNorm1d.__call__ x self) =
      (xn ← normalized x (batch_stat mean_list x B F)
             (batch_stat var_list x B F) (BatchNorm1d.eps self);
       affine (BatchNorm1d.weight self) (BatchNorm1d.bias self) xn).
Proof.
  intros Ht Hs Hm Hv.
  assert (Hr : ndim x = 2) by (unfold ndim; rewrite Hs; reflexivity).
  rewrite (batchnorm1d_call_training self x _ _ Hr Ht
             (batch_mean x B F Hs) (batch_var x B F Hs)).
  destruct (ema_vectors (BatchNorm1d.momentum self) _
              (batch_stat mean_list x B F) F Hm eq_refl)
    as (nm & -> & _); [apply vector_like_batch_stat|].
  destruct (ema_vectors (BatchNorm1d.momentum self) _
              (batch_stat var_list x B F) F Hv eq_refl)
    as (nv & -> & _); [apply vector_like_batch_stat|].
  exists nm, nv. repeat split; reflexivity.
Qed.

End BatchNormForward.

Section BatchNormTraining.
Context {A : Type} `{Scalar A}.
Implicit Types (self : BatchNorm1d.t A) (x : array A) (B F : nat).

(** The running statistics after a call in training mode, feature by
    feature. *)
Lemma batchnorm1d_training_rows self x B F :
  BatchNorm1d.training self = true → shape x = [B; F] →
  vector_like F (BatchNorm1d.running_mean self) →
  vector_like F (BatchNorm1d.running_var self) →
  let self' := fst (BatchNorm1d.__call__ x self) in
  let m := BatchNorm1d.momentum self in
  (shape (BatchNorm1d.running_mean self') = [1; F] ∧
   wf (BatchNorm1d.running_mean self') ∧
   shape (BatchNorm1d.running_var self') = [1; F] ∧
   wf (BatchNorm1d.running_var self')) ∧
  (BatchNorm1d.weight self' = BatchNorm1d.weight self ∧
   BatchNorm1d.bias self' = BatchNorm1d.bias self ∧
   BatchNorm1d.num_features self' = BatchNorm1d.num_features self ∧
   BatchNorm1d.eps self' = BatchNorm1d.eps self ∧
   BatchNorm1d.momentum self' = BatchNorm1d.momentum self ∧
   BatchNorm1d.training self' = BatchNorm1d.training self) ∧
  ∀ j, j < F →
    item (BatchNorm1d.running_mean self') j =
      sadd (smul m (item (BatchNorm1d.running_mean self) j))
           (smul (ssub s1 m) (mean_list (column F B (data x) j))) ∧
    item (BatchNorm1d.running_var self') j =
      sadd (smul m (item (BatchNorm1d.running_var self) j))
           (smul (ssub s1 m) (var_list (column F B (data x) j))).
Proof.
  intros Ht Hs Hm Hv self' m.
  assert (Hr : ndim x = 2) by (unfold ndim; rewrite Hs; reflexivity).
  unfold self'.
  rewrite (batchnorm1d_call_training self x _ _ Hr Ht
             (batch_mean x B F Hs) (batch_var x B F Hs)).
  destruct (ema_vectors m _ (batch_stat mean_list x B F) F Hm eq_refl)
    as (nm & Hnm & Hnms & Hnmw & Hnmi); [apply vector_like_batch_stat|].
  destruct (ema_vectors m _ (batch_stat var_list x B F) F Hv eq_refl)
    as (nv & Hnv & Hnvs & Hnvw & Hnvi); [apply vector_like_batch_stat|].
  fold m. rewrite Hnm, Hnv. cbn [fst].
  split; [auto|]. split; [repeat split|].
  intros j Hj. cbn [BatchNorm1d.running_mean BatchNorm1d.running_var
                    BatchNorm1d.with_running_var BatchNorm1d.with_running_mean].
  rewrite (Hnmi j Hj), (Hnvi j Hj), !item_batch_stat by exact Hj.
  split; reflexivity.
Qed.

End BatchNormTraining.

(** ** BatchNorm1d: what a call returns and assigns *)

(** C2: for every 2-D input, a call in evaluation mode leaves the module,
    and so [running_mean] and [running_var], as it was, and what it
    returns is [(x - running_mean) * rsqrt(running_var + eps)] followed by
    the affine transform; on a batch whose rows have one element for each
    value of the stored vectors the call returns, and each element is
    normalized with the stored mean and variance of its feature. *)
Theorem batchnorm1d_eval_uses_running_statistics
    {A : Type} `{Scalar A} (self : BatchNorm1d.t A) (x : array A) :
  ndim x = 2 → BatchNorm1d.training self = false →
  fst (BatchNorm1d.__call__ x self) = self ∧
  snd (BatchNorm1d.__call__ x self) =
    (xn ← normalized x (BatchNorm1d.running_mean self)
           (BatchNorm1d.running_var self) (BatchNorm1d.eps self);
     affine (BatchNorm1d.weight self) (BatchNorm1d.bias self) xn) ∧
  ∀ B F, shape x = [B; F] → wf x → bn_fits F self →
    ∃ out,
      snd (BatchNorm1d.__call__ x self) = Ok out ∧ shape out = [B; F] ∧
      ∀ b j, b < B → j < F →
        item out (b * F + j) =
        affine_item (BatchNorm1d.weight self) (BatchNorm1d.bias self) j
          (smul (ssub (item x (b * F + j))
                      (item (BatchNorm1d.running_mean self) j))
                (srsqrt (sadd (item (BatchNorm1d.running_var self) j)
                              (BatchNorm1d.eps self)))).
Proof.
  intros Hr Ht. rewrite (batchnorm1d_call_eval self x Hr Ht). cbn [fst snd].
  split; [reflexivity|]. split; [reflexivity|].
  intros B F Hs Hwf (Hm & Hv & Hok).
  apply forward_rows; assumption.
Qed.

(** C3 (amended): on a 2-D input, a call in training mode assigns to
    [running_mean] and [running_var] the moving averages
    [momentum * old + (1 - momentum) * batch statistic] whenever these
    arrays exist; on a batch of rows of [F] features and stored vectors of
    [F] values they exist, and each new running statistic is, feature by
    feature, the old one weighted by [momentum] plus the mean (variance) of
    the feature over the batch weighted by [1 - momentum].  On a 2-D input
    against which the running mean does not broadcast there is no update:
    the call raises and the module is as before. *)
Theorem batchnorm1d_training_moving_average
    {A : Type} `{Scalar A} (self : BatchNorm1d.t A) (x : array A) :
  ndim x = 2 → BatchNorm1d.training self = true →
  (∀ means v new_mean new_var,
     mean x 0 = Ok means → var x 0 = Ok v →
     ema (BatchNorm1d.momentum self) (BatchNorm1d.running_mean self) means
       = Ok new_mean →
     ema (BatchNorm1d.momentum self) (BatchNorm1d.running_var self) v
       = Ok new_var →
     fst (BatchNorm1d.__call__ x self) =
     BatchNorm1d.with_running_var new_var
       (BatchNorm1d.with_running_mean new_mean self)) ∧
  (∀ B F, shape x = [B; F] →
    vector_like F (BatchNorm1d.running_mean self) →
    vector_like F (BatchNorm1d.running_var self) →
    let self' := fst (BatchNorm1d.__call__ x self) in
    let m := BatchNorm1d.momentum self in
    ∀ j, j < F →
      item (BatchNorm1d.running_mean self') j =
        sadd (smul m (item (BatchNorm1d.running_mean self) j))
             (smul (ssub s1 m) (mean_list (column F B (data x) j))) ∧
      item (BatchNorm1d.running_var self') j =
        sadd (smul m (item (BatchNorm1d.running_var self) j))
             (smul (ssub s1 m) (var_list (column F B (data x) j)))) ∧
  (∀ B F, shape x = [B; F] →
    broadcast_shapes (shape (BatchNorm1d.running_mean self)) [1; F] = None →
    BatchNorm1d.__call__ x self = (self, Raise ValueError)).
Proof.
  intros Hr Ht. split; [|split].
  - intros means v nm nv Hm Hv Hnm Hnv.
    rewrite (batchnorm1d_call_training self x means v Hr Ht Hm Hv), Hnm, Hnv.
    reflexivity.
  - intros B F Hs Hm Hv.
    apply (batchnorm1d_training_rows self x B F Ht Hs Hm Hv).
  - intros B F Hs Hb.
    rewrite (batchnorm1d_call_training self x _ _ Hr Ht
               (batch_mean x B F Hs) (batch_var x B F Hs)).
    unfold ema at 1, add, binop.
    cbn [scalar_mul map_array shape batch_stat]. rewrite Hb. reflexivity.
Qed.

(** C9: for every 2-D input, what a call in training mode returns is
    normalized with the mean and variance of the input along the batch
    axis; on a batch of rows of [F] features the call returns, and each
    element is normalized with the mean and variance of its feature over
    the batch: the running statistics, old or new, do not occur, and the
    same module with other running statistics returns the same output. *)
Theorem batchnorm1d_training_uses_batch_statistics
    {A : Type} `{Scalar A} (self : BatchNorm1d.t A) (x : array A) :
  ndim x = 2 → BatchNorm1d.training self = true →
  (∀ out, snd (BatchNorm1d.__call__ x self) = Ok out →
     ∃ means v,
       mean x 0 = Ok means ∧ var x 0 = Ok v ∧
       (xn ← normalized x means v (BatchNorm1d.eps self);
        affine (BatchNorm1d.weight self) (BatchNorm1d.bias self) xn)
       = Ok out) ∧
  ∀ B F, shape x = [B; F] → wf x → bn_fits F self →
    ∃ out,
      snd (BatchNorm1d.__call__ x self) = Ok out ∧ shape out = [B; F] ∧
      (∀ b j, b < B → j < F →
         item out (b * F + j) =
         affine_item (BatchNorm1d.weight self) (BatchNorm1d.bias self) j
           (smul (ssub (item x (b * F + j))
                       (mean_list (column F B (data x) j)))
                 (srsqrt (sadd (var_list (column F B (data x) j))
                               (BatchNorm1d.eps self))))) ∧
      ∀ mean' var',
        vector_like F mean' → vector_like F var' →
        snd (BatchNorm1d.__call__ x
               (BatchNorm1d.with_running_var var'
                  (BatchNorm1d.with_running_mean mean' self)))
        = Ok out.
Proof.
  intros Hr Ht. split.
  - intros out Hout. destruct (ndim_2_shape x Hr) as (B & F & Hs).
    exists (batch_stat mean_list x B F), (batch_stat var_list x B F).
    split; [apply batch_mean, Hs|]. split; [apply batch_var, Hs|].
    rewrite (batchnorm1d_call_training self x _ _ Hr Ht
               (batch_mean x B F Hs) (batch_var x B F Hs)) in Hout.
    destruct (ema _ _ _) as [nm|e]; [|discriminate].
    destruct (ema _ _ _) as [nv|e]; [|discriminate].
    exact Hout.
  - intros B F Hs Hwf (Hm & Hv & Hok).
    destruct (batchnorm1d_training_state self x B F Ht Hs Hm Hv)
      as (nm & nv & _ & _ & _ & ->).
    destruct (forward_rows x (batch_stat mean_list x B F)
                (batch_stat var_list x B F) (BatchNorm1d.eps self)
                (BatchNorm1d.weight self) (BatchNorm1d.bias self) B F
                Hs Hwf (vector_like_batch_stat _ _ _ _)
                (vector_like_batch_stat _ _ _ _) Hok)
      as (out & Hout & Hos & Hoi).
    exists out. split; [exact Hout|]. split; [exact Hos|]. split.
    + intros b j Hb Hj. rewrite (Hoi b j Hb Hj), !item_batch_stat by exact Hj.
      reflexivity.
    + intros mean' var' Hm' Hv'.
      destruct (batchnorm1d_training_state
                  (BatchNorm1d.with_running_var var'
                     (BatchNorm1d.with_running_mean mean' self))
                  x B F Ht Hs Hm' Hv')
        as (nm' & nv' & _ & _ & _ & ->).
      exact Hout.
Qed.

(** C10: on an input whose rank is not two the call raises [ValueError]
    and the module is exactly as before, in training and in evaluation
    mode alike. *)
Theorem batchnorm1d_wrong_rank_changes_nothing
    {A : Type} `{Scalar A} (self : BatchNorm1d.t A) (x : array A) :
  ndim x ≠ 2 →
  fst (BatchNorm1d.__call__ x self) = self ∧
  snd (BatchNorm1d.__call__ x self) = Raise ValueError.
Proof.
  intros Hr. rewrite (batchnorm1d_call_wrong_rank self x Hr).
  split; reflexivity.
Qed.

Lemma bn_fits_example (training : bool) :
  bn_fits 3 (BatchNorm1d.set_training training example_module).
Proof.
  repeat split; try reflexivity; left; reflexivity.
Defined.

(** C2, witness: the example module in evaluation mode. *)
Lemma batchnorm1d_eval_uses_running_statistics_witness :
  let self := BatchNorm1d.set_training false example_module in
  ndim example_batch = 2 ∧ BatchNorm1d.training self = false ∧
  fst (BatchNorm1d.__call__ example_batch self) = self ∧
  ∃ out, snd (BatchNorm1d.__call__ example_batch self) = Ok out ∧
         shape out = [2; 3].
Proof.
  intros self. split; [reflexivity|]. split; [reflexivity|].
  destruct (batchnorm1d_eval_uses_running_statistics self example_batch
              eq_refl eq_refl) as (Hfst & _ & Hrows).
  split; [exact Hfst|].
  destruct (Hrows 2 3 eq_refl eq_refl (bn_fits_example false))
    as (out & Hout & Hs & _).
  exists out. split; assumption.
Defined.

(** C3, witness: the example module, in training mode as constructed. *)
Lemma batchnorm1d_training_moving_average_witness :
  let self := example_module in
  let self' := fst (BatchNorm1d.__call__ example_batch self) in
  ndim example_batch = 2 ∧ BatchNorm1d.training self = true ∧
  item (BatchNorm1d.running_mean self') 0 =
    sadd (smul default_momentum (item (BatchNorm1d.running_mean self) 0))
         (smul (ssub s1 default_momentum)
               (mean_list (column 3 2 (data example_batch) 0))).
Proof.
  intros self self'. split; [reflexivity|]. split; [reflexivity|].
  destruct (batchnorm1d_training_moving_average self example_batch
              eq_refl eq_refl) as (_ & Hrows & _).
  apply (Hrows 2 3 eq_refl).
  - split; [reflexivity | left; reflexivity].
  - split; [reflexivity | left; reflexivity].
  - lia.
Defined.

(** C3, counterexample: a module of two features in training mode, called
    on a 2-D input whose rows have three elements, raises [ValueError] and
    updates nothing: the running mean and variance are the zeros and ones
    of the constructor, not a moving average with the batch statistics. *)
Lemma batchnorm1d_training_mismatch_updates_nothing :
  let self := BatchNorm1d.__init__ 2 default_eps default_momentum true in
  let x := Array [1; 3] [1; 2; 3]%R in
  ndim x = 2 ∧ BatchNorm1d.training self = true ∧
  BatchNorm1d.__call__ x self = (self, Raise ValueError) ∧
  BatchNorm1d.running_mean (fst (BatchNorm1d.__call__ x self)) = zeros [2] ∧
  BatchNorm1d.running_var (fst (BatchNorm1d.__call__ x self)) = ones [2].
Proof. intros self x. repeat split; reflexivity. Qed.

(** C9, witness: the example module, in training mode as constructed. *)
Lemma batchnorm1d_training_uses_batch_statistics_witness :
  let self := example_module in
  ndim example_batch = 2 ∧ BatchNorm1d.training self = true ∧
  ∃ out, snd (BatchNorm1d.__call__ example_batch self) = Ok out ∧
         shape out = [2; 3].
Proof.
  intros self. split; [reflexivity|]. split; [reflexivity|].
  destruct (batchnorm1d_training_uses_batch_statistics self example_batch
              eq_refl eq_refl) as (_ & Hrows).
  destruct (Hrows 2 3 eq_refl eq_refl (bn_fits_example true))
    as (out & Hout & Hs & _).
  exists out. split; assumption.
Defined.

(** C10, witness: a 3-D input, as in [test_2d_input_shape]. *)
Lemma batchnorm1d_wrong_rank_changes_nothing_witness :
  let x := Array [1; 3; 2] [1; 2; 3; 4; 5; 9]%R in
  ndim x ≠ 2 ∧
  fst (BatchNorm1d.__call__ x example_module) = example_module ∧
  snd (BatchNorm1d.__call__ x example_module) = Raise ValueError.
Proof.
  intros x.
  assert (Hr : ndim x ≠ 2) by (cbn; lia).
  split; [exact Hr|].
  apply (batchnorm1d_wrong_rank_changes_nothing example_module x Hr).
Defined.

(** C8: in the moving average of a call in training mode the old running
    statistic is weighted by [momentum] and the statistic of the batch by
    [1 - momentum]; with the default momentum 0.1 the mean and variance of
    the batch have weight 0.9. *)
Theorem batchnorm1d_momentum_weighs_old_statistic
    (self : BatchNorm1d.t R) (x : array R) (B F : nat) :
  BatchNorm1d.training self = true → shape x = [B; F] →
  vector_like F (BatchNorm1d.running_mean self) →
  vector_like F (BatchNorm1d.running_var self) →
  let self' := fst (BatchNorm1d.__call__ x self) in
  let m := BatchNorm1d.momentum self in
  (∀ j, j < F →
     item (BatchNorm1d.running_mean self') j =
       (m * item (BatchNorm1d.running_mean self) j
        + (1 - m) * mean_list (column F B (data x) j))%R ∧
     item (BatchNorm1d.running_var self') j =
       (m * item (BatchNorm1d.running_var self) j
        + (1 - m) * var_list (column F B (data x) j))%R) ∧
  (m = default_momentum →
   ∀ j, j < F →
     item (BatchNorm1d.running_mean self') j =
       (1 / 10 * item (BatchNorm1d.running_mean self) j
        + 9 / 10 * mean_list (column F B (data x) j))%R ∧
     item (BatchNorm1d.running_var self') j =
       (1 / 10 * item (BatchNorm1d.running_var self) j
        + 9 / 10 * var_list (column F B (data x) j))%R).
Proof.
  intros Ht Hs Hm Hv self' m.
  destruct (batchnorm1d_training_rows self x B F Ht Hs Hm Hv)
    as (_ & _ & Hitems).
  fold self' m in Hitems. split.
  - exact Hitems.
  - intros Hdef j Hj. destruct (Hitems j Hj) as [-> ->].
    rewrite Hdef. unfold default_momentum. cbn [sadd smul ssub sdiv s1 sof_Z R_Scalar].
    split; lra.
Qed.

(** C8, witness: the example module has the default momentum. *)
Lemma batchnorm1d_momentum_weighs_old_statistic_witness :
  let self := example_module in
  let self' := fst (BatchNorm1d.__call__ example_batch self) in
  BatchNorm1d.training self = true ∧ shape example_batch = [2; 3] ∧
  item (BatchNorm1d.running_mean self') 0 =
    (1 / 10 * item (BatchNorm1d.running_mean self) 0
     + 9 / 10 * mean_list (column 3 2 (data example_batch) 0))%R.
Proof.
  intros self self'. split; [reflexivity|]. split; [reflexivity|].
  destruct (batchnorm1d_momentum_weighs_old_statistic self example_batch 2 3
              eq_refl eq_refl (proj1 (bn_fits_example true))
              (proj1 (proj2 (bn_fits_example true))))
    as (_ & Hdef).
  apply (Hdef eq_refl 0). lia.
Defined.

(** ** BatchNorm1d: errors *)

Section BatchNormErrors.
Context {A : Type} `{Scalar A}.
Implicit Types (self : BatchNorm1d.t A) (x : array A) (B F : nat).

(** On a batch of rows of [F] features a module whose vectors hold [F]
    values returns, in either mode. *)
Lemma batchnorm1d_call_returns self x B F :
  shape x = [B; F] → wf x → bn_fits F self →
  ∃ out, snd (BatchNorm1d.__call__ x self) = Ok out ∧ shape out = [B; F].
Proof.
  intros Hs Hwf (Hm & Hv & Hok).
  assert (Hr : ndim x = 2) by (unfold ndim; rewrite Hs; reflexivity).
  destruct (BatchNorm1d.training self) eqn:Ht.
  - destruct (batchnorm1d_training_state self x B F Ht Hs Hm Hv)
      as (nm & nv & _ & _ & _ & ->).
    destruct (forward_rows x (batch_stat mean_list x B F)
                (batch_stat var_list x B F) (BatchNorm1d.eps self)
                (BatchNorm1d.weight self) (BatchNorm1d.bias self) B F
                Hs Hwf (vector_like_batch_stat _ _ _ _)
                (vector_like_batch_stat _ _ _ _) Hok)
      as (out & Hout & Hos & _).
    exists out. split; assumption.
  - rewrite (batchnorm1d_call_eval self x Hr Ht). cbn [snd].
    destruct (forward_rows x _ _ (BatchNorm1d.eps self) _ _ B F
                Hs Hwf Hm Hv Hok) as (out & Hout & Hos & _).
    exists out. split; assumption.
Qed.

End BatchNormErrors.

(** C4 (amended): a call of [BatchNorm1d] raises [ValueError] on every
    input whose rank is not two, so on every 3-D input; on a 2-D input
    whose rows have one element for each value of the module's vectors it
    raises nothing.  (On other 2-D inputs the array operations can raise:
    their shapes may not broadcast.) *)
Theorem batchnorm1d_raises_on_wrong_rank
    {A : Type} `{Scalar A} (self : BatchNorm1d.t A) (x : array A) :
  (ndim x ≠ 2 → snd (BatchNorm1d.__call__ x self) = Raise ValueError) ∧
  (ndim x = 3 → snd (BatchNorm1d.__call__ x self) = Raise ValueError) ∧
  (∀ B F, shape x = [B; F] → wf x → bn_fits F self →
     ∃ out, snd (BatchNorm1d.__call__ x self) = Ok out).
Proof.
  split; [|split].
  - intros Hr. rewrite (batchnorm1d_call_wrong_rank self x Hr). reflexivity.
  - intros Hr. rewrite (batchnorm1d_call_wrong_rank self x); [reflexivity|].
    rewrite Hr. discriminate.
  - intros B F Hs Hwf Hfits.
    destruct (batchnorm1d_call_returns self x B F Hs Hwf Hfits)
      as (out & Hout & _).
    exists out. exact Hout.
Qed.

(** C4, witness: the example module raises on a 3-D input and returns on
    the example batch. *)
Lemma batchnorm1d_raises_on_wrong_rank_witness :
  let x3 := Array [1; 3; 2] [1; 2; 3; 4; 5; 9]%R in
  snd (BatchNorm1d.__call__ x3 example_module) = Raise ValueError ∧
  ∃ out, snd (BatchNorm1d.__call__ example_batch example_module) = Ok out.
Proof.
  intros x3. split.
  - apply (batchnorm1d_raises_on_wrong_rank example_module x3). reflexivity.
  - apply (batchnorm1d_raises_on_wrong_rank example_module example_batch)
      with (B := 2) (F := 3);
      [reflexivity | reflexivity | exact (bn_fits_example true)].
Defined.

(** C4, counterexample: a module of two features raises on a 2-D input
    whose rows have three elements, in training and in evaluation mode. *)
Lemma batchnorm1d_raises_on_rank_two_input :
  let self := BatchNorm1d.__init__ 2 default_eps default_momentum true in
  let x := Array [1; 3] [1; 2; 3]%R in
  ndim x = 2 ∧
  snd (BatchNorm1d.__call__ x self) = Raise ValueError ∧
  snd (BatchNorm1d.__call__ x (BatchNorm1d.set_training false self))
    = Raise ValueError.
Proof. intros self x. repeat split; reflexivity. Qed.

(** ** The lengths of the learned and running vectors *)

Lemma broadcast_shapes_vector_flat_inv (F F' : nat) (s0 s : list nat) :
  s0 = [F] ∨ s0 = [1; F] →
  broadcast_shapes s0 [1; F'] = Some s →
  F ≠ 1 ∨ F' = F →
  s = [1; F].
Proof.
  intros Hs0 Hs HF. unfold broadcast_shapes in Hs.
  assert (Hrev : ∃ t, (t = [] ∨ t = [1]) ∧ reverse s0 = F :: t ∧
                      broadcast_rev t [1] = Some [1]).
  { destruct Hs0 as [-> | ->].
    - exists []. split; [left; reflexivity|]. split; reflexivity.
    - exists [1]. split; [right; reflexivity|]. split; reflexivity. }
  destruct Hrev as (t & _ & Hrev & Ht). rewrite Hrev in Hs.
  change (reverse [1; F']) with [F'; 1] in Hs.
  rewrite broadcast_rev_cons, Ht in Hs.
  destruct (Nat.eqb_spec F F') as [<-|Hne].
  - injection Hs as <-. reflexivity.
  - destruct (Nat.eqb_spec F 1) as [->|HF1]; [lia|].
    destruct (Nat.eqb_spec F' 1) as [->|HF'1]; [|discriminate].
    cbn [orb] in Hs. rewrite Nat.mul_1_r in Hs.
    injection Hs as <-. reflexivity.
Qed.

Section Lengths.
Context {A : Type} `{Scalar A}.
Implicit Types (self : BatchNorm1d.t A) (x : array A) (F : nat).

Lemma is_vector_full F (v : A) : is_vector F (full [F] v).
Proof.
  split; [reflexivity|]. unfold full. cbn [data].
  rewrite length_replicate. apply size_of_singleton.
Qed.

Lemma vector_like_full F (v : A) : vector_like F (full [F] v).
Proof.
  split; [|left; reflexivity]. unfold wf, full. cbn [shape data].
  apply length_replicate.
Qed.

(** The moving average of a vector of [F] values and the statistics of a
    batch holds [F] values again, unless a module of one feature is given
    rows of another length. *)
Lemma ema_keeps_length (m : A) old (f : list A → A) x B F F' new :
  vector_like F old → F ≠ 1 ∨ F' = F →
  ema m old (batch_stat f x B F') = Ok new →
  vector_like F new.
Proof.
  intros Hold HF Hnew. unfold ema, add in Hnew.
  apply binop_wf in Hnew as [Hwf Hs].
  - split; [exact Hwf|]. right.
    apply (broadcast_shapes_vector_flat_inv F F' (shape old)).
    + apply Hold.
    + exact Hs.
    + exact HF.
  - apply wf_map_array, Hold.
  - apply wf_map_array. apply (vector_like_batch_stat f x B F').
Qed.

Ltac bn_lengths_solve :=
  cbn [fst]; unfold bn_lengths;
  cbn [BatchNorm1d.num_features BatchNorm1d.running_mean
       BatchNorm1d.running_var BatchNorm1d.weight BatchNorm1d.bias
       BatchNorm1d.with_running_mean BatchNorm1d.with_running_var];
  repeat first [assumption | split].

(** A call keeps the lengths of the vectors of a module. *)
Lemma batchnorm1d_call_keeps_lengths self x :
  bn_lengths self →
  (BatchNorm1d.num_features self ≠ 1 ∨
   ∃ B, shape x = [B; BatchNorm1d.num_features self]) →
  bn_lengths (fst (BatchNorm1d.__call__ x self)).
Proof.
  intros Hinv Hx.
  destruct (Nat.eq_dec (ndim x) 2) as [Hr|Hr];
    [|rewrite (batchnorm1d_call_wrong_rank self x Hr); exact Hinv].
  destruct (BatchNorm1d.training self) eqn:Ht;
    [|rewrite (batchnorm1d_call_eval self x Hr Ht); exact Hinv].
  destruct (ndim_2_shape x Hr) as (B & F' & Hs).
  rewrite (batchnorm1d_call_training self x _ _ Hr Ht
             (batch_mean x B F' Hs) (batch_var x B F' Hs)).
  destruct Hinv as (Hm & Hv & Hw & Hb).
  assert (HF : BatchNorm1d.num_features self ≠ 1 ∨
               F' = BatchNorm1d.num_features self).
  { destruct Hx as [Hx | [B' Hx]]; [left; exact Hx|].
    right. rewrite Hx in Hs. congruence. }
  destruct (ema _ _ (batch_stat mean_list x B F')) as [nm|e] eqn:Hnm;
    [|bn_lengths_solve].
  pose proof (ema_keeps_length _ _ _ _ _ _ _ _ Hm HF Hnm) as Hnm'.
  destruct (ema _ _ (batch_stat var_list x B F')) as [nv|e] eqn:Hnv;
    [|bn_lengths_solve].
  pose proof (ema_keeps_length _ _ _ _ _ _ _ _ Hv HF Hnv) as Hnv'.
  bn_lengths_solve.
Qed.

End Lengths.

(** C7 (amended): the constructors give the learned weight and bias (when
    affine, and the weight of RMSNorm always) and the running mean and
    variance of BatchNorm1d the shape [(dims,)] with [dims] elements.  The
    calls of LayerNorm, RMSNorm and GroupNorm assign nothing to the module.
    A call of BatchNorm1d keeps, in every vector of the module, one value
    for each of the [num_features] features (the running statistics get
    the shape [(1, num_features)] in training mode), unless the module has
    one feature and the input rows another length. *)
Theorem vectors_have_feature_length {A : Type} `{Scalar A} :
  (∀ dims eps,
     ∃ w b, LayerNorm.weight (LayerNorm.__init__ dims eps true) = Some w ∧
            LayerNorm.bias (LayerNorm.__init__ dims eps true) = Some b ∧
            is_vector dims w ∧ is_vector dims b) ∧
  (∀ dims eps, is_vector dims (RMSNorm.weight (RMSNorm.__init__ dims eps))) ∧
  (∀ groups dims eps compatible,
     ∃ w b,
       GroupNorm.weight (GroupNorm.__init__ groups dims eps true compatible)
         = Some w ∧
       GroupNorm.bias (GroupNorm.__init__ groups dims eps true compatible)
         = Some b ∧
       is_vector dims w ∧ is_vector dims b) ∧
  (∀ F eps momentum affine,
     let self := BatchNorm1d.__init__ F eps momentum affine in
     is_vector F (BatchNorm1d.running_mean self) ∧
     is_vector F (BatchNorm1d.running_var self) ∧
     (affine = true →
      ∃ w b, BatchNorm1d.weight self = Some w ∧
             BatchNorm1d.bias self = Some b ∧
             is_vector F w ∧ is_vector F b) ∧
     bn_lengths self) ∧
  (∀ (self : BatchNorm1d.t A) x,
     bn_lengths self →
     (BatchNorm1d.num_features self ≠ 1 ∨
      ∃ B, shape x = [B; BatchNorm1d.num_features self]) →
     let self' := fst (BatchNorm1d.__call__ x self) in
     bn_lengths self' ∧
     BatchNorm1d.num_features self' = BatchNorm1d.num_features self ∧
     length (data (BatchNorm1d.running_mean self'))
       = BatchNorm1d.num_features self ∧
     length (data (BatchNorm1d.running_var self'))
       = BatchNorm1d.num_features self).
Proof.
  split; [|split; [|split; [|split]]].
  - intros dims eps. exists (ones [dims]), (zeros [dims]).
    repeat split; try reflexivity; apply is_vector_full.
  - intros dims eps. apply is_vector_full.
  - intros groups dims eps compatible. exists (ones [dims]), (zeros [dims]).
    repeat split; try reflexivity; apply is_vector_full.
  - intros F eps momentum affine self.
    split; [apply is_vector_full|]. split; [apply is_vector_full|]. split.
    + intros ->. exists (ones [F]), (zeros [F]).
      repeat split; try reflexivity; apply is_vector_full.
    + split; [apply vector_like_full|]. split; [apply vector_like_full|].
      unfold self. destruct affine; cbn; split; intros v [= <-];
        apply vector_like_full.
  - intros self x Hinv Hx self'.
    pose proof (batchnorm1d_call_keeps_lengths self x Hinv Hx) as Hinv'.
    fold self' in Hinv'.
    assert (Hnf : BatchNorm1d.num_features self'
                  = BatchNorm1d.num_features self).
    { unfold self', BatchNorm1d.__call__.
      destruct (negb (ndim x =? 2)); [reflexivity|].
      unfold BatchNorm1d._calc_stats, mbind, BatchNorm1d.method_bind,
        BatchNorm1d.get, BatchNorm1d.lift, BatchNorm1d.pure,
        BatchNorm1d.set_running_mean, BatchNorm1d.set_running_var.
      destruct (BatchNorm1d.training self); [|
        repeat (match goal with
                | |- context [match ?r with Ok _ => _ | Raise _ => _ end] =>
                    destruct r
                end; cbn); reflexivity].
      repeat (match goal with
              | |- context [match ?r with Ok _ => _ | Raise _ => _ end] =>
                  destruct r
              end; cbn); reflexivity. }
    split; [exact Hinv'|]. split; [exact Hnf|].
    destruct Hinv' as (Hm & Hv & _). rewrite Hnf in Hm, Hv.
    split; apply length_vector_like; assumption.
Qed.

(** C7, counterexample: a module of one feature called in training mode
    on a batch of rows of three elements returns, and its running mean
    and variance hold three values afterwards. *)
Lemma batchnorm1d_one_feature_running_statistics_grow :
  let self := BatchNorm1d.__init__ 1 default_eps default_momentum true in
  let self' := fst (BatchNorm1d.__call__ example_batch self) in
  (∃ out, snd (BatchNorm1d.__call__ example_batch self) = Ok out) ∧
  BatchNorm1d.num_features self' = 1 ∧
  length (data (BatchNorm1d.running_mean self')) = 3 ∧
  length (data (BatchNorm1d.running_var self')) = 3.
Proof.
  intros self self'. split; [eexists; reflexivity|].
  repeat split; reflexivity.
Qed.

(** ** Reshaping *)

Lemma known_size_of_nat (tl : list nat) :
  known_size (Z.of_nat <$> tl) = Z.of_nat (size_of tl).
Proof.
  induction tl as [|n tl IH]; [reflexivity|].
  cbn [fmap list_fmap]. unfold known_size in *. cbn [foldr].
  rewrite IH. destruct (Z.eqb_spec (Z.of_nat n) (-1)); [lia|].
  rewrite size_of_cons. lia.
Qed.

Lemma inferred_of_nat (tl : list nat) : inferred (Z.of_nat <$> tl) = 0.
Proof.
  unfold inferred. induction tl as [|n tl IH]; [reflexivity|].
  cbn [fmap list_fmap]. rewrite filter_cons_False by lia. exact IH.
Qed.

Lemma existsb_of_nat (tl : list nat) :
  existsb (fun d => (d <? -1)%Z) (Z.of_nat <$> tl) = false.
Proof.
  induction tl as [|n tl IH]; [reflexivity|].
  cbn [fmap list_fmap existsb]. rewrite IH.
  destruct (Z.ltb_spec (Z.of_nat n) (-1)); [lia | reflexivity].
Qed.

Lemma resolve_of_nat (q : Z) (tl : list nat) :
  (fun d => if (d =? -1)%Z then q else d) <$> (Z.of_nat <$> tl)
  = Z.of_nat <$> tl.
Proof.
  rewrite <- list_fmap_compose. apply list_fmap_ext. intros _ n _. cbn.
  destruct (Z.eqb_spec (Z.of_nat n) (-1)); [lia | reflexivity].
Qed.

Lemma product_of_nat (tl : list nat) :
  foldr Z.mul 1%Z (Z.of_nat <$> tl) = Z.of_nat (size_of tl).
Proof.
  induction tl as [|n tl IH]; [reflexivity|].
  cbn [fmap list_fmap foldr]. rewrite IH, size_of_cons. lia.
Qed.

Lemma to_nat_of_nat (tl : list nat) : Z.to_nat <$> (Z.of_nat <$> tl) = tl.
Proof.
  rewrite <- list_fmap_compose. rewrite <- list_fmap_id.
  apply list_fmap_ext. intros _ n _. cbn. apply Nat2Z.id.
Qed.

Section Reshape.
Context {A : Type} `{Scalar A}.
Implicit Types (a : array A) (tl : list nat).

(** Reshaping reads the elements and their number, not the shape. *)
Lemma reshape_ext a a' (spec : list Z) :
  data a = data a' → size_of (shape a) = size_of (shape a') →
  reshape a spec = reshape a' spec.
Proof. intros Hd Hs. unfold reshape. rewrite Hd, Hs. reflexivity. Qed.

(** [reshape(b, -1, *tl)] on [b * P * size tl] elements. *)
Lemma reshape_infer_second a (b P : nat) tl :
  size_of (shape a) = b * P * size_of tl → 0 < b → 0 < size_of tl →
  reshape a (Z.of_nat b :: (-1)%Z :: (Z.of_nat <$> tl))
  = Ok (Array (b :: P :: tl) (data a)).
Proof.
  intros Hsz Hb Htl. unfold reshape.
  assert (Hk : known_size (Z.of_nat b :: (-1)%Z :: (Z.of_nat <$> tl))
               = (Z.of_nat b * Z.of_nat (size_of tl))%Z).
  { unfold known_size. cbn [foldr].
    fold (known_size (Z.of_nat <$> tl)). rewrite known_size_of_nat.
    destruct (Z.eqb_spec (Z.of_nat b) (-1)); [lia | reflexivity]. }
  assert (Hi : inferred (Z.of_nat b :: (-1)%Z :: (Z.of_nat <$> tl)) = 1).
  { unfold inferred. rewrite filter_cons_False by lia.
    rewrite filter_cons_True by reflexivity. cbn [length].
    fold (inferred (Z.of_nat <$> tl)). rewrite inferred_of_nat. reflexivity. }
  rewrite Hk, Hi. cbn [existsb fmap list_fmap].
  rewrite existsb_of_nat, resolve_of_nat.
  destruct (Z.ltb_spec (Z.of_nat b) (-1)); [lia|].
  change ((-1 <? -1)%Z) with false. change ((-1 =? -1)%Z) with true.
  cbn [orb Nat.ltb Nat.leb].
  destruct (Z.eqb_spec (Z.of_nat b) (-1)); [lia|].
  destruct (Z.eqb_spec (Z.of_nat b * Z.of_nat (size_of tl)) 0); [nia|].
  destruct (Z.ltb_spec 0 (Z.of_nat b * Z.of_nat (size_of tl))); [|nia].
  cbn [andb].
  assert (Hq : (Z.of_nat (size_of (shape a))
                / (Z.of_nat b * Z.of_nat (size_of tl)) = Z.of_nat P)%Z).
  { rewrite Hsz. symmetry. apply Z.div_unique_exact; [lia|].
    rewrite !Nat2Z.inj_mul. ring. }
  rewrite Hq. cbn [foldr]. rewrite product_of_nat.
  destruct (Z.eqb_spec (Z.of_nat b * (Z.of_nat P * Z.of_nat (size_of tl)))
              (Z.of_nat (size_of (shape a)))); [|nia].
  cbn [negb fmap list_fmap]. rewrite to_nat_of_nat, !Nat2Z.id. reflexivity.
Qed.

(** With an empty batch or an empty trailing extent the second extent
    cannot be inferred. *)
Lemma reshape_infer_zero a (b : nat) tl :
  b = 0 ∨ size_of tl = 0 →
  reshape a (Z.of_nat b :: (-1)%Z :: (Z.of_nat <$> tl)) = Raise ValueError.
Proof.
  intros Hz. unfold reshape.
  assert (Hk : known_size (Z.of_nat b :: (-1)%Z :: (Z.of_nat <$> tl)) = 0%Z).
  { unfold known_size. cbn [foldr].
    fold (known_size (Z.of_nat <$> tl)). rewrite known_size_of_nat.
    destruct (Z.eqb_spec (Z.of_nat b) (-1)); [lia|].
    destruct Hz as [Hz|Hz]; rewrite Hz; cbn; lia. }
  assert (Hi : inferred (Z.of_nat b :: (-1)%Z :: (Z.of_nat <$> tl)) = 1).
  { unfold inferred. rewrite filter_cons_False by lia.
    rewrite filter_cons_True by reflexivity. cbn [length].
    fold (inferred (Z.of_nat <$> tl)). rewrite inferred_of_nat. reflexivity. }
  rewrite Hk, Hi. cbn [existsb]. rewrite existsb_of_nat.
  destruct (Z.ltb_spec (Z.of_nat b) (-1)); [lia|]. reflexivity.
Qed.

(** A reshape to extents that are all given and hold as many elements. *)
Lemma reshape_exact a (s : list nat) :
  size_of (shape a) = size_of s →
  reshape a (Z.of_nat <$> s) = Ok (Array s (data a)).
Proof.
  intros Hsz. unfold reshape.
  rewrite existsb_of_nat, inferred_of_nat, resolve_of_nat, product_of_nat, Hsz.
  cbn [Nat.ltb Nat.leb Nat.eqb]. rewrite andb_false_r, Z.eqb_refl.
  cbn [negb]. rewrite to_nat_of_nat. reflexivity.
Qed.

End Reshape.

(** ** Transposing an axis of extent one *)

Section Transpose.
Context {A : Type} `{Scalar A}.
Implicit Types (a : array A) (b n d : nat).

Lemma fmap_nth_seq_ext (g : nat → nat) (l : list A) (N : nat) :
  N = length l → (∀ i, i < N → g i = i) →
  (fun i => nth (g i) l s0) <$> seq 0 N = l.
Proof.
  intros -> Hg. rewrite <- (fmap_nth_seq l s0) at 2.
  apply list_fmap_ext. intros k i Hi.
  apply lookup_seq in Hi as [-> Hlt]. cbn. rewrite Hg by exact Hlt.
  reflexivity.
Qed.

Lemma unit_axis_index (i b n d : nat) :
  i < b * (n * d) →
  i `div` (n * d) * (n * d) +
  ((i `mod` (n * d)) `div` d * d +
   ((((i `mod` (n * d)) `mod` d) `mod` d) `div` 1 * 1 +
    (((i `mod` (n * d)) `mod` d) `div` d * 1 + 0))) = i.
Proof.
  intros Hi.
  assert (Hd : d ≠ 0) by nia. assert (Hnd : n * d ≠ 0) by nia.
  set (r := i `mod` (n * d)).
  rewrite Nat.Div0.mod_mod.
  rewrite Nat.div_1_r.
  rewrite (Nat.div_small (r `mod` d) d) by (apply Nat.mod_upper_bound, Hd).
  pose proof (Nat.div_mod_eq i (n * d)) as H1.
  pose proof (Nat.div_mod_eq r d) as H2. fold r in H1. lia.
Qed.

Lemma transpose_unit_last a b n d :
  shape a = [b; n; d; 1] → wf a →
  transpose a [0; 1; 3; 2] = Ok (Array [b; n; 1; d] (data a)).
Proof.
  intros Hs Hwf. unfold transpose, ndim. rewrite Hs.
  change (is_permutation [0; 1; 3; 2] (length [b; n; d; 1])) with true.
  cbn match. f_equal. f_equal.
  change ((fun ax => nth ax [b; n; d; 1] 0) <$> [0; 1; 3; 2])
    with [b; n; 1; d].
  unfold wf in Hwf. rewrite Hs in Hwf.
  apply fmap_nth_seq_ext.
  - rewrite Hwf. cbn. lia.
  - intros i Hi. cbn [unravel ravel length seq fmap list_fmap index_of
                      Nat.eqb nth].
    replace (size_of [n; 1; d]) with (n * d) by (cbn; lia).
    replace (size_of [n; d; 1]) with (n * d) by (cbn; lia).
    replace (size_of [1; d]) with d by (cbn; lia).
    replace (size_of [d; 1]) with d by (cbn; lia).
    replace (size_of [d]) with d by (cbn; lia).
    change (size_of [1]) with 1. change (size_of []) with 1.
    apply (unit_axis_index i b n d).
    replace (size_of [b; n; 1; d]) with (b * (n * d)) in Hi by (cbn; lia).
    exact Hi.
Qed.

Lemma unit_axis_index_third (i b n d : nat) :
  i < b * (n * d) →
  i `div` (n * d) * (n * d) +
  ((i `mod` (n * d)) `div` d * d +
   ((((i `mod` (n * d)) `mod` d) `mod` 1) `div` 1 * d +
    (((i `mod` (n * d)) `mod` d) `div` 1 * 1 + 0))) = i.
Proof.
  intros Hi.
  assert (Hd : d ≠ 0) by nia. assert (Hnd : n * d ≠ 0) by nia.
  set (r := i `mod` (n * d)).
  rewrite Nat.mod_1_r, !Nat.div_1_r.
  pose proof (Nat.div_mod_eq i (n * d)) as H1.
  pose proof (Nat.div_mod_eq r d) as H2. fold r in H1. lia.
Qed.

Lemma transpose_unit_third a b n d :
  shape a = [b; n; 1; d] → wf a →
  transpose a [0; 1; 3; 2] = Ok (Array [b; n; d; 1] (data a)).
Proof.
  intros Hs Hwf. unfold transpose, ndim. rewrite Hs.
  change (is_permutation [0; 1; 3; 2] (length [b; n; 1; d])) with true.
  cbn match. f_equal. f_equal.
  change ((fun ax => nth ax [b; n; 1; d] 0) <$> [0; 1; 3; 2])
    with [b; n; d; 1].
  unfold wf in Hwf. rewrite Hs in Hwf.
  apply fmap_nth_seq_ext.
  - rewrite Hwf. cbn. lia.
  - intros i Hi. cbn [unravel ravel length seq fmap list_fmap index_of
                      Nat.eqb nth].
    replace (size_of [n; 1; d]) with (n * d) by (cbn; lia).
    replace (size_of [n; d; 1]) with (n * d) by (cbn; lia).
    replace (size_of [1; d]) with d by (cbn; lia).
    replace (size_of [d; 1]) with d by (cbn; lia).
    replace (size_of [d]) with d by (cbn; lia).
    change (size_of [1]) with 1. change (size_of []) with 1.
    apply (unit_axis_index_third i b n d).
    replace (size_of [b; n; d; 1]) with (b * (n * d)) in Hi by (cbn; lia).
    exact Hi.
Qed.

End Transpose.

(** ** GroupNorm *)

Section GroupNormPaths.
Context {A : Type} `{Scalar A}.
Implicit Types (self : GroupNorm.t A) (x : array A) (b P d : nat).

Lemma broadcast_shapes_axis1 b P d :
  broadcast_shapes [b; P; d] [b; 1; d] = Some [b; P; d].
Proof.
  unfold broadcast_shapes.
  change (reverse [b; P; d]) with [d; P; b].
  change (reverse [b; 1; d]) with [d; 1; b].
  rewrite broadcast_rev_cons, Nat.eqb_refl, broadcast_rev_one_r.
  reflexivity.
Qed.

Lemma reduce_axis1 (f : list A → A) x b P d :
  shape x = [b; P; d] → wf x →
  ∃ m, reduce f x 1 = Ok m ∧ shape m = [b; 1; d] ∧ wf m.
Proof.
  intros Hs Hwf. unfold reduce, ndim. rewrite Hs.
  change (normalize_axis 1 (length [b; P; d])) with (Ok (T:=nat) 1).
  cbn [mbind result_bind]. eexists. split; [reflexivity|].
  split; [reflexivity|]. unfold wf in *. cbn [shape data].
  rewrite Hs in Hwf. apply length_reduce_data; [cbn; lia | exact Hwf].
Qed.

(** Normalizing keeps the shape and the number of elements. *)
Lemma group_norm_normalize_shape self x b P d :
  shape x = [b; P; d] → wf x →
  ∃ y, GroupNorm.normalize self x = Ok y ∧ shape y = [b; P; d] ∧ wf y.
Proof.
  intros Hs Hwf. unfold GroupNorm.normalize, mean, var.
  destruct (reduce_axis1 mean_list x b P d Hs Hwf) as (m & -> & Hms & Hmw).
  destruct (reduce_axis1 var_list x b P d Hs Hwf) as (v & -> & Hvs & Hvw).
  cbn [mbind result_bind].
  destruct (sub x m) as [xm|e] eqn:Hsub.
  2:{ unfold sub, binop in Hsub.
      rewrite Hs, Hms, broadcast_shapes_axis1 in Hsub. discriminate. }
  pose proof (binop_wf _ _ _ _ Hwf Hmw Hsub) as [Hxw Hxs].
  rewrite Hs, Hms, broadcast_shapes_axis1 in Hxs. injection Hxs as Hxs.
  cbn [mbind result_bind].
  set (r := rsqrt (add_scalar v (GroupNorm.eps self))).
  assert (Hrw : wf r) by (unfold r, rsqrt, add_scalar;
                          do 2 apply wf_map_array; exact Hvw).
  destruct (mul xm r) as [y|e] eqn:Hmul.
  2:{ unfold mul, binop in Hmul.
      change (shape r) with (shape v) in Hmul.
      rewrite <- Hxs, Hvs, broadcast_shapes_axis1 in Hmul. discriminate. }
  pose proof (binop_wf _ _ _ _ Hxw Hrw Hmul) as [Hyw Hys].
  change (shape r) with (shape v) in Hys.
  rewrite <- Hxs, Hvs, broadcast_shapes_axis1 in Hys. injection Hys as Hys.
  exists y. split; [reflexivity|]. split; [symmetry; exact Hys | exact Hyw].
Qed.

Lemma unpack_shape (batch : nat) (rest : list nat) d :
  GroupNorm.unpack (batch :: rest ++ [d]) = Ok (batch, rest, d).
Proof.
  unfold GroupNorm.unpack. rewrite last_snoc, removelast_last. reflexivity.
Qed.

(** With as many groups as features, and at least one, the two groupings
    are the same computation on the same elements: they return the same
    array or raise the same exception. *)
Lemma group_norm_paths_agree self x (batch : nat) (rest : list nat) d :
  shape x = batch :: rest ++ [S d] → wf x →
  GroupNorm.num_groups self = Z.of_nat (S d) →
  GroupNorm._pytorch_compatible_group_norm self x =
  GroupNorm._group_norm self x.
Proof.
  intros Hs Hwf HG.
  unfold GroupNorm._pytorch_compatible_group_norm, GroupNorm._group_norm.
  rewrite Hs, unpack_shape, HG. cbn [mbind result_bind].
  unfold GroupNorm.floordiv.
  change [Z.of_nat batch; (-1)%Z; Z.of_nat (S d)]
    with (Z.of_nat batch :: (-1)%Z :: (Z.of_nat <$> [S d])).
  destruct (Z.eqb_spec (Z.of_nat (S d)) 0) as [Hd0|Hd0]; [lia|].
  cbn [mbind result_bind]. rewrite Z.div_same by exact Hd0.
  change [Z.of_nat batch; (-1)%Z; Z.of_nat (S d); 1%Z]
    with (Z.of_nat batch :: (-1)%Z :: (Z.of_nat <$> [S d; 1])).
  change [Z.of_nat batch; (-1)%Z; 1%Z; Z.of_nat (S d)]
    with (Z.of_nat batch :: (-1)%Z :: (Z.of_nat <$> [1; S d])).
  destruct (Nat.eq_dec batch 0) as [Hb0|Hb0].
  { rewrite !reshape_infer_zero by (left; exact Hb0). reflexivity. }
  set (P := size_of rest).
  assert (Hsz : size_of (shape x) = batch * P * S d).
  { rewrite Hs, size_of_cons, size_of_app, size_of_singleton. unfold P. lia. }
  rewrite (reshape_infer_second x batch P [S d; 1])
    by (cbn; rewrite ?Hsz; lia).
  rewrite (reshape_infer_second x batch P [S d])
    by (cbn; rewrite ?Hsz; lia).
  cbn [mbind result_bind].
  rewrite (transpose_unit_last (Array [batch; P; S d; 1] (data x))
             batch P (S d) eq_refl)
    by (unfold wf in *; cbn [shape data]; rewrite Hwf, Hsz; cbn; lia).
  cbn [mbind result_bind].
  rewrite (reshape_infer_second _ batch P [S d])
    by (cbn; lia).
  cbn [mbind result_bind data].
  assert (Hxw : wf (Array [batch; P; S d] (data x)))
    by (unfold wf in *; cbn [shape data]; rewrite Hwf, Hsz; cbn; lia).
  destruct (group_norm_normalize_shape self (Array [batch; P; S d] (data x))
              batch P (S d) eq_refl Hxw)
    as (y & -> & Hys & Hyw).
  cbn [mbind result_bind].
  rewrite (reshape_infer_second y batch P [1; S d])
    by (rewrite ?Hys; cbn; lia).
  cbn [mbind result_bind].
  rewrite (transpose_unit_third (Array [batch; P; 1; S d] (data y))
             batch P (S d) eq_refl)
    by (unfold wf in *; cbn [shape data]; rewrite Hyw, Hys; cbn; lia).
  cbn [mbind result_bind].
  apply reshape_ext; [reflexivity|].
  cbn [shape]. rewrite Hys. cbn. lia.
Qed.

(** On a batch that is not empty the default grouping with as many
    groups as features returns an array of the shape of the input. *)
Lemma group_norm_default_returns self x (batch : nat) (rest : list nat) d :
  shape x = S batch :: rest ++ [S d] → wf x →
  GroupNorm.num_groups self = Z.of_nat (S d) →
  ∃ y, GroupNorm._group_norm self x = Ok y ∧ shape y = shape x ∧ wf y.
Proof.
  intros Hs Hwf HG. unfold GroupNorm._group_norm.
  rewrite Hs, unpack_shape, HG. cbn [mbind result_bind].
  set (P := size_of rest).
  assert (Hsz : size_of (shape x) = S batch * P * S d).
  { rewrite Hs, size_of_cons, size_of_app, size_of_singleton. unfold P. lia. }
  change [Z.of_nat (S batch); (-1)%Z; Z.of_nat (S d)]
    with (Z.of_nat (S batch) :: (-1)%Z :: (Z.of_nat <$> [S d])).
  rewrite (reshape_infer_second x (S batch) P [S d])
    by (rewrite ?size_of_singleton; lia).
  cbn [mbind result_bind].
  assert (Hxw : wf (Array [S batch; P; S d] (data x)))
    by (unfold wf in *; cbn [shape data]; rewrite Hwf, Hsz; cbn; lia).
  destruct (group_norm_normalize_shape self (Array [S batch; P; S d] (data x))
              (S batch) P (S d) eq_refl Hxw)
    as (y & -> & Hys & Hyw).
  cbn [mbind result_bind].
  change [Z.of_nat (S d)] with (Z.of_nat <$> [S d]).
  rewrite <- fmap_app.
  change (Z.of_nat (S batch) :: (Z.of_nat <$> rest ++ [S d]))
    with (Z.of_nat <$> (S batch :: rest ++ [S d])).
  rewrite (reshape_exact y (S batch :: rest ++ [S d]))
    by (rewrite Hys, <- Hs, Hsz; cbn; lia).
  eexists. split; [reflexivity|]. split; [reflexivity|].
  unfold wf in *. cbn [shape data]. rewrite Hyw, Hys, <- Hs, Hsz. cbn. lia.
Qed.

End GroupNormPaths.

(** C6 (amended): on every input whose last dimension is [dims], with
    [dims] at least one, a GroupNorm with as many groups as [dims] gives
    the same result in the PyTorch compatible mode as in the default mode:
    the two grouping functions return the same array or raise the same
    exception, and so do the calls of two modules that differ in the mode
    only; on a batch that is not empty both groupings return an array, of
    the shape of the input.  (With [dims = 0] both raise, and not the same
    exception.) *)
Theorem group_norm_modes_agree
    {A : Type} `{Scalar A} (x : array A) (batch : nat) (rest : list nat)
    (weight bias : option (array A)) (groups : Z) (dims : nat) (eps : A) :
  shape x = batch :: rest ++ [S dims] → wf x → groups = Z.of_nat (S dims) →
  let compatible := GroupNorm.Build weight bias groups (S dims) eps true in
  let default := GroupNorm.Build weight bias groups (S dims) eps false in
  GroupNorm._pytorch_compatible_group_norm compatible x =
    GroupNorm._group_norm default x ∧
  GroupNorm.__call__ compatible x = GroupNorm.__call__ default x ∧
  (0 < batch →
   ∃ y, GroupNorm._pytorch_compatible_group_norm compatible x = Ok y ∧
        GroupNorm._group_norm default x = Ok y ∧ shape y = shape x).
Proof.
  intros Hs Hwf HG compatible default.
  assert (Hpaths :
    GroupNorm._pytorch_compatible_group_norm compatible x =
    GroupNorm._group_norm default x).
  { rewrite (group_norm_paths_agree compatible x batch rest dims Hs Hwf HG).
    reflexivity. }
  split; [exact Hpaths|]. split.
  - unfold GroupNorm.__call__. subst compatible default.
    cbn [GroupNorm.pytorch_compatible GroupNorm.weight GroupNorm.bias] in *.
    rewrite Hpaths. reflexivity.
  - intros Hb. destruct batch as [|batch]; [lia|].
    destruct (group_norm_default_returns default x batch rest dims Hs Hwf HG)
      as (y & Hy & Hys & _).
    exists y. rewrite Hpaths. auto.
Qed.

(** C6, witness: four features in four groups, a batch of one image of
    two positions. *)
Lemma group_norm_modes_agree_witness :
  let x := Array [1; 2; 4] [1; 2; 3; 4; 5; 6; 7; 9]%R in
  let compatible := GroupNorm.__init__ 4 4 default_eps true true in
  let default := GroupNorm.__init__ 4 4 default_eps true false in
  shape x = 1 :: [2] ++ [4] ∧ wf x ∧
  GroupNorm.__call__ compatible x = GroupNorm.__call__ default x ∧
  ∃ y, GroupNorm._pytorch_compatible_group_norm compatible x = Ok y ∧
       GroupNorm._group_norm default x = Ok y ∧ shape y = [1; 2; 4].
Proof.
  intros x compatible default. split; [reflexivity|]. split; [reflexivity|].
  destruct (group_norm_modes_agree x 1 [2] (Some (ones [4])) (Some (zeros [4]))
              4%Z 3 default_eps eq_refl eq_refl eq_refl)
    as (_ & Hcall & Hret).
  split; [exact Hcall|].
  destruct (Hret ltac:(lia)) as (y & Hc & Hd & Hys).
  exists y. split; [exact Hc|]. split; [exact Hd | exact Hys].
Defined.

(** C6, counterexample: without features, [dims = num_groups = 0], the
    two modes do not agree on an input of shape [(1, 0)]: the PyTorch
    compatible mode raises [ZeroDivisionError] at [dims // num_groups],
    the default mode [ValueError] at the reshape. *)
Lemma group_norm_modes_differ_without_features :
  let x : array R := Array [1; 0] [] in
  let compatible := GroupNorm.__init__ 0 0 default_eps true true in
  let default := GroupNorm.__init__ 0 0 default_eps true false in
  shape x = 1 :: [] ++ [0] ∧ wf x ∧
  GroupNorm.num_groups compatible = Z.of_nat 0 ∧
  GroupNorm._pytorch_compatible_group_norm compatible x
    = Raise ZeroDivisionError ∧
  GroupNorm._group_norm default x = Raise ValueError ∧
  GroupNorm.__call__ compatible x ≠ GroupNorm.__call__ default x.
Proof.
  intros x compatible default.
  split; [reflexivity|]. split; [reflexivity|]. split; [reflexivity|].
  split; [reflexivity|]. split; [reflexivity|].
  change (GroupNorm.__call__ compatible x)
    with (Raise (T:=array R) ZeroDivisionError).
  change (GroupNorm.__call__ default x) with (Raise (T:=array R) ValueError).
  discriminate.
Qed.

(** C7, witness: the example module keeps three values in each vector
    after a call in training mode on the example batch. *)
Lemma vectors_have_feature_length_witness :
  let self' := fst (BatchNorm1d.__call__ example_batch example_module) in
  bn_lengths example_module ∧
  shape example_batch = [2; BatchNorm1d.num_features example_module] ∧
  bn_lengths self' ∧
  length (data (BatchNorm1d.running_mean self')) = 3 ∧
  length (data (BatchNorm1d.running_var self')) = 3.
Proof.
  intros self'.
  destruct (@vectors_have_feature_length R _) as (_ & _ & _ & Hinit & Hcall).
  destruct (Hinit 3 default_eps default_momentum true) as (_ & _ & _ & Hinv).
  split; [exact Hinv|]. split; [reflexivity|].
  destruct (Hcall example_module example_batch Hinv
              (or_intror (ex_intro _ 2 eq_refl)))
    as (Hinv' & _ & Hm & Hv).
  split; [exact Hinv'|]. split; [exact Hm | exact Hv].
Defined.

(** ** The tests of the module, run on binary64 numbers *)

(** [test_2d_input_shape]: a 3-D input raises. *)
Example test_2d_input_shape :
  snd (BatchNorm1d.__call__
         (Array [2; 3; 1] (sof_Z <$> [1; 2; 3; 4; 5; 9]%Z))
         (float_module 3 true))
  = Raise ValueError.
Proof. vm_compute. reflexivity. Qed.

(** [test_forward_pass_evaluation]: the running statistics are those of
    the constructor after a call in evaluation mode, and the output has
    the shape of the input. *)
Example test_forward_pass_evaluation :
  let bn := BatchNorm1d.set_training false (float_module 3 true) in
  BatchNorm1d.running_mean (fst (BatchNorm1d.__call__ float_batch bn))
    = zeros [3] ∧
  BatchNorm1d.running_var (fst (BatchNorm1d.__call__ float_batch bn))
    = ones [3] ∧
  (shape <$> returned (snd (BatchNorm1d.__call__ float_batch bn)))
    = Some [2; 3].
Proof. vm_compute. repeat split; reflexivity. Qed.

(** [test_forward_pass_training]: the output has the shape of the input
    (and the running statistics the shape [(1, 3)]). *)
Example test_forward_pass_training :
  let bn := float_module 3 true in
  (shape <$> returned (snd (BatchNorm1d.__call__ float_batch bn)))
    = Some [2; 3] ∧
  shape (BatchNorm1d.running_mean (fst (BatchNorm1d.__call__ float_batch bn)))
    = [1; 3].
Proof. vm_compute. split; reflexivity. Qed.

(** [test_affine_false]: no weight and no bias, and the output has the
    shape of the input. *)
Example test_affine_false :
  let bn := float_module 3 false in
  BatchNorm1d.weight bn = None ∧ BatchNorm1d.bias bn = None ∧
  (shape <$> returned (snd (BatchNorm1d.__call__ float_batch bn)))
    = Some [2; 3].
Proof. vm_compute. repeat split; reflexivity. Qed.

(** ** The two counterexamples on binary64 numbers *)

(** On the constant row [0, 0] the output of LayerNorm has variance zero
    in floating point arithmetic too. *)
Example layer_norm_constant_row_binary64 :
  let self := LayerNorm.__init__ 2 default_eps true in
  let x : array PrimFloat.float := Array [2] [s0; s0] in
  (y ← LayerNorm.normalize self x; var y (-1)) = Ok (zeros [1]).
Proof. vm_compute. reflexivity. Qed.

(** On the input [1] the formula with [eps] added to the root mean square
    gives less than RMSNorm returns, in floating point arithmetic too. *)
Example rms_norm_eps_binary64 :
  let self := RMSNorm.__init__ 1 default_eps in
  let x : array PrimFloat.float := Array [1] [s1] in
  match RMSNorm.__call__ self x, rms_norm_eps_outside_root self x with
  | Ok a, Ok b => PrimFloat.ltb (item b 0) (item a 0) = true
  | _, _ => False
  end.
Proof. vm_compute. reflexivity. Qed.

(** * Further properties of the layers *)

(** ** A vector against the last axis of an array of any rank *)

Lemma concat_replicate_mul {A} (p q : nat) (d : list A) :
  concat (replicate p (concat (replicate q d))) = concat (replicate (p * q) d).
Proof.
  induction p as [|p IH]; [reflexivity|].
  cbn [replicate concat Nat.mul]. rewrite IH, replicate_add, concat_app.
  reflexivity.
Qed.

Lemma zip_with_rows_vector {A B C} (f : A → B → C) (R : list (list A))
    (w : list B) :
  Forall (fun c => length c = length w) R →
  zip_with f (concat R) (concat (replicate (length R) w)) =
  concat ((fun row => zip_with f row w) <$> R).
Proof.
  induction 1 as [|c R Hc _ IH]; [reflexivity|].
  cbn [length replicate concat fmap list_fmap].
  rewrite zip_with_app by exact Hc. rewrite IH. reflexivity.
Qed.

Lemma zip_with_chunks_vector {A B C} (f : A → B → C) (n P : nat)
    (d : list A) (w : list B) :
  length d = P * n → length w = n →
  zip_with f d (concat (replicate P w)) =
  concat ((fun row => zip_with f row w) <$> chunks n P d).
Proof.
  intros Hd Hw.
  rewrite <- (concat_chunks n P d Hd) at 1.
  replace (replicate P w)
    with (replicate (length (chunks n P d)) w)
    by (rewrite length_chunks; reflexivity).
  apply zip_with_rows_vector. rewrite Hw. apply Forall_chunks_length, Hd.
Qed.

Section VectorLastAxis.
Context {A : Type} `{Scalar A}.
Implicit Types (x w : array A) (pre : list nat).

Lemma bcast_data_leading_many pre (s : list nat) (d : list A) :
  length d = size_of s →
  bcast_data (replicate (length pre) 1 ++ s) (pre ++ s) d =
  concat (replicate (size_of pre) d).
Proof.
  intros Hd. induction pre as [|p pre IH].
  - cbn [length replicate app]. rewrite bcast_data_id by exact Hd.
    cbn. rewrite app_nil_r. reflexivity.
  - cbn [length replicate app bcast_data]. rewrite size_of_cons.
    rewrite size_of_app, size_of_replicate_1, Nat.mul_1_l.
    rewrite <- concat_replicate_mul.
    destruct (Nat.eqb_spec 1 p) as [<-|_].
    + rewrite chunks_1 by exact Hd. cbn [fmap list_fmap replicate].
      rewrite IH. reflexivity.
    + rewrite IH. reflexivity.
Qed.

Lemma broadcast_rev_nil_r (a : list nat) : broadcast_rev a [] = Some a.
Proof. destruct a; reflexivity. Qed.

Lemma broadcast_shapes_last_vector pre n :
  broadcast_shapes (pre ++ [n]) [n] = Some (pre ++ [n]) ∧
  broadcast_shapes [n] (pre ++ [n]) = Some (pre ++ [n]).
Proof.
  unfold broadcast_shapes. rewrite reverse_snoc.
  change (reverse [n]) with [n].
  rewrite !broadcast_rev_cons, Nat.eqb_refl, broadcast_rev_nil_r.
  cbn [broadcast_rev fmap option_fmap option_map].
  rewrite reverse_cons, reverse_involutive. split; reflexivity.
Qed.

Lemma broadcast_to_last_vector pre n w :
  is_vector n w →
  broadcast_to (pre ++ [n]) w = concat (replicate (size_of pre) (data w)).
Proof.
  intros [Hs Hl]. unfold broadcast_to, ndim. rewrite Hs.
  rewrite length_app. cbn [length].
  replace (length pre + 1 - 1) with (length pre) by lia.
  apply bcast_data_leading_many. rewrite size_of_singleton. exact Hl.
Qed.

Lemma binop_vector_last_axis (f : A → A → A) x w pre n :
  shape x = pre ++ [n] → wf x → is_vector n w →
  binop f w x =
  Ok (Array (pre ++ [n])
        (concat ((fun row => zip_with f (data w) row)
                   <$> chunks n (size_of pre) (data x)))).
Proof.
  intros Hs Hwf Hw. pose proof (wf_last_axis x pre n Hs Hwf) as Hd.
  unfold binop. rewrite Hs, (proj1 Hw).
  rewrite (proj2 (broadcast_shapes_last_vector pre n)).
  rewrite (broadcast_to_same _ x Hs Hwf), (broadcast_to_last_vector pre n w Hw).
  f_equal. f_equal.
  rewrite <- zip_with_flip.
  rewrite (zip_with_chunks_vector _ n (size_of pre)) by (exact Hd || apply Hw).
  f_equal. apply list_fmap_ext. intros _ row _. apply zip_with_flip.
Qed.

Lemma binop_last_axis_vector (f : A → A → A) x w pre n :
  shape x = pre ++ [n] → wf x → is_vector n w →
  binop f x w =
  Ok (Array (pre ++ [n])
        (concat ((fun row => zip_with f row (data w))
                   <$> chunks n (size_of pre) (data x)))).
Proof.
  intros Hs Hwf Hw. pose proof (wf_last_axis x pre n Hs Hwf) as Hd.
  unfold binop. rewrite Hs, (proj1 Hw).
  rewrite (proj1 (broadcast_shapes_last_vector pre n)).
  rewrite (broadcast_to_same _ x Hs Hwf), (broadcast_to_last_vector pre n w Hw).
  f_equal. f_equal.
  apply (zip_with_chunks_vector _ n (size_of pre)); [exact Hd | apply Hw].
Qed.

(** The affine transform acts on each row along the last axis. *)
Lemma affine_last_axis (weight bias : option (array A)) x pre n :
  shape x = pre ++ [n] → wf x → params_fit n weight bias →
  affine weight bias x =
  Ok (Array (pre ++ [n])
        (concat (affine_row weight bias
                   <$> chunks n (size_of pre) (data x)))).
Proof.
  intros Hs Hwf Hfit. pose proof (wf_last_axis x pre n Hs Hwf) as Hd.
  unfold affine, params_fit, affine_row in *.
  destruct weight as [w|].
  2:{ rewrite <- Hs, list_fmap_id, (concat_chunks n _ _ Hd).
      destruct x; reflexivity. }
  destruct bias as [b|]; [|contradiction]. destruct Hfit as [Hw Hb].
  unfold mul, add. rewrite (binop_vector_last_axis smul x w pre n Hs Hwf Hw).
  cbn [mbind result_bind].
  set (g := fun row : list A => zip_with smul (data w) row).
  assert (Hg : ∀ row, length row = n → length (g row) = n).
  { intros row Hrow. unfold g. rewrite length_zip_with, (proj2 Hw). lia. }
  assert (Hrows : Forall (fun c => length c = n)
                    (g <$> chunks n (size_of pre) (data x))).
  { apply Forall_fmap. eapply Forall_impl; [apply Forall_chunks_length, Hd|].
    intros c Hc. apply Hg, Hc. }
  set (wx := Array (pre ++ [n]) _).
  assert (Hwx : wf wx).
  { unfold wf, wx. cbn [shape data]. rewrite (length_concat_uniform n _ Hrows).
    rewrite length_fmap, length_chunks, size_of_app, size_of_singleton.
    reflexivity. }
  rewrite (binop_last_axis_vector sadd wx b pre n eq_refl Hwx Hb).
  do 3 f_equal. unfold wx. cbn [data].
  replace (size_of pre)
    with (length (g <$> chunks n (size_of pre) (data x))) at 1
    by (rewrite length_fmap, length_chunks; reflexivity).
  rewrite (chunks_concat n _ Hrows), <- list_fmap_compose. reflexivity.
Qed.

End VectorLastAxis.

(** ** LayerNorm: the whole call *)

(** X1: on an input whose last axis has the length [n] of the learned
    vectors (or without learned vectors), of any rank from one and also
    with an empty axis, LayerNorm returns an array of the shape of the
    input: each row along the last axis is normalized by its own mean and
    variance, then scaled and shifted feature by feature. *)
Theorem layer_norm_call_rows
    {A : Type} `{Scalar A} (self : LayerNorm.t A) (x : array A)
    (pre : list nat) (n : nat) :
  shape x = pre ++ [n] → wf x →
  params_fit n (LayerNorm.weight self) (LayerNorm.bias self) →
  LayerNorm.__call__ self x =
  Ok (Array (shape x)
        (concat ((fun row =>
                    affine_row (LayerNorm.weight self) (LayerNorm.bias self)
                      (normalize_row (LayerNorm.eps self) row))
                   <$> chunks n (size_of pre) (data x)))).
Proof.
  intros Hs Hwf Hfit. pose proof (wf_last_axis x pre n Hs Hwf) as Hd.
  unfold LayerNorm.__call__.
  rewrite (layer_norm_normalize_rows self x pre n Hs Hwf).
  cbn [mbind result_bind].
  set (eps := LayerNorm.eps self).
  set (y := Array (pre ++ [n]) _).
  assert (Hy : wf y).
  { unfold wf, y. cbn [shape data].
    rewrite (length_rowwise _ n _ _ Hd (length_normalize_row eps)).
    rewrite size_of_app, size_of_singleton. reflexivity. }
  rewrite (affine_last_axis _ _ y pre n eq_refl Hy Hfit), Hs.
  unfold y. cbn [data].
  rewrite (chunks_rowwise _ n _ _ Hd (length_normalize_row eps)).
  rewrite <- list_fmap_compose. reflexivity.
Qed.

(** X1, witness: two rows of three features, with weight and bias. *)
Lemma layer_norm_call_rows_witness :
  let self := LayerNorm.__init__ 3 default_eps true in
  shape example_batch = [2] ++ [3] ∧ wf example_batch ∧
  params_fit 3 (LayerNorm.weight self) (LayerNorm.bias self) ∧
  (shape <$> returned (LayerNorm.__call__ self example_batch))
    = Some [2; 3].
Proof.
  intros self.
  assert (Hfit : params_fit 3 (LayerNorm.weight self) (LayerNorm.bias self))
    by (repeat split; reflexivity).
  split; [reflexivity|]. split; [reflexivity|]. split; [exact Hfit|].
  rewrite (layer_norm_call_rows self example_batch [2] 3
             eq_refl eq_refl Hfit).
  reflexivity.
Defined.

Section RealLayerNorm.
Open Scope R_scope.
Implicit Types (row : list R) (c eps : R).

Lemma sum_list_add_constant c row :
  sum_list ((fun v => v + c) <$> row) = sum_list row + INR (length row) * c.
Proof.
  induction row as [|v row IH]; cbn [fmap list_fmap length].
  - cbn. ring.
  - rewrite !sum_list_cons, IH, S_INR. ring.
Qed.

Lemma mean_list_add_constant c row :
  row ≠ [] → mean_list ((fun v => v + c) <$> row) = mean_list row + c.
Proof.
  intros Hrow. rewrite !mean_list_unfold, sum_list_add_constant, length_fmap.
  assert (0 < INR (length row)).
  { apply lt_0_INR. destruct row; [congruence | cbn; lia]. }
  field. lra.
Qed.

Lemma var_list_add_constant c row :
  row ≠ [] → var_list ((fun v => v + c) <$> row) = var_list row.
Proof.
  intros Hrow. rewrite !var_list_unfold, mean_list_add_constant by exact Hrow.
  rewrite <- list_fmap_compose. f_equal.
  apply list_fmap_ext. intros _ v _. cbn. ring.
Qed.

Lemma normalize_row_add_constant eps c row :
  row ≠ [] →
  normalize_row eps ((fun v => v + c) <$> row) = normalize_row eps row.
Proof.
  intros Hrow. unfold normalize_row.
  rewrite mean_list_add_constant, var_list_add_constant by exact Hrow.
  rewrite <- list_fmap_compose.
  apply list_fmap_ext. intros _ v _. cbn. f_equal. ring.
Qed.

Lemma normalize_row_singleton eps v : normalize_row eps [v] = [0].
Proof.
  unfold normalize_row. cbn [fmap list_fmap]. f_equal.
  replace (mean_list [v]) with v.
  - cbn. ring.
  - rewrite mean_list_unfold. cbn. field.
Qed.

End RealLayerNorm.

(** X2: in exact arithmetic LayerNorm does not see a constant added to
    the input: for every input whose last axis is not empty,
    [LayerNorm(x + c) = LayerNorm(x)], whatever the learned vectors. *)
Theorem layer_norm_shift_invariant
    (self : LayerNorm.t R) (x : array R) (c : R) (pre : list nat) (n : nat) :
  shape x = pre ++ [S n] → wf x →
  LayerNorm.__call__ self (add_scalar x c) = LayerNorm.__call__ self x.
Proof.
  intros Hs Hwf. pose proof (wf_last_axis x pre (S n) Hs Hwf) as Hd.
  unfold LayerNorm.__call__.
  rewrite (layer_norm_normalize_rows self x pre (S n) Hs Hwf).
  rewrite (layer_norm_normalize_rows self (add_scalar x c) pre (S n) Hs)
    by (apply wf_map_array, Hwf).
  cbn [add_scalar map_array data]. rewrite chunks_fmap, <- list_fmap_compose.
  do 4 f_equal. apply Forall_fmap_ext.
  eapply Forall_impl; [apply (chunks_nonempty n), Hd|].
  intros row Hrow. cbn. apply normalize_row_add_constant, Hrow.
Qed.

(** X2, witness: the example batch shifted by 10. *)
Lemma layer_norm_shift_invariant_witness :
  let self := LayerNorm.__init__ 3 default_eps true in
  shape example_batch = [2] ++ [3] ∧ wf example_batch ∧
  LayerNorm.__call__ self (add_scalar example_batch 10%R)
    = LayerNorm.__call__ self example_batch.
Proof.
  intros self. split; [reflexivity|]. split; [reflexivity|].
  apply (layer_norm_shift_invariant self example_batch 10%R [2] 2);
    reflexivity.
Defined.

(** X3: in exact arithmetic and for a positive [eps], on an input whose
    last axis has one element the output of LayerNorm before the affine
    transform is zero everywhere, whatever the input holds: one feature is
    its own mean.  (With [eps = 0] the layer multiplies zero by the
    reciprocal square root of zero.) *)
Theorem layer_norm_single_feature_zero
    (self : LayerNorm.t R) (x : array R) (pre : list nat) :
  shape x = pre ++ [1] → wf x → (0 < LayerNorm.eps self)%R →
  LayerNorm.normalize self x = Ok (zeros (shape x)).
Proof.
  intros Hs Hwf _. pose proof (wf_last_axis x pre 1 Hs Hwf) as Hd.
  rewrite (layer_norm_normalize_rows self x pre 1 Hs Hwf), Hs.
  unfold zeros, full. do 2 f_equal.
  rewrite size_of_app, size_of_singleton, Nat.mul_1_r.
  set (R := chunks 1 (size_of pre) (data x)).
  assert (HR : Forall (fun c => length c = 1) R)
    by apply Forall_chunks_length, Hd.
  replace (size_of pre) with (length R) by apply length_chunks.
  clearbody R. induction HR as [|row R Hrow _ IH]; [reflexivity|].
  destruct row as [|v [|? ?]]; try discriminate.
  cbn [fmap list_fmap concat length replicate].
  rewrite normalize_row_singleton, IH. reflexivity.
Qed.

(** X3, witness: three rows of one feature. *)
Lemma layer_norm_single_feature_zero_witness :
  let self := LayerNorm.__init__ 1 default_eps false in
  let x := Array [3; 1] [4; 5; 9]%R in
  shape x = [3] ++ [1] ∧ wf x ∧ (0 < LayerNorm.eps self)%R ∧
  LayerNorm.normalize self x = Ok (zeros [3; 1]).
Proof.
  intros self x.
  assert (Heps : (0 < LayerNorm.eps self)%R).
  { cbn. unfold default_eps, sdiv, s1, sof_Z, R_Scalar. lra. }
  split; [reflexivity|]. split; [reflexivity|]. split; [exact Heps|].
  apply (layer_norm_single_feature_zero self x [3] eq_refl eq_refl Heps).
Defined.

(** ** RMSNorm: the whole call and its errors *)

(** What RMSNorm returns, row by row along the last axis. *)
Lemma rms_norm_rows
    {A : Type} `{Scalar A} (self : RMSNorm.t A) (x : array A)
    (pre : list nat) (n : nat) :
  shape x = pre ++ [S n] → wf x → is_vector (S n) (RMSNorm.weight self) →
  RMSNorm.__call__ self x =
  Ok (Array (shape x)
        (concat (rms_norm_row (RMSNorm.eps self) (data (RMSNorm.weight self))
                   <$> chunks (S n) (size_of pre) (data x)))).
Proof.
  intros Hs Hwf Hw. pose proof (wf_last_axis x pre (S n) Hs Hwf) as Hd.
  unfold RMSNorm.__call__, RMSNorm.scale.
  rewrite Hs, last_snoc. cbn [mbind result_bind].
  set (S' := sdiv s1 (ssqrt (sof_nat (S n)))).
  set (eps := RMSNorm.eps self). set (w := RMSNorm.weight self) in *.
  unfold sum.
  rewrite (reduce_last _ (square (mul_scalar x S')) pre (S n) Hs)
    by (unfold square, mul_scalar; do 2 apply wf_map_array; exact Hwf).
  cbn [mbind result_bind square mul_scalar map_array data].
  unfold mul. rewrite (binop_vector_last_axis smul x w pre (S n) Hs Hwf Hw).
  cbn [mbind result_bind].
  set (g := fun row : list A => zip_with smul (data w) row).
  assert (Hrows : Forall (fun c => length c = S n)
                    (g <$> chunks (S n) (size_of pre) (data x))).
  { apply Forall_fmap. eapply Forall_impl; [apply Forall_chunks_length, Hd|].
    intros c Hc. unfold compose, g. cbn beta in Hc.
    rewrite length_zip_with, (proj2 Hw), Hc. lia. }
  set (wx := Array (pre ++ [S n]) _).
  assert (Hwx : wf wx).
  { unfold wf, wx. cbn [shape data].
    rewrite (length_concat_uniform (S n) _ Hrows).
    rewrite length_fmap, length_chunks, size_of_app, size_of_singleton.
    reflexivity. }
  unfold rsqrt, add_scalar, map_array. cbn [shape data].
  match goal with
  | |- binop smul wx ?r = _ =>
      assert (Hr : wf r);
      [|rewrite (binop_last_axis smul wx r pre (S n) eq_refl Hwx eq_refl Hr)]
  end.
  { unfold wf. cbn [shape data].
    rewrite !length_fmap, length_chunks, size_of_app, size_of_singleton. lia. }
  do 2 f_equal. unfold wx. cbn [data].
  replace (size_of pre)
    with (length (g <$> chunks (S n) (size_of pre) (data x))) at 1
    by (rewrite length_fmap, length_chunks; reflexivity).
  rewrite (chunks_concat (S n) _ Hrows).
  rewrite !chunks_fmap, <- !list_fmap_compose.
  rewrite zip_with_fmap_l, zip_with_fmap_r, zip_with_diag.
  f_equal. apply Forall_fmap_ext.
  eapply Forall_impl; [apply Forall_chunks_length, Hd|].
  intros row Hrow. cbn beta in Hrow. unfold rms_norm_row, g, compose.
  rewrite Hrow. fold S'. rewrite <- list_fmap_compose. reflexivity.
Qed.

(** X4: on an input of any rank from one whose last axis has the length
    [n > 0] of the weight, RMSNorm returns an array of the shape of the
    input, and each row along the last axis is the row times the weight,
    feature by feature, times the reciprocal square root of [eps] plus the
    scaled sum of the squares of that row alone. *)
Theorem rms_norm_call_rows
    {A : Type} `{Scalar A} (self : RMSNorm.t A) (x : array A)
    (pre : list nat) (n : nat) :
  shape x = pre ++ [S n] → wf x → is_vector (S n) (RMSNorm.weight self) →
  RMSNorm.__call__ self x =
  Ok (Array (shape x)
        (concat (rms_norm_row (RMSNorm.eps self) (data (RMSNorm.weight self))
                   <$> chunks (S n) (size_of pre) (data x)))).
Proof. apply rms_norm_rows. Qed.

(** X4, witness: two rows of three elements. *)
Lemma rms_norm_call_rows_witness :
  let self := RMSNorm.__init__ 3 default_eps in
  shape example_batch = [2] ++ [3] ∧ wf example_batch ∧
  is_vector 3 (RMSNorm.weight self) ∧
  (shape <$> returned (RMSNorm.__call__ self example_batch)) = Some [2; 3].
Proof.
  intros self.
  assert (Hw : is_vector 3 (RMSNorm.weight self)) by (split; reflexivity).
  split; [reflexivity|]. split; [reflexivity|]. split; [exact Hw|].
  rewrite (rms_norm_call_rows self example_batch [2] 2 eq_refl eq_refl Hw).
  reflexivity.
Defined.

Section RMSNormErrors.
Context {A : Type} `{Scalar A}.

Lemma last_Some_snoc (s : list nat) (n : nat) :
  last s = Some n → ∃ pre, s = pre ++ [n].
Proof.
  intros Hl. destruct (last_is_Some s) as [Hs _].
  destruct s as [|m s] using rev_ind; [discriminate|].
  rewrite last_snoc in Hl. injection Hl as ->. exists s. reflexivity.
Qed.

Lemma broadcast_rev_one_absorbed (h : nat) (r tl : list nat) :
  broadcast_rev r tl = Some r →
  broadcast_rev (h :: r) (1 :: tl) = Some (h :: r).
Proof.
  intros Hr. rewrite broadcast_rev_cons, Hr, orb_true_r, Nat.mul_1_r.
  destruct (h =? 1); reflexivity.
Qed.

(** A shape that came out of broadcasting against [b] absorbs [b], and
    also [b] with its last extent reduced to 1. *)
Lemma broadcast_rev_absorb (a b r : list nat) :
  broadcast_rev a b = Some r → broadcast_rev r b = Some r.
Proof.
  revert b r. induction a as [|x a IH]; intros b r Hr.
  - cbn in Hr. injection Hr as <-. apply broadcast_rev_refl.
  - destruct b as [|y b].
    + cbn in Hr. injection Hr as <-. reflexivity.
    + rewrite broadcast_rev_cons in Hr.
      destruct (broadcast_rev a b) as [r'|] eqn:Hab.
      2:{ destruct (x =? y); [discriminate|].
          destruct ((x =? 1) || (y =? 1)); discriminate. }
      apply IH in Hab.
      destruct (Nat.eqb_spec x y) as [->|Hxy].
      * injection Hr as <-.
        rewrite broadcast_rev_cons, Nat.eqb_refl, Hab. reflexivity.
      * destruct (Nat.eqb_spec x 1) as [->|Hx1]; cbn [orb] in Hr.
        { rewrite Nat.mul_1_l in Hr. injection Hr as <-.
          rewrite broadcast_rev_cons, Nat.eqb_refl, Hab. reflexivity. }
        destruct (Nat.eqb_spec y 1) as [->|Hy1]; [|discriminate].
        rewrite Nat.mul_1_r in Hr. injection Hr as <-.
        apply broadcast_rev_one_absorbed, Hab.
Qed.

Lemma broadcast_rev_absorb_reduced (a tl r : list nat) (n : nat) :
  broadcast_rev a (n :: tl) = Some r → broadcast_rev r (1 :: tl) = Some r.
Proof.
  destruct a as [|x a]; intros Hr.
  - cbn in Hr. injection Hr as <-. apply broadcast_rev_one_r.
  - rewrite broadcast_rev_cons in Hr.
    destruct (broadcast_rev a tl) as [r'|] eqn:Hab.
    2:{ destruct (x =? n); [discriminate|].
        destruct ((x =? 1) || (n =? 1)); discriminate. }
    apply broadcast_rev_absorb in Hab.
    destruct (x =? n).
    + injection Hr as <-. apply broadcast_rev_one_absorbed, Hab.
    + destruct ((x =? 1) || (n =? 1)); [|discriminate].
      injection Hr as <-. apply broadcast_rev_one_absorbed, Hab.
Qed.

Lemma broadcast_shapes_reduced_last (w pre s : list nat) (n : nat) :
  broadcast_shapes w (pre ++ [n]) = Some s →
  broadcast_shapes s (pre ++ [1]) = Some s.
Proof.
  unfold broadcast_shapes. rewrite !reverse_snoc. intros Hs.
  destruct (broadcast_rev (reverse w) (n :: reverse pre)) as [r|] eqn:Hr;
    [|discriminate].
  injection Hs as <-. rewrite reverse_involutive.
  rewrite (broadcast_rev_absorb_reduced _ _ _ _ Hr). reflexivity.
Qed.

(** On an input whose last axis is not empty the call returns exactly
    when the weight broadcasts against the input, and raises [ValueError]
    otherwise. *)
Lemma rms_norm_nonempty_axis (self : RMSNorm.t A) (x : array A)
    (pre : list nat) (n : nat) :
  shape x = pre ++ [S n] →
  match broadcast_shapes (shape (RMSNorm.weight self)) (shape x) with
  | Some s => ∃ out, RMSNorm.__call__ self x = Ok out ∧ shape out = s
  | None => RMSNorm.__call__ self x = Raise ValueError
  end.
Proof.
  intros Hs. unfold RMSNorm.__call__, RMSNorm.scale.
  rewrite Hs, last_snoc. cbn [mbind result_bind].
  set (S' := sdiv s1 (ssqrt (sof_nat (S n)))).
  unfold sum, reduce, ndim. cbn [square mul_scalar map_array shape].
  rewrite Hs, length_app, Nat.add_1_r, normalize_axis_last.
  cbn [mbind result_bind]. rewrite insert_last_one.
  destruct (broadcast_shapes (shape (RMSNorm.weight self)) (pre ++ [S n]))
    as [s|] eqn:Hb.
  - assert (Hm : ∃ d, mul (RMSNorm.weight self) x = Ok (Array s d)).
    { unfold mul, binop. rewrite Hs, Hb. eexists. reflexivity. }
    destruct Hm as [d ->]. cbn [mbind result_bind].
    unfold mul, binop. cbn [shape rsqrt add_scalar map_array].
    rewrite (broadcast_shapes_reduced_last _ _ _ _ Hb).
    eexists. split; reflexivity.
  - assert (Hm : mul (RMSNorm.weight self) x = Raise ValueError).
    { unfold mul, binop. rewrite Hs, Hb. reflexivity. }
    rewrite Hm. reflexivity.
Qed.

End RMSNormErrors.

(** X5: RMSNorm raises [IndexError] exactly on the arrays of rank zero,
    [ZeroDivisionError] exactly on the arrays whose last axis is empty,
    where [1 / x.shape[-1] ** 0.5] divides by zero, and [ValueError]
    exactly on the arrays whose last axis is not empty and against whose
    shape the shape of the weight does not broadcast; in every other case
    the call returns an array, of the shape the two broadcast to. *)
Theorem rms_norm_errors
    {A : Type} `{Scalar A} (self : RMSNorm.t A) (x : array A) :
  (RMSNorm.__call__ self x = Raise IndexError ↔ shape x = []) ∧
  (RMSNorm.__call__ self x = Raise ZeroDivisionError ↔
   last (shape x) = Some 0) ∧
  (RMSNorm.__call__ self x = Raise ValueError ↔
   (∃ n, last (shape x) = Some (S n)) ∧
   broadcast_shapes (shape (RMSNorm.weight self)) (shape x) = None) ∧
  (∀ n s, last (shape x) = Some (S n) →
     broadcast_shapes (shape (RMSNorm.weight self)) (shape x) = Some s →
     ∃ out, RMSNorm.__call__ self x = Ok out ∧ shape out = s) ∧
  (∀ e, RMSNorm.__call__ self x = Raise e →
        e = IndexError ∨ e = ZeroDivisionError ∨ e = ValueError).
Proof.
  destruct (last (shape x)) as [[|n]|] eqn:Hl.
  - assert (Hc : RMSNorm.__call__ self x = Raise ZeroDivisionError).
    { unfold RMSNorm.__call__, RMSNorm.scale. rewrite Hl. reflexivity. }
    rewrite Hc. split; [|split; [|split; [|split]]].
    + split; [discriminate|]. intros Hs. rewrite Hs in Hl. discriminate.
    + split; reflexivity.
    + split; [discriminate|]. intros [[m Hm] _]. discriminate.
    + intros m s Hm. discriminate.
    + intros e [= <-]. auto.
  - destruct (last_Some_snoc _ _ Hl) as [pre Hs].
    pose proof (rms_norm_nonempty_axis self x pre n Hs) as Hcall.
    assert (Hne : shape x ≠ []).
    { rewrite Hs. destruct pre; discriminate. }
    destruct (broadcast_shapes (shape (RMSNorm.weight self)) (shape x))
      as [s|] eqn:Hb.
    + destruct Hcall as (out & Hout & Hos). rewrite Hout.
      split; [|split; [|split; [|split]]].
      * split; [discriminate | contradiction].
      * split; discriminate.
      * split; [discriminate|]. intros [_ Hnone]. discriminate.
      * intros m s' _ [= <-]. exists out. split; [reflexivity | exact Hos].
      * discriminate.
    + rewrite Hcall. split; [|split; [|split; [|split]]].
      * split; [discriminate | contradiction].
      * split; discriminate.
      * split; [|reflexivity]. intros _. split; [exists n|]; reflexivity.
      * intros m s' _. discriminate.
      * intros e [= <-]. auto.
  - assert (Hc : RMSNorm.__call__ self x = Raise IndexError).
    { unfold RMSNorm.__call__, RMSNorm.scale. rewrite Hl. reflexivity. }
    rewrite Hc. split; [|split; [|split; [|split]]].
    + split; [|reflexivity]. intros _.
      destruct (shape x) as [|m s] using rev_ind; [reflexivity|].
      rewrite last_snoc in Hl. discriminate.
    + split; discriminate.
    + split; [discriminate|]. intros [[m Hm] _]. discriminate.
    + intros m s Hm. discriminate.
    + intros e [= <-]. auto.
Qed.

(** X5, witness: an array of rank zero, one whose last axis is empty, and
    a weight of three values against rows of two elements. *)
Lemma rms_norm_errors_witness :
  let self := RMSNorm.__init__ 3 default_eps in
  RMSNorm.__call__ self (Array [] [1%R]) = Raise IndexError ∧
  RMSNorm.__call__ self (Array [2; 0] []) = Raise ZeroDivisionError ∧
  RMSNorm.__call__ self (Array [1; 2] [1; 2]%R) = Raise ValueError ∧
  ∃ out, RMSNorm.__call__ self example_batch = Ok out ∧ shape out = [2; 3].
Proof.
  intros self. split; [|split; [|split]].
  - apply (proj1 (rms_norm_errors self (Array [] [1%R]))). reflexivity.
  - apply (proj1 (proj2 (rms_norm_errors self (Array [2; 0] [])))).
    reflexivity.
  - apply (proj1 (proj2 (proj2
             (rms_norm_errors self (Array [1; 2] [1; 2]%R))))).
    split; [exists 1|]; reflexivity.
  - apply (proj1 (proj2 (proj2 (proj2
             (rms_norm_errors self example_batch)))) 2 [2; 3]);
      reflexivity.
Defined.

(** ** BatchNorm1d: more on calls in training mode *)

Section BatchNormMore.
Context {A : Type} `{Scalar A}.
Implicit Types (self : BatchNorm1d.t A) (x : array A) (B F : nat).

(** What a call in training mode returns, element by element. *)
Lemma batchnorm1d_training_output self x B F :
  BatchNorm1d.training self = true → shape x = [B; F] → wf x →
  bn_fits F self →
  ∃ out,
    snd (BatchNorm1d.__call__ x self) = Ok out ∧ shape out = [B; F] ∧
    wf out ∧
    ∀ b j, b < B → j < F →
      item out (b * F + j) =
      affine_item (BatchNorm1d.weight self) (BatchNorm1d.bias self) j
        (smul (ssub (item x (b * F + j))
                    (mean_list (column F B (data x) j)))
              (srsqrt (sadd (var_list (column F B (data x) j))
                            (BatchNorm1d.eps self)))).
Proof.
  intros Ht Hs Hwf (Hm & Hv & Hok).
  destruct (batchnorm1d_training_state self x B F Ht Hs Hm Hv)
    as (nm & nv & _ & _ & _ & ->).
  destruct (forward_rows x (batch_stat mean_list x B F)
              (batch_stat var_list x B F) (BatchNorm1d.eps self)
              (BatchNorm1d.weight self) (BatchNorm1d.bias self) B F
              Hs Hwf (vector_like_batch_stat _ _ _ _)
              (vector_like_batch_stat _ _ _ _) Hok)
    as (out & Hout & Hos & Hoi).
  exists out. split; [exact Hout|]. split; [exact Hos|]. split.
  - destruct (normalized_rows x (batch_stat mean_list x B F)
                (batch_stat var_list x B F) (BatchNorm1d.eps self) B F
                Hs Hwf (vector_like_batch_stat _ _ _ _)
                (vector_like_batch_stat _ _ _ _))
      as (xn & Hxn & Hxs & Hxw & _).
    rewrite Hxn in Hout. cbn [mbind result_bind] in Hout.
    unfold affine in Hout.
    destruct (BatchNorm1d.weight self) as [w|]; [|injection Hout as <-; exact Hxw].
    destruct (mul w xn) as [wx|] eqn:Hmul; [|discriminate].
    cbn [mbind result_bind] in Hout.
    destruct (BatchNorm1d.bias self) as [bi|]; [|discriminate].
    destruct Hok as [Hw Hb].
    apply binop_wf in Hmul as [Hwxw _]; [|apply Hw|exact Hxw].
    apply binop_wf in Hout as [Houtw _]; [exact Houtw|exact Hwxw|apply Hb].
  - intros b j Hb Hj. rewrite (Hoi b j Hb Hj), !item_batch_stat by exact Hj.
    reflexivity.
Qed.

End BatchNormMore.

(** X6: the update of the running statistics is not atomic: when the
    running variance does not broadcast against the statistics of the
    batch and the running mean does, a call in training mode raises
    [ValueError] after [running_mean] has been assigned its moving
    average; the rest of the module is as before. *)
Theorem batchnorm1d_failed_update_keeps_new_mean
    {A : Type} `{Scalar A} (self : BatchNorm1d.t A) (x : array A)
    (B F : nat) :
  BatchNorm1d.training self = true → shape x = [B; F] →
  vector_like F (BatchNorm1d.running_mean self) →
  broadcast_shapes (shape (BatchNorm1d.running_var self)) [1; F] = None →
  ∃ new_mean,
    ema (BatchNorm1d.momentum self) (BatchNorm1d.running_mean self)
        (batch_stat mean_list x B F) = Ok new_mean ∧
    BatchNorm1d.__call__ x self =
      (BatchNorm1d.with_running_mean new_mean self, Raise ValueError).
Proof.
  intros Ht Hs Hm Hv.
  assert (Hr : ndim x = 2) by (unfold ndim; rewrite Hs; reflexivity).
  rewrite (batchnorm1d_call_training self x _ _ Hr Ht
             (batch_mean x B F Hs) (batch_var x B F Hs)).
  destruct (ema_vectors (BatchNorm1d.momentum self) _
              (batch_stat mean_list x B F) F Hm eq_refl)
    as (nm & Hnm & _); [apply vector_like_batch_stat|].
  exists nm. split; [exact Hnm|]. rewrite Hnm.
  unfold ema at 1, add, binop. cbn [scalar_mul map_array shape batch_stat].
  rewrite Hv. reflexivity.
Qed.

(** X6, witness: a module of three features whose running variance was
    replaced by a vector of two values. *)
Lemma batchnorm1d_failed_update_keeps_new_mean_witness :
  let self := BatchNorm1d.with_running_var (ones [2]) example_module in
  BatchNorm1d.training self = true ∧ shape example_batch = [2; 3] ∧
  vector_like 3 (BatchNorm1d.running_mean self) ∧
  broadcast_shapes (shape (BatchNorm1d.running_var self)) [1; 3] = None ∧
  ∃ new_mean,
    BatchNorm1d.__call__ example_batch self =
      (BatchNorm1d.with_running_mean new_mean self, Raise ValueError).
Proof.
  intros self.
  assert (Hm : vector_like 3 (BatchNorm1d.running_mean self))
    by (split; [reflexivity | left; reflexivity]).
  split; [reflexivity|]. split; [reflexivity|]. split; [exact Hm|].
  split; [reflexivity|].
  destruct (batchnorm1d_failed_update_keeps_new_mean self example_batch 2 3
              eq_refl eq_refl Hm eq_refl) as (nm & _ & Hcall).
  exists nm. exact Hcall.
Defined.

(** X7: two calls in training mode compose their moving averages: after
    the batches [x1] and [x2] each running statistic is
    [m * (m * old + (1 - m) * stat(x1)) + (1 - m) * stat(x2)], feature by
    feature, and the second call finds the running statistics with the
    shape [(1, F)] the first one left. *)
Theorem batchnorm1d_two_training_calls
    {A : Type} `{Scalar A} (self : BatchNorm1d.t A) (x1 x2 : array A)
    (B1 B2 F : nat) :
  BatchNorm1d.training self = true →
  shape x1 = [B1; F] → shape x2 = [B2; F] →
  vector_like F (BatchNorm1d.running_mean self) →
  vector_like F (BatchNorm1d.running_var self) →
  let self1 := fst (BatchNorm1d.__call__ x1 self) in
  let self2 := fst (BatchNorm1d.__call__ x2 self1) in
  let m := BatchNorm1d.momentum self in
  shape (BatchNorm1d.running_mean self1) = [1; F] ∧
  shape (BatchNorm1d.running_mean self2) = [1; F] ∧
  ∀ j, j < F →
    item (BatchNorm1d.running_mean self2) j =
      sadd (smul m
              (sadd (smul m (item (BatchNorm1d.running_mean self) j))
                    (smul (ssub s1 m) (mean_list (column F B1 (data x1) j)))))
           (smul (ssub s1 m) (mean_list (column F B2 (data x2) j))) ∧
    item (BatchNorm1d.running_var self2) j =
      sadd (smul m
              (sadd (smul m (item (BatchNorm1d.running_var self) j))
                    (smul (ssub s1 m) (var_list (column F B1 (data x1) j)))))
           (smul (ssub s1 m) (var_list (column F B2 (data x2) j))).
Proof.
  intros Ht Hs1 Hs2 Hm Hv self1 self2 m.
  destruct (batchnorm1d_training_rows self x1 B1 F Ht Hs1 Hm Hv)
    as ((Hms & Hmw & Hvs & Hvw) & (_ & _ & _ & _ & Hmom & Htr) & Hi1).
  fold self1 in Hms, Hmw, Hvs, Hvw, Hmom, Htr, Hi1.
  assert (Ht1 : BatchNorm1d.training self1 = true) by congruence.
  destruct (batchnorm1d_training_rows self1 x2 B2 F Ht1 Hs2
              (vector_like_flat F _ Hms Hmw) (vector_like_flat F _ Hvs Hvw))
    as ((Hms2 & _) & _ & Hi2).
  fold self2 in Hms2, Hi2. rewrite Hmom in Hi2. fold m in Hi1, Hi2.
  split; [exact Hms|]. split; [exact Hms2|].
  intros j Hj. destruct (Hi2 j Hj) as [-> ->].
  destruct (Hi1 j Hj) as [-> ->]. split; reflexivity.
Qed.

(** X7, witness: the example module called twice on the example batch. *)
Lemma batchnorm1d_two_training_calls_witness :
  let self1 := fst (BatchNorm1d.__call__ example_batch example_module) in
  let self2 := fst (BatchNorm1d.__call__ example_batch self1) in
  BatchNorm1d.training example_module = true ∧
  shape example_batch = [2; 3] ∧
  shape (BatchNorm1d.running_mean self1) = [1; 3] ∧
  shape (BatchNorm1d.running_mean self2) = [1; 3].
Proof.
  intros self1 self2. split; [reflexivity|]. split; [reflexivity|].
  destruct (batchnorm1d_two_training_calls example_module
              example_batch example_batch 2 2 3 eq_refl eq_refl eq_refl
              (proj1 (bn_fits_example true))
              (proj1 (proj2 (bn_fits_example true))))
    as (H1 & H2 & _).
  split; assumption.
Defined.

(** ** BatchNorm1d: the statistics of what a call returns *)

Lemma nth_replicate_lt {A} (n j : nat) (v d0 : A) :
  j < n → nth j (replicate n v) d0 = v.
Proof.
  revert j. induction n as [|n IH]; intros [|j] Hj; cbn; try lia;
    [reflexivity|].
  apply IH. lia.
Qed.

Section BatchColumns.
Context {A : Type} `{Scalar A}.

(** A column of an array whose elements are a function of those of
    another. *)
Lemma column_fmap (g : A → A) (F B : nat) (d d' : list A) (j : nat) :
  (∀ b, b < B → nth (b * F + j) d' s0 = g (nth (b * F + j) d s0)) →
  column F B d' j = g <$> column F B d j.
Proof.
  intros Hg. unfold column. rewrite <- list_fmap_compose.
  apply list_fmap_ext. intros k b Hk.
  apply lookup_seq in Hk as [-> Hlt]. cbn. apply Hg. lia.
Qed.

Lemma column_nonempty (F B : nat) (d : list A) (j : nat) :
  column F (S B) d j ≠ [].
Proof. unfold column. cbn [seq fmap list_fmap]. discriminate. Qed.

Lemma column_single_row (F : nat) (d : list A) (j : nat) :
  column F 1 d j = [nth j d s0].
Proof. reflexivity. Qed.

Lemma item_full (s : list nat) (v : A) (j : nat) :
  j < size_of s → item (full s v) j = v.
Proof. intros Hj. unfold item, full. cbn [data]. apply nth_replicate_lt, Hj. Qed.

End BatchColumns.

Section RealBatchNorm.
Open Scope R_scope.
Implicit Types (l : list R) (c w eps : R).

Lemma var_list_scale c l :
  var_list ((fun v => v * c) <$> l) = var_list l * (c * c).
Proof.
  rewrite !var_list_unfold, mean_list_scale, <- list_fmap_compose.
  rewrite <- (mean_list_scale (c * c)), <- list_fmap_compose. f_equal.
  apply list_fmap_ext. intros _ v _. cbn. ring.
Qed.

(** Mean and variance of a list scaled by [w] and shifted by [c]. *)
Lemma mean_list_affine w c l :
  l ≠ [] → mean_list ((fun v => w * v + c) <$> l) = w * mean_list l + c.
Proof.
  intros Hl.
  transitivity (mean_list ((fun v => v + c) <$> ((fun v => v * w) <$> l))).
  - rewrite <- list_fmap_compose. f_equal.
    apply list_fmap_ext. intros _ v _. cbn. ring.
  - rewrite mean_list_add_constant, mean_list_scale.
    + ring.
    + destruct l; [congruence | discriminate].
Qed.

Lemma var_list_affine w c l :
  l ≠ [] → var_list ((fun v => w * v + c) <$> l) = w * w * var_list l.
Proof.
  intros Hl.
  transitivity (var_list ((fun v => v + c) <$> ((fun v => v * w) <$> l))).
  - rewrite <- list_fmap_compose. f_equal.
    apply list_fmap_ext. intros _ v _. cbn. ring.
  - rewrite var_list_add_constant, var_list_scale.
    + ring.
    + destruct l; [congruence | discriminate].
Qed.

Lemma mean_list_singleton (v : R) : mean_list [v] = v.
Proof. rewrite mean_list_unfold. cbn. field. Qed.

Lemma var_list_singleton (v : R) : var_list [v] = 0.
Proof.
  rewrite var_list_unfold. cbn [fmap list_fmap].
  rewrite !mean_list_singleton. ring.
Qed.

End RealBatchNorm.

(** X8: in exact arithmetic, for a batch of at least one row and a
    positive [eps], what a call in training mode returns has, feature by
    feature over the batch, the mean [bias] and the variance
    [weight² * var / (var + eps)], where [var] is the variance of the
    feature in the input; without learned vectors the mean is zero and the
    variance [var / (var + eps)]. *)
Theorem batchnorm1d_training_output_statistics
    (self : BatchNorm1d.t R) (x : array R) (B F : nat) :
  BatchNorm1d.training self = true → shape x = [S B; F] → wf x →
  bn_fits F self → (0 < BatchNorm1d.eps self)%R →
  ∃ out,
    snd (BatchNorm1d.__call__ x self) = Ok out ∧
    ∀ j, j < F →
      let v := var_list (column F (S B) (data x) j) in
      let r := (v / (v + BatchNorm1d.eps self))%R in
      let col := column F (S B) (data out) j in
      match BatchNorm1d.weight self, BatchNorm1d.bias self with
      | Some w, Some b =>
          mean_list col = item b j ∧
          var_list col = (item w j * item w j * r)%R
      | _, _ => mean_list col = 0%R ∧ var_list col = r
      end.
Proof.
  intros Ht Hs Hwf Hfit Heps.
  destruct (batchnorm1d_training_output self x (S B) F Ht Hs Hwf Hfit)
    as (out & Hout & _ & _ & Hi).
  exists out. split; [exact Hout|]. intros j Hj v r col.
  set (xc := column F (S B) (data x) j) in *.
  assert (Hne : xc ≠ []) by apply column_nonempty.
  assert (Hcol : col =
    affine_item (BatchNorm1d.weight self) (BatchNorm1d.bias self) j
      <$> normalize_row (BatchNorm1d.eps self) xc).
  { unfold col, normalize_row. rewrite <- list_fmap_compose.
    apply column_fmap. intros b Hb. apply (Hi b j Hb Hj). }
  pose proof (mean_list_normalize_row (BatchNorm1d.eps self) xc Hne) as Hmean.
  pose proof (var_list_normalize_row (BatchNorm1d.eps self) xc Hne Heps)
    as Hvar.
  assert (Hnn : normalize_row (BatchNorm1d.eps self) xc ≠ []).
  { unfold normalize_row. destruct xc; [congruence | discriminate]. }
  fold v in Hvar. fold r in Hvar.
  unfold affine_item in Hcol.
  destruct (BatchNorm1d.weight self) as [w|];
    [destruct (BatchNorm1d.bias self) as [b|]|].
  - rewrite Hcol. cbn [sadd smul R_Scalar].
    rewrite mean_list_affine, var_list_affine, Hmean, Hvar by exact Hnn.
    split; ring.
  - rewrite Hcol, list_fmap_id. split; assumption.
  - rewrite Hcol, list_fmap_id. split; assumption.
Qed.

(** X8, witness: the example module on the example batch. *)
Lemma batchnorm1d_training_output_statistics_witness :
  BatchNorm1d.training example_module = true ∧
  shape example_batch = [2; 3] ∧ wf example_batch ∧
  bn_fits 3 example_module ∧ (0 < BatchNorm1d.eps example_module)%R ∧
  ∃ out, snd (BatchNorm1d.__call__ example_batch example_module) = Ok out ∧
    mean_list (column 3 2 (data out) 0) = 0%R.
Proof.
  assert (Heps : (0 < BatchNorm1d.eps example_module)%R).
  { cbn. unfold default_eps, sdiv, s1, sof_Z, R_Scalar. lra. }
  split; [reflexivity|]. split; [reflexivity|]. split; [reflexivity|].
  split; [apply (bn_fits_example true)|]. split; [exact Heps|].
  destruct (batchnorm1d_training_output_statistics example_module
              example_batch 1 3 eq_refl eq_refl eq_refl
              (bn_fits_example true) Heps) as (out & Hout & Hstat).
  exists out. split; [exact Hout|].
  destruct (Hstat 0 ltac:(lia)) as [Hm _]. rewrite Hm.
  unfold item, zeros, full. cbn. reflexivity.
Defined.

(** X9: in exact arithmetic and for a positive [eps] a batch of one row
    is its own mean: a call in training mode returns the bias (zero
    without learned vectors) whatever the row holds, and since the
    variance of one row is zero the running variance is multiplied by the
    momentum.  (With [eps = 0] the layer multiplies zero by the reciprocal
    square root of zero.) *)
Theorem batchnorm1d_single_row_batch
    (self : BatchNorm1d.t R) (x : array R) (F : nat) :
  BatchNorm1d.training self = true → shape x = [1; F] → wf x →
  bn_fits F self → (0 < BatchNorm1d.eps self)%R →
  ∃ out,
    snd (BatchNorm1d.__call__ x self) = Ok out ∧ shape out = [1; F] ∧
    ∀ j, j < F →
      item out j =
        affine_item (BatchNorm1d.weight self) (BatchNorm1d.bias self) j 0%R ∧
      item (BatchNorm1d.running_var (fst (BatchNorm1d.__call__ x self))) j =
        (BatchNorm1d.momentum self * item (BatchNorm1d.running_var self) j)%R.
Proof.
  intros Ht Hs Hwf Hfit _.
  destruct (batchnorm1d_training_output self x 1 F Ht Hs Hwf Hfit)
    as (out & Hout & Hos & _ & Hi).
  destruct Hfit as (Hm & Hv & _).
  destruct (batchnorm1d_training_rows self x 1 F Ht Hs Hm Hv)
    as (_ & _ & Hrun).
  exists out. split; [exact Hout|]. split; [exact Hos|].
  intros j Hj. split.
  - pose proof (Hi 0 j ltac:(lia) Hj) as Hj0. cbn [Nat.mul Nat.add] in Hj0.
    rewrite Hj0, column_single_row, mean_list_singleton. f_equal.
    unfold item. cbn [ssub smul R_Scalar]. ring.
  - destruct (Hrun j Hj) as [_ ->].
    rewrite column_single_row, var_list_singleton.
    cbn [sadd smul ssub s1 R_Scalar]. ring.
Qed.

(** X9, witness: the example module on the first row of the example
    batch. *)
Lemma batchnorm1d_single_row_batch_witness :
  let x := Array [1; 3] [1; 2; 3]%R in
  BatchNorm1d.training example_module = true ∧ shape x = [1; 3] ∧ wf x ∧
  bn_fits 3 example_module ∧ (0 < BatchNorm1d.eps example_module)%R ∧
  ∃ out, snd (BatchNorm1d.__call__ x example_module) = Ok out ∧
    item out 0 = (1 * 0 + 0)%R.
Proof.
  intros x.
  assert (Heps : (0 < BatchNorm1d.eps example_module)%R).
  { cbn. unfold default_eps, sdiv, s1, sof_Z, R_Scalar. lra. }
  split; [reflexivity|]. split; [reflexivity|]. split; [reflexivity|].
  split; [apply (bn_fits_example true)|]. split; [exact Heps|].
  destruct (batchnorm1d_single_row_batch example_module x 3
              eq_refl eq_refl eq_refl (bn_fits_example true) Heps)
    as (out & Hout & _ & Hi).
  exists out. split; [exact Hout|].
  destruct (Hi 0 ltac:(lia)) as [-> _]. reflexivity.
Defined.

(** X10: in exact arithmetic a module as its constructor leaves it, put
    in evaluation mode, returns on every batch of rows of [num_features]
    elements each element divided by [sqrt(1 + eps)], with or without
    learned vectors, and stays as it is. *)
Theorem batchnorm1d_fresh_module_eval
    (x : array R) (B F : nat) (eps momentum : R) (affine : bool) :
  shape x = [B; F] → wf x →
  let self :=
    BatchNorm1d.set_training false
      (BatchNorm1d.__init__ F eps momentum affine) in
  ∃ out,
    BatchNorm1d.__call__ x self = (self, Ok out) ∧ shape out = [B; F] ∧
    ∀ b j, b < B → j < F →
      item out (b * F + j) = (item x (b * F + j) * / sqrt (1 + eps))%R.
Proof.
  intros Hs Hwf self.
  assert (Hr : ndim x = 2) by (unfold ndim; rewrite Hs; reflexivity).
  rewrite (batchnorm1d_call_eval self x Hr eq_refl).
  assert (Hok : affine_ok F (BatchNorm1d.weight self) (BatchNorm1d.bias self)).
  { unfold self. destruct affine; cbn; [|exact I].
    split; apply vector_like_full. }
  destruct (forward_rows x (BatchNorm1d.running_mean self)
              (BatchNorm1d.running_var self) (BatchNorm1d.eps self)
              (BatchNorm1d.weight self) (BatchNorm1d.bias self) B F
              Hs Hwf (vector_like_full F _) (vector_like_full F _) Hok)
    as (out & -> & Hos & Hi).
  exists out. split; [reflexivity|]. split; [exact Hos|].
  intros b j Hb Hj. rewrite (Hi b j Hb Hj).
  assert (HjF : j < size_of [F]) by (rewrite size_of_singleton; exact Hj).
  unfold self. cbn [BatchNorm1d.set_training BatchNorm1d.__init__
    BatchNorm1d.running_mean BatchNorm1d.running_var BatchNorm1d.eps
    BatchNorm1d.weight BatchNorm1d.bias].
  unfold zeros, ones. rewrite !item_full by exact HjF.
  destruct affine; unfold affine_item;
    rewrite ?item_full by exact HjF;
    cbn [sadd smul ssub srsqrt s0 s1 R_Scalar]; ring.
Qed.

(** X10, witness: three features, on the example batch. *)
Lemma batchnorm1d_fresh_module_eval_witness :
  let self :=
    BatchNorm1d.set_training false
      (BatchNorm1d.__init__ 3 default_eps default_momentum true) in
  shape example_batch = [2; 3] ∧ wf example_batch ∧
  fst (BatchNorm1d.__call__ example_batch self) = self.
Proof.
  intros self. split; [reflexivity|]. split; [reflexivity|].
  destruct (batchnorm1d_fresh_module_eval example_batch 2 3 default_eps
              default_momentum true eq_refl eq_refl) as (out & Hcall & _).
  fold self in Hcall. rewrite Hcall. reflexivity.
Defined.

(** ** GroupNorm: the default grouping *)

Lemma nth_concat_uniform {A} (K : nat) (rows : list (list A)) (i r : nat)
    (d0 : A) :
  Forall (fun c => length c = K) rows → i < length rows → r < K →
  nth (i * K + r) (concat rows) d0 = nth r (nth i rows []) d0.
Proof.
  intros HR. revert i. induction HR as [|c rows Hc _ IH]; intros i Hi Hr.
  - cbn in Hi. lia.
  - cbn [concat]. destruct i as [|i].
    + cbn [Nat.mul Nat.add nth]. apply app_nth1. lia.
    + cbn [nth]. rewrite app_nth2 by lia.
      replace (S i * K + r - length c) with (i * K + r) by lia.
      apply IH; [cbn in Hi; lia | exact Hr].
Qed.

Lemma nth_chunks {A} (k m i : nat) (d : list A) :
  i < m → nth i (chunks k m d) [] = take k (drop (i * k) d).
Proof.
  intros Hi. unfold chunks.
  rewrite (nth_fmap _ _ _ 0) by (rewrite length_seq; exact Hi).
  rewrite seq_nth by exact Hi. reflexivity.
Qed.

Lemma nth_chunk_item {A} (k m i r : nat) (d : list A) (d0 : A) :
  i < m → r < k → nth r (nth i (chunks k m d) []) d0 = nth (i * k + r) d d0.
Proof.
  intros Hi Hr. rewrite nth_chunks by exact Hi.
  rewrite nth_firstn, nth_skipn.
  destruct (Nat.ltb_spec r k); [reflexivity | lia].
Qed.

Section GroupNormDefault.
Context {A : Type} `{Scalar A}.
Implicit Types (self : GroupNorm.t A) (x v : array A) (b P G : nat).

Lemma reduce_data_axis1 (f : list A → A) b P G (d : list A) :
  reduce_data f 1 [b; P; G] d =
  concat ((fun c => (fun g => f (column G P c g)) <$> seq 0 G)
            <$> chunks (P * G) b d).
Proof.
  change (reduce_data f 1 [b; P; G] d)
    with (concat (reduce_data f 0 [P; G] <$> chunks (size_of [P; G]) b d)).
  replace (size_of [P; G]) with (P * G) by (cbn; lia).
  f_equal. apply list_fmap_ext. intros _ c _. apply reduce_data_columns.
Qed.

(** Reducing the middle axis of a 3-D array: for each leading index and
    each last index, the elements along the middle axis. *)
Lemma reduce_axis1_items (f : list A → A) x b P G :
  shape x = [b; P; G] → wf x →
  ∃ m, reduce f x 1 = Ok m ∧ shape m = [b; 1; G] ∧ wf m ∧
    ∀ i g, i < b → g < G →
      item m (i * G + g) =
      f ((fun q => item x (i * (P * G) + (q * G + g))) <$> seq 0 P).
Proof.
  intros Hs Hwf. unfold reduce, ndim. rewrite Hs.
  change (normalize_axis 1 (length [b; P; G])) with (Ok (T:=nat) 1).
  cbn [mbind result_bind]. eexists. split; [reflexivity|].
  split; [reflexivity|]. rewrite reduce_data_axis1.
  set (stat := fun c : list A => (fun g => f (column G P c g)) <$> seq 0 G).
  assert (Hrows : Forall (fun c => length c = G)
                    (stat <$> chunks (P * G) b (data x))).
  { apply Forall_fmap, Forall_true. intros c. unfold compose, stat.
    rewrite length_fmap, length_seq. reflexivity. }
  split.
  - unfold wf. cbn [shape data]. rewrite (length_concat_uniform G _ Hrows).
    rewrite length_fmap, length_chunks. cbn. lia.
  - intros i g Hi Hg. unfold item at 1. cbn [data].
    rewrite (nth_concat_uniform G _ i g s0 Hrows)
      by (rewrite ?length_fmap, ?length_chunks; assumption).
    rewrite (nth_fmap stat _ _ []) by (rewrite length_chunks; exact Hi).
    unfold stat.
    rewrite (nth_fmap _ _ _ 0) by (rewrite length_seq; exact Hg).
    rewrite seq_nth by exact Hg. cbn [Nat.add]. f_equal.
    unfold column. apply list_fmap_ext. intros k q Hk.
    apply lookup_seq in Hk as [-> Hq]. cbn [Nat.add].
    unfold item. apply nth_chunk_item; [exact Hi | nia].
Qed.

Lemma bcast_data_axis1 b P G (d : list A) :
  length d = b * G →
  bcast_data [b; 1; G] [b; P; G] d =
  concat ((fun c => concat (replicate P c)) <$> chunks G b d).
Proof.
  intros Hd.
  change (bcast_data [b; 1; G] [b; P; G] d)
    with (if b =? b
          then concat (bcast_data [1; G] [P; G]
                         <$> chunks (size_of [1; G]) b d)
          else concat (replicate b (bcast_data [1; G] [P; G] d))).
  rewrite Nat.eqb_refl.
  replace (size_of [1; G]) with G by (cbn; lia).
  f_equal. apply Forall_fmap_ext.
  eapply Forall_impl; [apply Forall_chunks_length, Hd|].
  intros c Hc. cbn beta in Hc. apply bcast_data_leading.
  rewrite size_of_singleton. exact Hc.
Qed.

(** An element-wise operation between a 3-D array and one whose middle
    axis was reduced. *)
Lemma binop_axis1_items (f : A → A → A) x v b P G :
  shape x = [b; P; G] → wf x → shape v = [b; 1; G] → wf v →
  ∃ out, binop f x v = Ok out ∧ shape out = [b; P; G] ∧ wf out ∧
    ∀ i p g, i < b → p < P → g < G →
      item out (i * (P * G) + (p * G + g)) =
      f (item x (i * (P * G) + (p * G + g))) (item v (i * G + g)).
Proof.
  intros Hs Hwf Hvs Hvw.
  assert (Hlx : length (data x) = b * (P * G)).
  { unfold wf in Hwf. rewrite Hwf, Hs. cbn. lia. }
  assert (Hlv : length (data v) = b * G).
  { unfold wf in Hvw. rewrite Hvw, Hvs. cbn. lia. }
  unfold binop. rewrite Hs, Hvs, broadcast_shapes_axis1.
  rewrite (broadcast_to_same _ x Hs Hwf).
  unfold broadcast_to, ndim. rewrite Hvs.
  cbn [length Nat.sub replicate app].
  rewrite (bcast_data_axis1 b P G (data v) Hlv).
  set (rows := (fun c => concat (replicate P c)) <$> chunks G b (data v)).
  assert (Hrows : Forall (fun c => length c = P * G) rows).
  { unfold rows. apply Forall_fmap.
    eapply Forall_impl; [apply Forall_chunks_length, Hlv|].
    intros c Hc. cbn beta in Hc. unfold compose.
    rewrite length_concat_replicate, Hc. reflexivity. }
  assert (Hlr : length (concat rows) = b * (P * G)).
  { rewrite (length_concat_uniform (P * G) _ Hrows). unfold rows.
    rewrite length_fmap, length_chunks. reflexivity. }
  eexists. split; [reflexivity|]. split; [reflexivity|]. split.
  - unfold wf. cbn [shape data]. rewrite length_zip_with, Hlx, Hlr. cbn. lia.
  - intros i p g Hi Hp Hg.
    assert (Hpg : p * G + g < P * G) by nia.
    unfold item at 1. cbn [data].
    rewrite (nth_zip_with f _ _ _ s0 s0) by (rewrite ?Hlx, ?Hlr; nia).
    f_equal.
    rewrite (nth_concat_uniform (P * G) rows i _ s0 Hrows)
      by (unfold rows; rewrite ?length_fmap, ?length_chunks; assumption).
    unfold rows.
    rewrite (nth_fmap _ _ _ []) by (rewrite length_chunks; exact Hi).
    set (c := nth i (chunks G b (data v)) []).
    assert (Hc : length c = G).
    { unfold c. rewrite nth_chunks by exact Hi.
      rewrite length_take, length_drop. nia. }
    rewrite <- Hc at 1. rewrite nth_concat_replicate by (rewrite ?Hc; assumption).
    unfold c, item. apply nth_chunk_item; assumption.
Qed.

(** The lines under [# Normalize] on an array of groups: each element is
    normalized with the mean and the variance of the elements that share
    its first and last index. *)
Lemma group_norm_normalize_items self x b P G :
  shape x = [b; P; G] → wf x →
  ∃ y, GroupNorm.normalize self x = Ok y ∧ shape y = [b; P; G] ∧ wf y ∧
    ∀ i p g, i < b → p < P → g < G →
      let grp := (fun q => item x (i * (P * G) + (q * G + g))) <$> seq 0 P in
      item y (i * (P * G) + (p * G + g)) =
      smul (ssub (item x (i * (P * G) + (p * G + g))) (mean_list grp))
           (srsqrt (sadd (var_list grp) (GroupNorm.eps self))).
Proof.
  intros Hs Hwf. unfold GroupNorm.normalize, mean, var.
  destruct (reduce_axis1_items mean_list x b P G Hs Hwf)
    as (m & -> & Hms & Hmw & Hmi).
  destruct (reduce_axis1_items var_list x b P G Hs Hwf)
    as (v & -> & Hvs & Hvw & Hvi).
  cbn [mbind result_bind]. unfold sub, mul.
  destruct (binop_axis1_items ssub x m b P G Hs Hwf Hms Hmw)
    as (xm & -> & Hxs & Hxw & Hxi).
  cbn [mbind result_bind].
  set (r := rsqrt (add_scalar v (GroupNorm.eps self))).
  assert (Hrw : wf r)
    by (unfold r, rsqrt, add_scalar; do 2 apply wf_map_array; exact Hvw).
  assert (Hrs : shape r = [b; 1; G]) by exact Hvs.
  destruct (binop_axis1_items smul xm r b P G Hxs Hxw Hrs Hrw)
    as (y & -> & Hys & Hyw & Hyi).
  exists y. split; [reflexivity|]. split; [exact Hys|]. split; [exact Hyw|].
  intros i p g Hi Hp Hg.
  rewrite (Hyi i p g Hi Hp Hg), (Hxi i p g Hi Hp Hg), (Hmi i g Hi Hg).
  f_equal.
  assert (Hlv : length (data v) = b * G).
  { unfold wf in Hvw. rewrite Hvw, Hvs. cbn. lia. }
  unfold r, item, rsqrt, add_scalar, map_array. cbn [data].
  rewrite <- list_fmap_compose.
  rewrite (nth_fmap _ _ _ s0) by (rewrite Hlv; nia).
  cbn. f_equal. f_equal. apply (Hvi i g Hi Hg).
Qed.

(** The number of elements that is left to one batch entry cannot be
    split into groups. *)
Lemma reshape_infer_second_indivisible (a : array A) (b M g : nat) :
  size_of (shape a) = b * M → 0 < b → 0 < g → ¬ Nat.divide g M →
  reshape a [Z.of_nat b; (-1)%Z; Z.of_nat g] = Raise ValueError.
Proof.
  intros Hsz Hb Hg Hndiv. unfold reshape.
  assert (Hk : known_size [Z.of_nat b; (-1)%Z; Z.of_nat g]
               = (Z.of_nat b * Z.of_nat g)%Z).
  { unfold known_size. cbn [foldr].
    change ((-1 =? -1)%Z) with true. cbn match.
    destruct (Z.eqb_spec (Z.of_nat b) (-1)); [lia|].
    destruct (Z.eqb_spec (Z.of_nat g) (-1)); [lia|]. lia. }
  assert (Hi : inferred [Z.of_nat b; (-1)%Z; Z.of_nat g] = 1).
  { unfold inferred. rewrite filter_cons_False by lia.
    rewrite filter_cons_True by reflexivity.
    rewrite filter_cons_False by lia. reflexivity. }
  rewrite Hk, Hi. cbn [existsb fmap list_fmap foldr].
  destruct (Z.ltb_spec (Z.of_nat b) (-1)); [lia|].
  destruct (Z.ltb_spec (Z.of_nat g) (-1)); [lia|].
  change ((-1 <? -1)%Z) with false. change ((-1 =? -1)%Z) with true.
  cbn [orb Nat.ltb Nat.leb Nat.eqb].
  destruct (Z.eqb_spec (Z.of_nat b) (-1)); [lia|].
  destruct (Z.eqb_spec (Z.of_nat g) (-1)); [lia|].
  destruct (Z.eqb_spec (Z.of_nat b * Z.of_nat g) 0); [nia|].
  destruct (Z.ltb_spec 0 (Z.of_nat b * Z.of_nat g)); [|nia].
  cbn [andb].
  set (q := (Z.of_nat (size_of (shape a)) / (Z.of_nat b * Z.of_nat g))%Z).
  destruct (Z.eqb_spec (Z.of_nat b * (q * (Z.of_nat g * 1)))
              (Z.of_nat (size_of (shape a)))) as [Heq|_]; [|reflexivity].
  exfalso. apply Hndiv. exists (Z.to_nat q).
  assert (Hq : (0 <= q)%Z) by (apply Z.div_pos; lia).
  rewrite Hsz, Nat2Z.inj_mul in Heq.
  apply Nat2Z.inj. rewrite Nat2Z.inj_mul, Z2Nat.id by exact Hq. nia.
Qed.

(** The default grouping on an input whose batch entries split into
    groups: the output has the shape of the input and every element is
    normalized over the elements of its batch entry whose row-major
    position differs from its own by a multiple of the number of
    groups. *)
Lemma group_norm_default_rows self x (batch : nat) (rest : list nat)
    (d G P : nat) :
  shape x = S batch :: rest ++ [d] → wf x →
  GroupNorm.num_groups self = Z.of_nat (S G) →
  size_of rest * d = P * S G →
  ∃ y, GroupNorm._group_norm self x = Ok y ∧ shape y = shape x ∧ wf y ∧
    ∀ i p g, i < S batch → p < P → g < S G →
      let grp :=
        (fun q => item x (i * (P * S G) + (q * S G + g))) <$> seq 0 P in
      item y (i * (P * S G) + (p * S G + g)) =
      smul (ssub (item x (i * (P * S G) + (p * S G + g))) (mean_list grp))
           (srsqrt (sadd (var_list grp) (GroupNorm.eps self))).
Proof.
  intros Hs Hwf HG HP. unfold GroupNorm._group_norm.
  rewrite Hs, unpack_shape, HG. cbn [mbind result_bind].
  assert (Hsz : size_of (shape x) = S batch * P * S G).
  { rewrite Hs, size_of_cons, size_of_app, size_of_singleton. nia. }
  change [Z.of_nat (S batch); (-1)%Z; Z.of_nat (S G)]
    with (Z.of_nat (S batch) :: (-1)%Z :: (Z.of_nat <$> [S G])).
  rewrite (reshape_infer_second x (S batch) P [S G])
    by (rewrite ?size_of_singleton; lia).
  cbn [mbind result_bind].
  assert (Hxw : wf (Array [S batch; P; S G] (data x))).
  { unfold wf in *. cbn [shape data]. rewrite Hwf, Hsz. cbn. lia. }
  destruct (group_norm_normalize_items self (Array [S batch; P; S G] (data x))
              (S batch) P (S G) eq_refl Hxw)
    as (y & -> & Hys & Hyw & Hyi).
  cbn [mbind result_bind].
  change [Z.of_nat d] with (Z.of_nat <$> [d]).
  rewrite <- fmap_app.
  change (Z.of_nat (S batch) :: (Z.of_nat <$> rest ++ [d]))
    with (Z.of_nat <$> (S batch :: rest ++ [d])).
  rewrite (reshape_exact y (S batch :: rest ++ [d]))
    by (rewrite Hys, <- Hs, Hsz; cbn; lia).
  eexists. split; [reflexivity|]. split; [reflexivity|]. split.
  - unfold wf in *. cbn [shape data]. rewrite Hyw, Hys, <- Hs, Hsz. cbn. lia.
  - intros i p g Hi Hp Hg. apply (Hyi i p g Hi Hp Hg).
Qed.

End GroupNormDefault.

(** X11: GroupNorm needs a batch axis and a feature axis: on an input of
    rank zero or one, [batch, *rest, dims = x.shape] raises [ValueError]
    in both modes, whatever the module. *)
Theorem group_norm_raises_below_rank_two
    {A : Type} `{Scalar A} (self : GroupNorm.t A) (x : array A) :
  ndim x < 2 → GroupNorm.__call__ self x = Raise ValueError.
Proof.
  unfold ndim. intros Hr.
  assert (Hu : GroupNorm.unpack (shape x) = Raise ValueError).
  { destruct (shape x) as [|b [|n s]];
      [reflexivity | reflexivity | cbn in Hr; lia]. }
  unfold GroupNorm.__call__.
  destruct (GroupNorm.pytorch_compatible self); cbv zeta;
    [unfold GroupNorm._pytorch_compatible_group_norm
    |unfold GroupNorm._group_norm];
    rewrite Hu; reflexivity.
Qed.

(** X11, witness: a vector of three elements. *)
Lemma group_norm_raises_below_rank_two_witness :
  let x := Array [3] [1; 2; 3]%R in
  ndim x < 2 ∧
  GroupNorm.__call__ (GroupNorm.__init__ 1 3 default_eps true true) x
    = Raise ValueError.
Proof.
  intros x. split; [cbn; lia|].
  apply (group_norm_raises_below_rank_two _ x). cbn. lia.
Defined.

(** X12: in the default mode, on a batch that is not empty and with a
    positive number of groups, the grouping returns exactly when the
    number of groups divides the number of elements of one batch entry
    (positions times features), and then the output has the shape of the
    input; otherwise it raises [ValueError].  That [num_groups] divides
    [dims] is not asked for. *)
Theorem group_norm_default_returns_iff_divisible
    {A : Type} `{Scalar A} (self : GroupNorm.t A) (x : array A)
    (batch : nat) (rest : list nat) (d G : nat) :
  shape x = S batch :: rest ++ [d] → wf x →
  GroupNorm.num_groups self = Z.of_nat (S G) →
  (Nat.divide (S G) (size_of rest * d) →
   ∃ y, GroupNorm._group_norm self x = Ok y ∧ shape y = shape x ∧ wf y) ∧
  (¬ Nat.divide (S G) (size_of rest * d) →
   GroupNorm._group_norm self x = Raise ValueError).
Proof.
  intros Hs Hwf HG. split.
  - intros [P HP].
    destruct (group_norm_default_rows self x batch rest d G P Hs Hwf HG HP)
      as (y & Hy & Hys & Hyw & _).
    exists y. auto.
  - intros Hndiv. unfold GroupNorm._group_norm.
    rewrite Hs, unpack_shape, HG. cbn [mbind result_bind].
    rewrite (reshape_infer_second_indivisible x (S batch) (size_of rest * d)
               (S G)); [reflexivity| |lia|lia|exact Hndiv].
    rewrite Hs, size_of_cons, size_of_app, size_of_singleton. reflexivity.
Qed.

(** X12, witness: three groups on one image of three positions of two
    features: three divides six and not two. *)
Lemma group_norm_default_returns_iff_divisible_witness :
  let x := Array [1; 3; 2] [1; 2; 3; 4; 5; 9]%R in
  let self := GroupNorm.__init__ 3 2 default_eps false false in
  shape x = 1 :: [3] ++ [2] ∧ wf x ∧
  GroupNorm.num_groups self = Z.of_nat 3 ∧
  Nat.divide 3 (size_of [3] * 2) ∧
  ∃ y, GroupNorm._group_norm self x = Ok y ∧ shape y = [1; 3; 2].
Proof.
  intros x self.
  assert (Hdiv : Nat.divide 3 (size_of [3] * 2)) by (exists 2; reflexivity).
  split; [reflexivity|]. split; [reflexivity|]. split; [reflexivity|].
  split; [exact Hdiv|].
  destruct (group_norm_default_returns_iff_divisible self x 0 [3] 2 2
              eq_refl eq_refl eq_refl) as [Hret _].
  destruct (Hret Hdiv) as (y & Hy & Hys & _).
  exists y. split; [exact Hy | exact Hys].
Defined.

(** X13: what the default grouping computes.  With [G] groups and batch
    entries of [P * G] elements, the element at row-major position
    [p * G + g] of a batch entry is normalized with the mean and the
    variance of the [P] elements at the positions [q * G + g] of that
    entry: a group is made of the elements whose position is the same
    modulo [G], and each batch entry has its own statistics. *)
Theorem group_norm_default_groups_by_stride
    {A : Type} `{Scalar A} (self : GroupNorm.t A) (x : array A)
    (batch : nat) (rest : list nat) (d G P : nat) :
  shape x = S batch :: rest ++ [d] → wf x →
  GroupNorm.num_groups self = Z.of_nat (S G) →
  size_of rest * d = P * S G →
  ∃ y, GroupNorm._group_norm self x = Ok y ∧ shape y = shape x ∧
    ∀ i p g, i < S batch → p < P → g < S G →
      let grp :=
        (fun q => item x (i * (P * S G) + (q * S G + g))) <$> seq 0 P in
      item y (i * (P * S G) + (p * S G + g)) =
      smul (ssub (item x (i * (P * S G) + (p * S G + g))) (mean_list grp))
           (srsqrt (sadd (var_list grp) (GroupNorm.eps self))).
Proof.
  intros Hs Hwf HG HP.
  destruct (group_norm_default_rows self x batch rest d G P Hs Hwf HG HP)
    as (y & Hy & Hys & _ & Hyi).
  exists y. split; [exact Hy|]. split; [exact Hys | exact Hyi].
Qed.

(** X13, witness: two groups on one image of two positions of four
    features; the first element is normalized with the elements at the
    even positions. *)
Lemma group_norm_default_groups_by_stride_witness :
  let x := Array [1; 2; 4] [1; 2; 3; 4; 5; 6; 7; 9]%R in
  let self := GroupNorm.__init__ 2 4 default_eps false false in
  shape x = 1 :: [2] ++ [4] ∧ wf x ∧
  GroupNorm.num_groups self = Z.of_nat 2 ∧ size_of [2] * 4 = 4 * 2 ∧
  ∃ y, GroupNorm._group_norm self x = Ok y ∧
    item y 0 =
      ((1 - mean_list [1; 3; 5; 7]) *
       / sqrt (var_list [1; 3; 5; 7] + default_eps))%R.
Proof.
  intros x self.
  split; [reflexivity|]. split; [reflexivity|]. split; [reflexivity|].
  split; [reflexivity|].
  destruct (group_norm_default_groups_by_stride self x 0 [2] 4 1 4
              eq_refl eq_refl eq_refl eq_refl) as (y & Hy & _ & Hyi).
  exists y. split; [exact Hy|].
  apply (Hyi 0 0 0); lia.
Defined.

(** ** GroupNorm with one group *)

Section GroupNormOneGroup.
Context {A : Type} `{Scalar A}.
Implicit Types (x : array A) (batch d : nat).

(** A block of a list, element by element. *)
Lemma chunk_as_seq (k m i : nat) (l : list A) :
  length l = m * k → i < m →
  nth i (chunks k m l) [] = (fun q => nth (i * k + q) l s0) <$> seq 0 k.
Proof.
  intros Hl Hi. set (row := nth i (chunks k m l) []).
  assert (Hrow : length row = k).
  { unfold row. rewrite nth_chunks by exact Hi.
    rewrite length_take, length_drop. nia. }
  rewrite <- (fmap_nth_seq row s0) at 1. rewrite Hrow.
  apply list_fmap_ext. intros j q Hq. apply lookup_seq in Hq as [-> Hq].
  cbn [Nat.add]. unfold row. apply nth_chunk_item; assumption.
Qed.

(** With one group the default grouping normalizes each row of a 2-D
    input, as LayerNorm does. *)
Lemma group_norm_one_group_default (g : GroupNorm.t A) (l : LayerNorm.t A)
    x batch d :
  shape x = [S batch; d] → wf x →
  GroupNorm.num_groups g = 1%Z → GroupNorm.eps g = LayerNorm.eps l →
  GroupNorm._group_norm g x = LayerNorm.normalize l x.
Proof.
  intros Hs Hwf HG Heps.
  assert (Hlx : length (data x) = S batch * d).
  { unfold wf in Hwf. rewrite Hwf, Hs. cbn. lia. }
  destruct (group_norm_default_rows g x batch [] d 0 d Hs Hwf HG)
    as (y & -> & Hys & Hyw & Hyi); [cbn; lia|].
  rewrite (layer_norm_normalize_rows l x [S batch] d Hs Hwf).
  rewrite Hs in Hys. destruct y as [ys yd]. cbn [shape data] in *. subst ys.
  f_equal. f_equal.
  assert (Hly : length yd = S batch * d).
  { unfold wf in Hyw. cbn [shape data] in Hyw. rewrite Hyw. cbn. lia. }
  rewrite size_of_singleton.
  assert (Hrows : Forall (fun c => length c = d)
            (normalize_row (LayerNorm.eps l) <$> chunks d (S batch) (data x))).
  { apply Forall_rowwise_length; [exact Hlx | apply length_normalize_row]. }
  apply (nth_ext _ _ s0 s0).
  - rewrite Hly, (length_concat_uniform d _ Hrows).
    rewrite length_fmap, length_chunks. reflexivity.
  - intros n Hn. rewrite Hly in Hn.
    assert (Hd : d ≠ 0) by nia.
    pose proof (Nat.div_mod_eq n d) as Hdm.
    pose proof (Nat.mod_upper_bound n d Hd) as Hp.
    assert (Hi : n / d < S batch) by (apply Nat.Div0.div_lt_upper_bound; lia).
    set (i := n / d) in *. set (p := n mod d) in *.
    pose proof (Hyi i p 0 Hi Hp ltac:(lia)) as Hy. unfold item in Hy.
    cbn [data] in Hy.
    replace (i * (d * 1) + (p * 1 + 0)) with n in Hy by lia.
    rewrite Hy. symmetry. replace n with (i * d + p) at 1 by lia.
    rewrite (nth_concat_uniform d _ i p s0 Hrows)
      by (rewrite ?length_fmap, ?length_chunks; assumption).
    rewrite (nth_fmap _ _ _ []) by (rewrite length_chunks; exact Hi).
    rewrite (chunk_as_seq d (S batch) i (data x) Hlx Hi).
    set (row := (fun q => nth (i * d + q) (data x) s0) <$> seq 0 d).
    assert (Hgrp : (fun q => nth (i * (d * 1) + (q * 1 + 0)) (data x) s0)
                     <$> seq 0 d = row).
    { unfold row. apply list_fmap_ext. intros _ q _. f_equal. lia. }
    rewrite Hgrp, Heps. unfold normalize_row.
    rewrite (nth_fmap _ _ _ s0)
      by (unfold row; rewrite length_fmap, length_seq; exact Hp).
    f_equal. f_equal. unfold row.
    rewrite (nth_fmap _ _ _ 0) by (rewrite length_seq; exact Hp).
    rewrite seq_nth by exact Hp. cbn [Nat.add]. f_equal. lia.
Qed.

(** With one group the two groupings are the same computation on a 2-D
    input. *)
Lemma group_norm_one_group_paths (g : GroupNorm.t A) x batch d :
  shape x = [S batch; S d] → wf x → GroupNorm.num_groups g = 1%Z →
  GroupNorm._pytorch_compatible_group_norm g x = GroupNorm._group_norm g x.
Proof.
  intros Hs Hwf HG.
  assert (Hsz : size_of (shape x) = S batch * S d)
    by (rewrite Hs; cbn; lia).
  unfold GroupNorm._pytorch_compatible_group_norm, GroupNorm._group_norm.
  rewrite Hs.
  change (GroupNorm.unpack [S batch; S d])
    with (Ok (T:=nat * list nat * nat) (S batch, [], S d)).
  rewrite HG.
  cbn [mbind result_bind]. unfold GroupNorm.floordiv.
  change ((1 =? 0)%Z) with false. cbn match. cbn [mbind result_bind].
  rewrite Z.div_1_r.
  change [Z.of_nat (S batch); (-1)%Z; 1%Z; Z.of_nat (S d)]
    with (Z.of_nat (S batch) :: (-1)%Z :: (Z.of_nat <$> [1; S d])).
  change [Z.of_nat (S batch); (-1)%Z; Z.of_nat (S d); 1%Z]
    with (Z.of_nat (S batch) :: (-1)%Z :: (Z.of_nat <$> [S d; 1])).
  change [Z.of_nat (S batch); (-1)%Z; 1%Z]
    with (Z.of_nat (S batch) :: (-1)%Z :: (Z.of_nat <$> [1])).
  rewrite (reshape_infer_second x (S batch) 1 [1; S d])
    by (rewrite ?Hsz; cbn; lia).
  rewrite (reshape_infer_second x (S batch) (S d) [1])
    by (rewrite ?Hsz; cbn; lia).
  cbn [mbind result_bind].
  rewrite (transpose_unit_third (Array [S batch; 1; 1; S d] (data x))
             (S batch) 1 (S d) eq_refl)
    by (unfold wf in *; cbn [shape data]; rewrite Hwf, Hsz; cbn; lia).
  cbn [mbind result_bind].
  rewrite (reshape_infer_second _ (S batch) (S d) [1]) by (cbn; lia).
  cbn [mbind result_bind data].
  assert (Hxw : wf (Array [S batch; S d; 1] (data x)))
    by (unfold wf in *; cbn [shape data]; rewrite Hwf, Hsz; cbn; lia).
  destruct (group_norm_normalize_shape g (Array [S batch; S d; 1] (data x))
              (S batch) (S d) 1 eq_refl Hxw)
    as (y & -> & Hys & Hyw).
  cbn [mbind result_bind].
  rewrite (reshape_infer_second y (S batch) 1 [S d; 1])
    by (rewrite ?Hys; cbn; lia).
  cbn [mbind result_bind].
  rewrite (transpose_unit_last (Array [S batch; 1; S d; 1] (data y))
             (S batch) 1 (S d) eq_refl)
    by (unfold wf in *; cbn [shape data]; rewrite Hyw, Hys; cbn; lia).
  cbn [mbind result_bind].
  apply reshape_ext; [reflexivity|].
  cbn [shape]. rewrite Hys. cbn. lia.
Qed.

End GroupNormOneGroup.

(** X14: with one group GroupNorm is LayerNorm: on every 2-D input that
    is not empty, a GroupNorm of one group returns in both modes what a
    LayerNorm with the same [eps], weight and bias returns (and raises
    where it raises), in any arithmetic. *)
Theorem group_norm_one_group_is_layer_norm
    {A : Type} `{Scalar A} (x : array A) (batch d : nat)
    (weight bias : option (array A)) (eps : A) (dims dims' : nat)
    (compatible : bool) :
  shape x = [S batch; S d] → wf x →
  GroupNorm.__call__ (GroupNorm.Build weight bias 1 dims eps compatible) x =
  LayerNorm.__call__ (LayerNorm.Build weight bias eps dims') x.
Proof.
  intros Hs Hwf. unfold GroupNorm.__call__, LayerNorm.__call__.
  cbn [GroupNorm.pytorch_compatible GroupNorm.weight GroupNorm.bias
       LayerNorm.weight LayerNorm.bias].
  set (g := GroupNorm.Build weight bias 1 dims eps compatible).
  set (l := LayerNorm.Build weight bias eps dims').
  assert (Hdef : GroupNorm._group_norm g x = LayerNorm.normalize l x)
    by (apply (group_norm_one_group_default g l x batch (S d));
        [exact Hs | exact Hwf | reflexivity | reflexivity]).
  destruct compatible; cbv zeta.
  - rewrite (group_norm_one_group_paths g x batch d Hs Hwf eq_refl), Hdef.
    reflexivity.
  - rewrite Hdef. reflexivity.
Qed.

(** X14, witness: the example batch, in the PyTorch compatible mode. *)
Lemma group_norm_one_group_is_layer_norm_witness :
  shape example_batch = [2; 3] ∧ wf example_batch ∧
  GroupNorm.__call__ (GroupNorm.__init__ 1 3 default_eps true true)
    example_batch =
  LayerNorm.__call__ (LayerNorm.__init__ 3 default_eps true) example_batch.
Proof.
  split; [reflexivity|]. split; [reflexivity|].
  apply (group_norm_one_group_is_layer_norm example_batch 1 2
           (Some (ones [3])) (Some (zeros [3])) default_eps 3 3 true);
    reflexivity.
Defined.

(** ** RMSNorm and LayerNorm as their constructors leave them *)

Lemma zip_with_replicate_l {A B C} (f : A → B → C) (c : A) (l : list B) :
  zip_with f (replicate (length l) c) l = f c <$> l.
Proof. induction l as [|u l IH]; [reflexivity|]. cbn. rewrite IH. reflexivity. Qed.

Lemma chunks_concat_fmap {A B} (g : list A → list B) (n P : nat)
    (d : list A) :
  Forall (fun c => length (g c) = n) (chunks n P d) →
  chunks n P (concat (g <$> chunks n P d)) = g <$> chunks n P d.
Proof.
  intros Hg.
  rewrite <- (chunks_concat n (g <$> chunks n P d)) at 2
    by (apply Forall_fmap; exact Hg).
  rewrite length_fmap, length_chunks. reflexivity.
Qed.

Section RealInitial.
Open Scope R_scope.
Implicit Types (row : list R) (eps : R).

Lemma mean_squares_nonneg row : 0 <= mean_list ((fun v => v * v) <$> row).
Proof.
  rewrite mean_list_unfold. apply Rmult_le_pos.
  - apply sum_list_nonneg, Forall_fmap, Forall_true. intros v.
    unfold compose. nra.
  - rewrite length_fmap. destruct row as [|v row].
    + cbn. rewrite Rdiv_0_r. lra.
    + apply Rlt_le, Rdiv_lt_0_compat; [lra|]. apply lt_0_INR. cbn. lia.
Qed.

(** A row of RMSNorm with the weight of the constructor: the row divided
    by the square root of [eps] plus the mean of its squares. *)
Lemma rms_norm_row_ones eps row :
  row ≠ [] →
  rms_norm_row eps (replicate (length row) 1) row =
  (fun v => v * / sqrt (mean_list ((fun v => v * v) <$> row) + eps)) <$> row.
Proof.
  intros Hrow. unfold rms_norm_row. cbn [sdiv smul sadd ssqrt srsqrt s1 R_Scalar].
  rewrite zip_with_replicate_l, <- list_fmap_compose.
  rewrite <- (sum_scaled_squares row Hrow), <- list_fmap_compose.
  apply list_fmap_ext. intros _ v _. cbn. rewrite Rmult_1_l. reflexivity.
Qed.

Lemma mean_squares_rms_norm_row eps row :
  row ≠ [] → 0 < eps →
  let ms := mean_list ((fun v => v * v) <$> row) in
  mean_list ((fun v => v * v)
               <$> rms_norm_row eps (replicate (length row) 1) row)
  = ms / (ms + eps).
Proof.
  intros Hrow Heps ms. pose proof (mean_squares_nonneg row) as Hms.
  fold ms in Hms. rewrite rms_norm_row_ones by exact Hrow. fold ms.
  set (r := / sqrt (ms + eps)).
  transitivity
    (mean_list ((fun v => v * (r * r)) <$> ((fun v => v * v) <$> row))).
  - rewrite <- !list_fmap_compose. f_equal.
    apply list_fmap_ext. intros _ v _. cbn. ring.
  - rewrite mean_list_scale. fold ms. unfold r.
    rewrite <- Rinv_mult, sqrt_sqrt by lra. reflexivity.
Qed.

(** The affine transform of the constructors, weight one and bias zero,
    changes nothing. *)
Lemma affine_row_initial (n : nat) row :
  length row = n →
  affine_row (Some (ones [n])) (Some (zeros [n])) row = row.
Proof.
  intros <-. unfold affine_row, ones, zeros, full. cbn [data].
  rewrite size_of_singleton, zip_with_replicate_l.
  rewrite <- (length_fmap (smul s1) row).
  rewrite zip_with_replicate_row, <- list_fmap_compose.
  rewrite <- list_fmap_id. apply list_fmap_ext. intros _ v _. cbn. ring.
Qed.

End RealInitial.

(** X15: in exact arithmetic, for a positive [eps], the output of an
    RMSNorm as its constructor leaves it has, along each row of the last
    axis, the mean square [ms / (ms + eps)] where [ms] is the mean square
    of that row of the input: the root mean square of the output is below
    one. *)
Theorem rms_norm_output_mean_square
    (x : array R) (pre : list nat) (n : nat) (eps : R) :
  shape x = pre ++ [S n] → wf x → (0 < eps)%R →
  ∃ out,
    RMSNorm.__call__ (RMSNorm.__init__ (S n) eps) x = Ok out ∧
    shape out = shape x ∧
    ∀ i, i < size_of pre →
      let ms := fun l : list R => mean_list ((fun v => v * v)%R <$> l) in
      let rin := nth i (chunks (S n) (size_of pre) (data x)) [] in
      let rout := nth i (chunks (S n) (size_of pre) (data out)) [] in
      ms rout = (ms rin / (ms rin + eps))%R ∧ (ms rout < 1)%R.
Proof.
  intros Hs Hwf Heps. pose proof (wf_last_axis x pre (S n) Hs Hwf) as Hd.
  set (self := RMSNorm.__init__ (S n) eps).
  assert (Hw : is_vector (S n) (RMSNorm.weight self)).
  { split; [reflexivity|]. unfold self, RMSNorm.__init__, ones, full.
    cbn [RMSNorm.weight data]. rewrite length_replicate.
    apply size_of_singleton. }
  rewrite (rms_norm_rows self x pre n Hs Hwf Hw).
  eexists. split; [reflexivity|]. split; [reflexivity|].
  intros i Hi ms rin rout. cbn [data] in rout.
  assert (Hrin : length rin = S n).
  { unfold rin. rewrite nth_chunks by exact Hi.
    rewrite length_take, length_drop. nia. }
  assert (Hne : rin ≠ []) by (destruct rin; [discriminate | congruence]).
  assert (Hout : rout = rms_norm_row eps (replicate (length rin) 1%R) rin).
  { unfold rout. rewrite chunks_concat_fmap.
    - rewrite (nth_fmap _ _ _ []) by (rewrite length_chunks; exact Hi).
      fold rin. unfold self, RMSNorm.__init__, ones, full.
      cbn [RMSNorm.weight RMSNorm.eps data].
      rewrite size_of_singleton, Hrin. reflexivity.
    - eapply Forall_impl; [apply Forall_chunks_length, Hd|].
      intros c Hc. cbn beta in Hc. unfold rms_norm_row.
      rewrite length_fmap, length_zip_with, (proj2 Hw), Hc. lia. }
  assert (Hms : ms rout = (ms rin / (ms rin + eps))%R).
  { rewrite Hout. apply (mean_squares_rms_norm_row eps rin Hne Heps). }
  split; [exact Hms|]. rewrite Hms.
  apply variance_ratio_below_one; [apply mean_squares_nonneg | exact Heps].
Qed.

(** X15, witness: the two rows of the example batch. *)
Lemma rms_norm_output_mean_square_witness :
  shape example_batch = [2] ++ [3] ∧ wf example_batch ∧
  (0 < default_eps)%R ∧
  ∃ out,
    RMSNorm.__call__ (RMSNorm.__init__ 3 default_eps) example_batch = Ok out ∧
    (mean_list ((fun v => v * v)%R <$> nth 0 (chunks 3 2 (data out)) []) < 1)%R.
Proof.
  assert (Heps : (0 < default_eps)%R).
  { unfold default_eps, sdiv, s1, sof_Z, R_Scalar. lra. }
  split; [reflexivity|]. split; [reflexivity|]. split; [exact Heps|].
  destruct (rms_norm_output_mean_square example_batch [2] 2 default_eps
              eq_refl eq_refl Heps) as (out & Hout & _ & Hrows).
  exists out. split; [exact Hout|].
  apply (Hrows 0). cbn. lia.
Defined.

(** X16: in exact arithmetic the learned vectors of a LayerNorm as its
    constructor leaves it, weight one and bias zero, change nothing: on
    an input whose last axis has [dims] elements the layer returns what
    the layer built with [affine=False] returns. *)
Theorem layer_norm_initial_affine_is_identity
    (x : array R) (pre : list nat) (n : nat) (eps : R) :
  shape x = pre ++ [n] → wf x →
  LayerNorm.__call__ (LayerNorm.__init__ n eps true) x =
  LayerNorm.__call__ (LayerNorm.__init__ n eps false) x.
Proof.
  intros Hs Hwf. pose proof (wf_last_axis x pre n Hs Hwf) as Hd.
  unfold LayerNorm.__call__.
  rewrite (layer_norm_normalize_rows _ x pre n Hs Hwf).
  rewrite (layer_norm_normalize_rows _ x pre n Hs Hwf).
  cbn [mbind result_bind LayerNorm.__init__ LayerNorm.weight LayerNorm.bias
       LayerNorm.eps].
  set (y := Array (pre ++ [n]) _).
  assert (Hyd : length (data y) = size_of pre * n).
  { unfold y. cbn [data].
    apply (length_rowwise _ n _ _ Hd (length_normalize_row eps)). }
  assert (Hy : wf y).
  { unfold wf. rewrite Hyd. unfold y. cbn [shape].
    rewrite size_of_app, size_of_singleton. reflexivity. }
  assert (Hfit : params_fit n (Some (ones [n]))
                    (Some (zeros [n]) : option (array R))).
  { split; split; try reflexivity; unfold ones, zeros, full; cbn [data];
      rewrite length_replicate; apply size_of_singleton. }
  rewrite (affine_last_axis _ _ y pre n eq_refl Hy Hfit).
  cbn [affine]. f_equal.
  transitivity (Array (pre ++ [n]) (data y)); [|reflexivity]. f_equal.
  rewrite <- (concat_chunks n (size_of pre) (data y) Hyd) at 2.
  f_equal. rewrite <- list_fmap_id. apply Forall_fmap_ext.
  eapply Forall_impl; [apply Forall_chunks_length, Hyd|].
  intros row Hrow. cbn beta in Hrow. apply affine_row_initial, Hrow.
Qed.

(** X16, witness: three features, on the example batch. *)
Lemma layer_norm_initial_affine_is_identity_witness :
  shape example_batch = [2] ++ [3] ∧ wf example_batch ∧
  LayerNorm.__call__ (LayerNorm.__init__ 3 default_eps true) example_batch =
  LayerNorm.__call__ (LayerNorm.__init__ 3 default_eps false) example_batch.
Proof.
  split; [reflexivity|]. split; [reflexivity|].
  apply (layer_norm_initial_affine_is_identity example_batch [2] 3);
    reflexivity.
Defined.

(** ** GroupNorm keeps the shape *)

Section GroupNormShape.
Context {A : Type} `{Scalar A}.

Lemma unpack_Ok (s : list nat) (batch : nat) (rest : list nat) (dims : nat) :
  GroupNorm.unpack s = Ok (batch, rest, dims) → s = batch :: rest ++ [dims].
Proof.
  unfold GroupNorm.unpack. destruct s as [|b r]; [discriminate|].
  destruct (last r) as [n|] eqn:Hl; [|discriminate].
  intros [= <- <- <-]. destruct (last_Some_snoc r n Hl) as [pre ->].
  rewrite removelast_last. reflexivity.
Qed.

(** A reshape to extents that are all given returns an array of these
    extents. *)
Lemma reshape_of_nat_Ok (a y : array A) (s : list nat) :
  reshape a (Z.of_nat <$> s) = Ok y → shape y = s.
Proof.
  unfold reshape.
  rewrite existsb_of_nat, inferred_of_nat, resolve_of_nat, product_of_nat.
  cbn [Nat.ltb Nat.leb Nat.eqb]. rewrite andb_false_r.
  destruct (negb _); [discriminate|].
  intros [= <-]. cbn [shape]. apply to_nat_of_nat.
Qed.

Lemma final_reshape_shape (a y : array A) (batch : nat) (rest : list nat)
    (dims : nat) :
  reshape a (Z.of_nat batch :: (Z.of_nat <$> rest) ++ [Z.of_nat dims]) = Ok y →
  shape y = batch :: rest ++ [dims].
Proof.
  change [Z.of_nat dims] with (Z.of_nat <$> [dims]).
  rewrite <- fmap_app.
  change (Z.of_nat batch :: (Z.of_nat <$> rest ++ [dims]))
    with (Z.of_nat <$> (batch :: rest ++ [dims])).
  apply reshape_of_nat_Ok.
Qed.

Lemma group_norm_default_shape (self : GroupNorm.t A) (x y : array A) :
  GroupNorm._group_norm self x = Ok y → shape y = shape x.
Proof.
  unfold GroupNorm._group_norm.
  destruct (GroupNorm.unpack (shape x)) as [[[batch rest] dims]|] eqn:Hu;
    [|discriminate].
  apply unpack_Ok in Hu. cbn [mbind result_bind].
  destruct (reshape x _) as [x1|]; [|discriminate]. cbn [mbind result_bind].
  destruct (GroupNorm.normalize self x1) as [x2|]; [|discriminate].
  cbn [mbind result_bind]. rewrite Hu. apply final_reshape_shape.
Qed.

Lemma group_norm_compatible_shape (self : GroupNorm.t A) (x y : array A) :
  GroupNorm._pytorch_compatible_group_norm self x = Ok y → shape y = shape x.
Proof.
  unfold GroupNorm._pytorch_compatible_group_norm.
  destruct (GroupNorm.unpack (shape x)) as [[[batch rest] dims]|] eqn:Hu;
    [|discriminate].
  apply unpack_Ok in Hu. cbn [mbind result_bind].
  destruct (GroupNorm.floordiv _ _) as [q|]; [|discriminate].
  cbn [mbind result_bind].
  destruct (reshape x _) as [x1|]; [|discriminate]. cbn [mbind result_bind].
  destruct (transpose x1 _) as [x2|]; [|discriminate].
  cbn [mbind result_bind].
  destruct (reshape x2 _) as [x3|]; [|discriminate]. cbn [mbind result_bind].
  destruct (GroupNorm.normalize self x3) as [x4|]; [|discriminate].
  cbn [mbind result_bind].
  destruct (reshape x4 _) as [x5|]; [|discriminate]. cbn [mbind result_bind].
  destruct (transpose x5 _) as [x6|]; [|discriminate].
  cbn [mbind result_bind]. rewrite Hu. apply final_reshape_shape.
Qed.

End GroupNormShape.

(** X17: whenever the grouping of GroupNorm returns, in the default mode
    or in the PyTorch compatible mode, what it returns has the shape of
    the input, whatever the number of groups; and without learned vectors
    so has what the layer returns. *)
Theorem group_norm_keeps_shape
    {A : Type} `{Scalar A} (self : GroupNorm.t A) (x y : array A) :
  (GroupNorm._group_norm self x = Ok y → shape y = shape x) ∧
  (GroupNorm._pytorch_compatible_group_norm self x = Ok y →
   shape y = shape x) ∧
  (GroupNorm.weight self = None → GroupNorm.__call__ self x = Ok y →
   shape y = shape x).
Proof.
  split; [apply group_norm_default_shape|].
  split; [apply group_norm_compatible_shape|].
  intros Hw. unfold GroupNorm.__call__. rewrite Hw.
  destruct (GroupNorm.pytorch_compatible self); cbv zeta.
  - destruct (GroupNorm._pytorch_compatible_group_norm self x) as [z|] eqn:Hz;
      [|discriminate].
    cbn. intros [= <-]. apply (group_norm_compatible_shape self x z Hz).
  - destruct (GroupNorm._group_norm self x) as [z|] eqn:Hz; [|discriminate].
    cbn. intros [= <-]. apply (group_norm_default_shape self x z Hz).
Qed.

(** X17, witness: two groups of two features in the PyTorch compatible
    mode, on binary64 numbers. *)
Lemma group_norm_keeps_shape_witness :
  let x : array PrimFloat.float :=
    Array [1; 2; 4] (sof_Z <$> [1; 2; 3; 4; 5; 6; 7; 9]%Z) in
  let self := GroupNorm.__init__ 2 4 default_eps false true in
  ∃ y, GroupNorm.__call__ self x = Ok y ∧ shape y = [1; 2; 4].
Proof.
  intros x self.
  destruct (GroupNorm.__call__ self x) as [y|e] eqn:Hy;
    [|vm_compute in Hy; discriminate].
  exists y. split; [reflexivity|].
  apply (proj2 (proj2 (group_norm_keeps_shape self x y)) eq_refl Hy).
Defined.

(** X18: with [num_groups = 0] the two modes fail differently on every
    input of rank two or more: the PyTorch compatible mode raises
    [ZeroDivisionError] at [dims // num_groups], the default mode
    [ValueError] at the reshape, which cannot infer an extent beside an
    extent of zero. *)
Theorem group_norm_zero_groups
    {A : Type} `{Scalar A} (self : GroupNorm.t A) (x : array A) :
  2 ≤ ndim x → GroupNorm.num_groups self = 0%Z →
  GroupNorm._pytorch_compatible_group_norm self x = Raise ZeroDivisionError ∧
  GroupNorm._group_norm self x = Raise ValueError.
Proof.
  unfold ndim. intros Hr HG.
  assert (Hu : ∃ batch rest dims,
            GroupNorm.unpack (shape x) = Ok (batch, rest, dims)).
  { destruct (shape x) as [|b r]; [cbn in Hr; lia|].
    destruct r as [|n r] using rev_ind; [cbn in Hr; lia|].
    exists b, r, n. apply unpack_shape. }
  destruct Hu as (batch & rest & dims & Hu).
  unfold GroupNorm._pytorch_compatible_group_norm, GroupNorm._group_norm.
  rewrite Hu, HG. cbn [mbind result_bind]. split; [reflexivity|].
  change [Z.of_nat batch; (-1)%Z; 0%Z]
    with (Z.of_nat batch :: (-1)%Z :: (Z.of_nat <$> [0])).
  rewrite reshape_infer_zero by (right; reflexivity). reflexivity.
Qed.

(** X18, witness: the example batch. *)
Lemma group_norm_zero_groups_witness :
  let self := GroupNorm.__init__ 0 3 default_eps true true in
  2 ≤ ndim example_batch ∧ GroupNorm.num_groups self = 0%Z ∧
  GroupNorm.__call__ self example_batch = Raise ZeroDivisionError.
Proof.
  intros self. split; [cbn; lia|]. split; [reflexivity|].
  unfold GroupNorm.__call__.
  change (GroupNorm.pytorch_compatible self) with true. cbv beta iota zeta.
  rewrite (proj1 (group_norm_zero_groups self example_batch
                    ltac:(cbn; lia) eq_refl)).
  reflexivity.
Defined.
